(** * Address clean-up for land-registry reports

    A shallow embedding of the two stages of the pipeline:
    - stage 1 ([czyszczenieadresu1.py]): missing-value normalisation and the
      replacement of the 49 voivodeships of 1975-1998 by the 16 current ones;
    - stage 2 ([czyszczenieadresu2.py]): completion of
      Województwo / Powiat / Gmina / Miejscowość from the TERYT table and the
      court-district table.

    Python strings are sequences of Unicode code points and are modelled as
    [list N].  What Python takes from its Unicode character database
    ([str.lower], [str.upper], [str.isspace], [unicodedata.normalize],
    [unicodedata.combining], the regular-expression classes [\s] and [\d]) is
    an interface of the embedding, the class [UnicodeData]; the instance
    [latin_ucd] tabulates it for the code points the reports are written in. *)

From Stdlib Require Import NArith List Ascii String Bool Lia.
From stdpp Require Import base option list gmap fin_maps.

(** ** Python strings *)

Abbreviation pystr := (list N).

(** String literals of this file are written in UTF-8; [u8] decodes the bytes
    of a literal into code points. *)
Fixpoint utf8_decode (bs : list N) : pystr :=
  match bs with
  | [] => []
  | b :: r =>
      if (b <? 0x80)%N then b :: utf8_decode r
      else if (b <? 0xE0)%N then
        match r with
        | c1 :: r1 => ((b - 0xC0) * 64 + (c1 - 0x80))%N :: utf8_decode r1
        | _ => []
        end
      else if (b <? 0xF0)%N then
        match r with
        | c1 :: c2 :: r2 =>
            ((b - 0xE0) * 4096 + (c1 - 0x80) * 64 + (c2 - 0x80))%N :: utf8_decode r2
        | _ => []
        end
      else
        match r with
        | c1 :: c2 :: c3 :: r3 =>
            ((b - 0xF0) * 262144 + (c1 - 0x80) * 4096 + (c2 - 0x80) * 64 + (c3 - 0x80))%N
              :: utf8_decode r3
        | _ => []
        end
  end.

Definition u8 (s : string) : pystr :=
  utf8_decode (List.map N_of_ascii (list_ascii_of_string s)).
Arguments u8 s%_string.

(** Replace the literals of the goal by the code points they stand for. *)
Ltac eval_u8 :=
  repeat match goal with
         | |- context [u8 ?s] =>
             let v := eval vm_compute in (u8 s) in change (u8 s) with v
         end.

(** Python truthiness of a string and of an optional string. *)
Definition nonempty (s : pystr) : bool :=
  match s with [] => false | _ => true end.

Definition truthy (o : option pystr) : bool :=
  match o with Some s => nonempty s | None => false end.

(** [x or ''] *)
Definition or_empty (o : option pystr) : pystr := default [] o.

(** [x or None] *)
Definition or_none (s : pystr) : option pystr :=
  if nonempty s then Some s else None.

(** ** The Unicode character database *)

Class UnicodeData := {
  (** [c.lower()] and [c.upper()] of a one-character string *)
  lower_char : N -> pystr;
  upper_char : N -> pystr;
  (** [unicodedata.normalize("NFKD", c)] of a one-character string *)
  decomp : N -> pystr;
  (** [unicodedata.combining(c)] *)
  combining : N -> N;
  (** [c.isspace()], which is also the class [\s] of [re] *)
  isspace : N -> bool;
  (** the class [\d] of [re]: decimal digits *)
  isdecimal : N -> bool
}.

Section PyStr.
Context {U : UnicodeData}.

(** [str.lower] and [str.upper] map every code point on its own.  (The one
    rule of Python that looks at the context, the final sigma, is about
    U+03A3 only.) *)
Definition py_lower (s : pystr) : pystr := flat_map lower_char s.
Definition py_upper (s : pystr) : pystr := flat_map upper_char s.

Fixpoint lstrip (s : pystr) : pystr :=
  match s with
  | [] => []
  | c :: r => if isspace c then lstrip r else s
  end.

Fixpoint rstrip (s : pystr) : pystr :=
  match s with
  | [] => []
  | c :: r =>
      match rstrip r with
      | [] => if isspace c then [] else [c]
      | r' => c :: r'
      end
  end.

(** [str.strip()] *)
Definition strip (s : pystr) : pystr := rstrip (lstrip s).

(** Canonical ordering of NFKD: inside every run of characters of non-zero
    combining class the characters are sorted by class, stably. *)
Fixpoint insert_mark (c : N) (run : pystr) : pystr :=
  match run with
  | [] => [c]
  | d :: r =>
      if negb (combining d =? 0)%N && (combining d <? combining c)%N
      then d :: insert_mark c r
      else c :: run
  end.

Fixpoint canonical_order (s : pystr) : pystr :=
  match s with
  | [] => []
  | c :: r =>
      if (combining c =? 0)%N then c :: canonical_order r
      else insert_mark c (canonical_order r)
  end.

(** [unicodedata.normalize("NFKD", s)] *)
Definition normalize_NFKD (s : pystr) : pystr :=
  canonical_order (flat_map decomp s).

(** [''.join(c for c in unicodedata.normalize("NFKD", s)
             if not unicodedata.combining(c))] *)
Definition strip_marks (s : pystr) : pystr :=
  List.filter (fun c => (combining c =? 0)%N) (normalize_NFKD s).

(** [re.sub(r"\s+", " ", s)]: [in_run] tells that the previous character was
    white space, already replaced. *)
Fixpoint sub_ws (in_run : bool) (s : pystr) : pystr :=
  match s with
  | [] => []
  | c :: r =>
      if isspace c then (if in_run then sub_ws true r else 0x20%N :: sub_ws true r)
      else c :: sub_ws false r
  end.

(** [re.split(pattern, s)] for a pattern [[...]+] given by its character
    class: the pieces between the maximal runs of separators.  [cur] is the
    piece being read, reversed. *)
Fixpoint re_split_go (sep : N -> bool) (cur : pystr) (in_sep : bool) (s : pystr)
  : list pystr :=
  match s with
  | [] => [rev cur]
  | c :: r =>
      if sep c then
        (if in_sep then re_split_go sep cur true r
         else rev cur :: re_split_go sep [] true r)
      else re_split_go sep (c :: cur) false r
  end.

Definition re_split (sep : N -> bool) (s : pystr) : list pystr :=
  re_split_go sep [] false s.

(** [sep.join(parts)] *)
Fixpoint join (sep : pystr) (parts : list pystr) : pystr :=
  match parts with
  | [] => []
  | [p] => p
  | p :: ps => p ++ sep ++ join sep ps
  end.

(** [s.startswith(p)], returning the rest *)
Fixpoint strip_prefix (p s : pystr) : option pystr :=
  match p, s with
  | [], _ => Some s
  | a :: p', b :: s' => if (a =? b)%N then strip_prefix p' s' else None
  | _ :: _, [] => None
  end.

(** [s.replace(old, '')] for a non-empty [old]: occurrences are removed from
    left to right; [skip] counts the characters of an occurrence that are
    still to be dropped. *)
Fixpoint remove_all_go (old : pystr) (skip : nat) (s : pystr) : pystr :=
  match s with
  | [] => []
  | c :: r =>
      match skip with
      | S k => remove_all_go old k r
      | O =>
          match strip_prefix old s with
          | Some _ => remove_all_go old (length old - 1) r
          | None => c :: remove_all_go old 0 r
          end
      end
  end.

Definition remove_all (old s : pystr) : pystr := remove_all_go old 0 s.

(** [s in tokens] for a set of strings *)
Definition in_set (s : pystr) (X : gset pystr) : bool := bool_decide (s ∈ X).
End PyStr.

(** ** The database of the reports' alphabet

    Basic Latin, Latin-1 Supplement, Latin Extended-A, the Combining
    Diacritical Marks, and U+2014, U+2122, U+212A; white space is complete.
    Outside the tables a code point is its own lower case, upper case and
    decomposition, has combining class 0 and is no digit. *)
Module Latin.
Local Open Scope N_scope.

(** Lower-case mappings that are not the identity. *)
Definition lower_table : list (N * list N) :=
[ (0x41, [0x61]); (0x42, [0x62]); (0x43, [0x63]); (0x44, [0x64]); (0x45, [0x65]);
  (0x46, [0x66]); (0x47, [0x67]); (0x48, [0x68]); (0x49, [0x69]); (0x4A, [0x6A]);
  (0x4B, [0x6B]); (0x4C, [0x6C]); (0x4D, [0x6D]); (0x4E, [0x6E]); (0x4F, [0x6F]);
  (0x50, [0x70]); (0x51, [0x71]); (0x52, [0x72]); (0x53, [0x73]); (0x54, [0x74]);
  (0x55, [0x75]); (0x56, [0x76]); (0x57, [0x77]); (0x58, [0x78]); (0x59, [0x79]);
  (0x5A, [0x7A]); (0xC0, [0xE0]); (0xC1, [0xE1]); (0xC2, [0xE2]); (0xC3, [0xE3]);
  (0xC4, [0xE4]); (0xC5, [0xE5]); (0xC6, [0xE6]); (0xC7, [0xE7]); (0xC8, [0xE8]);
  (0xC9, [0xE9]); (0xCA, [0xEA]); (0xCB, [0xEB]); (0xCC, [0xEC]); (0xCD, [0xED]);
  (0xCE, [0xEE]); (0xCF, [0xEF]); (0xD0, [0xF0]); (0xD1, [0xF1]); (0xD2, [0xF2]);
  (0xD3, [0xF3]); (0xD4, [0xF4]); (0xD5, [0xF5]); (0xD6, [0xF6]); (0xD8, [0xF8]);
  (0xD9, [0xF9]); (0xDA, [0xFA]); (0xDB, [0xFB]); (0xDC, [0xFC]); (0xDD, [0xFD]);
  (0xDE, [0xFE]); (0x100, [0x101]); (0x102, [0x103]); (0x104, [0x105]); (0x106, [0x107]);
  (0x108, [0x109]); (0x10A, [0x10B]); (0x10C, [0x10D]); (0x10E, [0x10F]); (0x110, [0x111]);
  (0x112, [0x113]); (0x114, [0x115]); (0x116, [0x117]); (0x118, [0x119]); (0x11A, [0x11B]);
  (0x11C, [0x11D]); (0x11E, [0x11F]); (0x120, [0x121]); (0x122, [0x123]); (0x124, [0x125]);
  (0x126, [0x127]); (0x128, [0x129]); (0x12A, [0x12B]); (0x12C, [0x12D]); (0x12E, [0x12F]);
  (0x130, [0x69; 0x307]); (0x132, [0x133]); (0x134, [0x135]); (0x136, [0x137]);
  (0x139, [0x13A]); (0x13B, [0x13C]); (0x13D, [0x13E]); (0x13F, [0x140]); (0x141, [0x142]);
  (0x143, [0x144]); (0x145, [0x146]); (0x147, [0x148]); (0x14A, [0x14B]); (0x14C, [0x14D]);
  (0x14E, [0x14F]); (0x150, [0x151]); (0x152, [0x153]); (0x154, [0x155]); (0x156, [0x157]);
  (0x158, [0x159]); (0x15A, [0x15B]); (0x15C, [0x15D]); (0x15E, [0x15F]); (0x160, [0x161]);
  (0x162, [0x163]); (0x164, [0x165]); (0x166, [0x167]); (0x168, [0x169]); (0x16A, [0x16B]);
  (0x16C, [0x16D]); (0x16E, [0x16F]); (0x170, [0x171]); (0x172, [0x173]); (0x174, [0x175]);
  (0x176, [0x177]); (0x178, [0xFF]); (0x179, [0x17A]); (0x17B, [0x17C]); (0x17D, [0x17E]);
  (0x212A, [0x6B]) ].

(** Upper-case mappings that are not the identity. *)
Definition upper_table : list (N * list N) :=
[ (0x61, [0x41]); (0x62, [0x42]); (0x63, [0x43]); (0x64, [0x44]); (0x65, [0x45]);
  (0x66, [0x46]); (0x67, [0x47]); (0x68, [0x48]); (0x69, [0x49]); (0x6A, [0x4A]);
  (0x6B, [0x4B]); (0x6C, [0x4C]); (0x6D, [0x4D]); (0x6E, [0x4E]); (0x6F, [0x4F]);
  (0x70, [0x50]); (0x71, [0x51]); (0x72, [0x52]); (0x73, [0x53]); (0x74, [0x54]);
  (0x75, [0x55]); (0x76, [0x56]); (0x77, [0x57]); (0x78, [0x58]); (0x79, [0x59]);
  (0x7A, [0x5A]); (0xB5, [0x39C]); (0xDF, [0x53; 0x53]); (0xE0, [0xC0]); (0xE1, [0xC1]);
  (0xE2, [0xC2]); (0xE3, [0xC3]); (0xE4, [0xC4]); (0xE5, [0xC5]); (0xE6, [0xC6]);
  (0xE7, [0xC7]); (0xE8, [0xC8]); (0xE9, [0xC9]); (0xEA, [0xCA]); (0xEB, [0xCB]);
  (0xEC, [0xCC]); (0xED, [0xCD]); (0xEE, [0xCE]); (0xEF, [0xCF]); (0xF0, [0xD0]);
  (0xF1, [0xD1]); (0xF2, [0xD2]); (0xF3, [0xD3]); (0xF4, [0xD4]); (0xF5, [0xD5]);
  (0xF6, [0xD6]); (0xF8, [0xD8]); (0xF9, [0xD9]); (0xFA, [0xDA]); (0xFB, [0xDB]);
  (0xFC, [0xDC]); (0xFD, [0xDD]); (0xFE, [0xDE]); (0xFF, [0x178]); (0x101, [0x100]);
  (0x103, [0x102]); (0x105, [0x104]); (0x107, [0x106]); (0x109, [0x108]); (0x10B, [0x10A]);
  (0x10D, [0x10C]); (0x10F, [0x10E]); (0x111, [0x110]); (0x113, [0x112]); (0x115, [0x114]);
  (0x117, [0x116]); (0x119, [0x118]); (0x11B, [0x11A]); (0x11D, [0x11C]); (0x11F, [0x11E]);
  (0x121, [0x120]); (0x123, [0x122]); (0x125, [0x124]); (0x127, [0x126]); (0x129, [0x128]);
  (0x12B, [0x12A]); (0x12D, [0x12C]); (0x12F, [0x12E]); (0x131, [0x49]); (0x133, [0x132]);
  (0x135, [0x134]); (0x137, [0x136]); (0x13A, [0x139]); (0x13C, [0x13B]); (0x13E, [0x13D]);
  (0x140, [0x13F]); (0x142, [0x141]); (0x144, [0x143]); (0x146, [0x145]); (0x148, [0x147]);
  (0x149, [0x2BC; 0x4E]); (0x14B, [0x14A]); (0x14D, [0x14C]); (0x14F, [0x14E]);
  (0x151, [0x150]); (0x153, [0x152]); (0x155, [0x154]); (0x157, [0x156]); (0x159, [0x158]);
  (0x15B, [0x15A]); (0x15D, [0x15C]); (0x15F, [0x15E]); (0x161, [0x160]); (0x163, [0x162]);
  (0x165, [0x164]); (0x167, [0x166]); (0x169, [0x168]); (0x16B, [0x16A]); (0x16D, [0x16C]);
  (0x16F, [0x16E]); (0x171, [0x170]); (0x173, [0x172]); (0x175, [0x174]); (0x177, [0x176]);
  (0x17A, [0x179]); (0x17C, [0x17B]); (0x17E, [0x17D]); (0x17F, [0x53]); (0x345, [0x399]) ].

(** Compatibility decompositions that are not the identity. *)
Definition nfkd_table : list (N * list N) :=
[ (0xA0, [0x20]); (0xA8, [0x20; 0x308]); (0xAA, [0x61]); (0xAF, [0x20; 0x304]);
  (0xB2, [0x32]); (0xB3, [0x33]); (0xB4, [0x20; 0x301]); (0xB5, [0x3BC]);
  (0xB8, [0x20; 0x327]); (0xB9, [0x31]); (0xBA, [0x6F]); (0xBC, [0x31; 0x2044; 0x34]);
  (0xBD, [0x31; 0x2044; 0x32]); (0xBE, [0x33; 0x2044; 0x34]); (0xC0, [0x41; 0x300]);
  (0xC1, [0x41; 0x301]); (0xC2, [0x41; 0x302]); (0xC3, [0x41; 0x303]); (0xC4, [0x41; 0x308]);
  (0xC5, [0x41; 0x30A]); (0xC7, [0x43; 0x327]); (0xC8, [0x45; 0x300]); (0xC9, [0x45; 0x301]);
  (0xCA, [0x45; 0x302]); (0xCB, [0x45; 0x308]); (0xCC, [0x49; 0x300]); (0xCD, [0x49; 0x301]);
  (0xCE, [0x49; 0x302]); (0xCF, [0x49; 0x308]); (0xD1, [0x4E; 0x303]); (0xD2, [0x4F; 0x300]);
  (0xD3, [0x4F; 0x301]); (0xD4, [0x4F; 0x302]); (0xD5, [0x4F; 0x303]); (0xD6, [0x4F; 0x308]);
  (0xD9, [0x55; 0x300]); (0xDA, [0x55; 0x301]); (0xDB, [0x55; 0x302]); (0xDC, [0x55; 0x308]);
  (0xDD, [0x59; 0x301]); (0xE0, [0x61; 0x300]); (0xE1, [0x61; 0x301]); (0xE2, [0x61; 0x302]);
  (0xE3, [0x61; 0x303]); (0xE4, [0x61; 0x308]); (0xE5, [0x61; 0x30A]); (0xE7, [0x63; 0x327]);
  (0xE8, [0x65; 0x300]); (0xE9, [0x65; 0x301]); (0xEA, [0x65; 0x302]); (0xEB, [0x65; 0x308]);
  (0xEC, [0x69; 0x300]); (0xED, [0x69; 0x301]); (0xEE, [0x69; 0x302]); (0xEF, [0x69; 0x308]);
  (0xF1, [0x6E; 0x303]); (0xF2, [0x6F; 0x300]); (0xF3, [0x6F; 0x301]); (0xF4, [0x6F; 0x302]);
  (0xF5, [0x6F; 0x303]); (0xF6, [0x6F; 0x308]); (0xF9, [0x75; 0x300]); (0xFA, [0x75; 0x301]);
  (0xFB, [0x75; 0x302]); (0xFC, [0x75; 0x308]); (0xFD, [0x79; 0x301]); (0xFF, [0x79; 0x308]);
  (0x100, [0x41; 0x304]); (0x101, [0x61; 0x304]); (0x102, [0x41; 0x306]);
  (0x103, [0x61; 0x306]); (0x104, [0x41; 0x328]); (0x105, [0x61; 0x328]);
  (0x106, [0x43; 0x301]); (0x107, [0x63; 0x301]); (0x108, [0x43; 0x302]);
  (0x109, [0x63; 0x302]); (0x10A, [0x43; 0x307]); (0x10B, [0x63; 0x307]);
  (0x10C, [0x43; 0x30C]); (0x10D, [0x63; 0x30C]); (0x10E, [0x44; 0x30C]);
  (0x10F, [0x64; 0x30C]); (0x112, [0x45; 0x304]); (0x113, [0x65; 0x304]);
  (0x114, [0x45; 0x306]); (0x115, [0x65; 0x306]); (0x116, [0x45; 0x307]);
  (0x117, [0x65; 0x307]); (0x118, [0x45; 0x328]); (0x119, [0x65; 0x328]);
  (0x11A, [0x45; 0x30C]); (0x11B, [0x65; 0x30C]); (0x11C, [0x47; 0x302]);
  (0x11D, [0x67; 0x302]); (0x11E, [0x47; 0x306]); (0x11F, [0x67; 0x306]);
  (0x120, [0x47; 0x307]); (0x121, [0x67; 0x307]); (0x122, [0x47; 0x327]);
  (0x123, [0x67; 0x327]); (0x124, [0x48; 0x302]); (0x125, [0x68; 0x302]);
  (0x128, [0x49; 0x303]); (0x129, [0x69; 0x303]); (0x12A, [0x49; 0x304]);
  (0x12B, [0x69; 0x304]); (0x12C, [0x49; 0x306]); (0x12D, [0x69; 0x306]);
  (0x12E, [0x49; 0x328]); (0x12F, [0x69; 0x328]); (0x130, [0x49; 0x307]);
  (0x132, [0x49; 0x4A]); (0x133, [0x69; 0x6A]); (0x134, [0x4A; 0x302]);
  (0x135, [0x6A; 0x302]); (0x136, [0x4B; 0x327]); (0x137, [0x6B; 0x327]);
  (0x139, [0x4C; 0x301]); (0x13A, [0x6C; 0x301]); (0x13B, [0x4C; 0x327]);
  (0x13C, [0x6C; 0x327]); (0x13D, [0x4C; 0x30C]); (0x13E, [0x6C; 0x30C]);
  (0x13F, [0x4C; 0xB7]); (0x140, [0x6C; 0xB7]); (0x143, [0x4E; 0x301]);
  (0x144, [0x6E; 0x301]); (0x145, [0x4E; 0x327]); (0x146, [0x6E; 0x327]);
  (0x147, [0x4E; 0x30C]); (0x148, [0x6E; 0x30C]); (0x149, [0x2BC; 0x6E]);
  (0x14C, [0x4F; 0x304]); (0x14D, [0x6F; 0x304]); (0x14E, [0x4F; 0x306]);
  (0x14F, [0x6F; 0x306]); (0x150, [0x4F; 0x30B]); (0x151, [0x6F; 0x30B]);
  (0x154, [0x52; 0x301]); (0x155, [0x72; 0x301]); (0x156, [0x52; 0x327]);
  (0x157, [0x72; 0x327]); (0x158, [0x52; 0x30C]); (0x159, [0x72; 0x30C]);
  (0x15A, [0x53; 0x301]); (0x15B, [0x73; 0x301]); (0x15C, [0x53; 0x302]);
  (0x15D, [0x73; 0x302]); (0x15E, [0x53; 0x327]); (0x15F, [0x73; 0x327]);
  (0x160, [0x53; 0x30C]); (0x161, [0x73; 0x30C]); (0x162, [0x54; 0x327]);
  (0x163, [0x74; 0x327]); (0x164, [0x54; 0x30C]); (0x165, [0x74; 0x30C]);
  (0x168, [0x55; 0x303]); (0x169, [0x75; 0x303]); (0x16A, [0x55; 0x304]);
  (0x16B, [0x75; 0x304]); (0x16C, [0x55; 0x306]); (0x16D, [0x75; 0x306]);
  (0x16E, [0x55; 0x30A]); (0x16F, [0x75; 0x30A]); (0x170, [0x55; 0x30B]);
  (0x171, [0x75; 0x30B]); (0x172, [0x55; 0x328]); (0x173, [0x75; 0x328]);
  (0x174, [0x57; 0x302]); (0x175, [0x77; 0x302]); (0x176, [0x59; 0x302]);
  (0x177, [0x79; 0x302]); (0x178, [0x59; 0x308]); (0x179, [0x5A; 0x301]);
  (0x17A, [0x7A; 0x301]); (0x17B, [0x5A; 0x307]); (0x17C, [0x7A; 0x307]);
  (0x17D, [0x5A; 0x30C]); (0x17E, [0x7A; 0x30C]); (0x17F, [0x73]); (0x340, [0x300]);
  (0x341, [0x301]); (0x343, [0x313]); (0x344, [0x308; 0x301]); (0x2122, [0x54; 0x4D]);
  (0x212A, [0x4B]) ].

(** Non-zero canonical combining classes, as ranges [(first, last, class)]. *)
Definition ccc_table : list (N * N * N) :=
[ (0x300, 0x314, 230); (0x315, 0x315, 232); (0x316, 0x319, 220); (0x31A, 0x31A, 232);
  (0x31B, 0x31B, 216); (0x31C, 0x320, 220); (0x321, 0x322, 202); (0x323, 0x326, 220);
  (0x327, 0x328, 202); (0x329, 0x333, 220); (0x334, 0x338, 1); (0x339, 0x33C, 220);
  (0x33D, 0x344, 230); (0x345, 0x345, 240); (0x346, 0x346, 230); (0x347, 0x349, 220);
  (0x34A, 0x34C, 230); (0x34D, 0x34E, 220); (0x350, 0x352, 230); (0x353, 0x356, 220);
  (0x357, 0x357, 230); (0x358, 0x358, 232); (0x359, 0x35A, 220); (0x35B, 0x35B, 230);
  (0x35C, 0x35C, 233); (0x35D, 0x35E, 234); (0x35F, 0x35F, 233); (0x360, 0x361, 234);
  (0x362, 0x362, 233); (0x363, 0x36F, 230) ].

(** Every code point for which [str.isspace] holds. *)
Definition whitespace_table : list N :=
[ 0x9; 0xA; 0xB; 0xC; 0xD; 0x1C; 0x1D; 0x1E; 0x1F; 0x20; 0x85; 0xA0; 0x1680; 0x2000; 0x2001;
  0x2002; 0x2003; 0x2004; 0x2005; 0x2006; 0x2007; 0x2008; 0x2009; 0x200A; 0x2028; 0x2029;
  0x202F; 0x205F; 0x3000 ].

Definition assoc {A} (tbl : list (N * A)) (c : N) : option A :=
  snd <$> List.find (fun e => fst e =? c) tbl.

Definition map_char (tbl : list (N * list N)) (c : N) : list N :=
  default [c] (assoc tbl c).

Definition class_of (c : N) : N :=
  match List.find (fun e => (fst (fst e) <=? c) && (c <=? snd (fst e))) ccc_table with
  | Some e => snd e
  | None => 0
  end.

Definition is_ws (c : N) : bool := existsb (N.eqb c) whitespace_table.

Definition is_digit (c : N) : bool := (0x30 <=? c) && (c <=? 0x39).
End Latin.

#[export] Instance latin_ucd : UnicodeData := {|
  lower_char := Latin.map_char Latin.lower_table;
  upper_char := Latin.map_char Latin.upper_table;
  decomp := Latin.map_char Latin.nfkd_table;
  combining := Latin.class_of;
  isspace := Latin.is_ws;
  isdecimal := Latin.is_digit
|}.

(** ** Stage 1: [czyszczenieadresu1.py] *)
Module Etap1.

Definition MISSING_TOKENS : gset pystr :=
  {[ u8 "---"; u8 "--"; u8 "—"; u8 "-"; u8 "brak"; u8 "brak danych"; u8 "nan";
     u8 "none"; [] ]}.

Definition ADMIN_COLS : list pystr :=
  [ u8 "Województwo"; u8 "Powiat"; u8 "Gmina"; u8 "Miejscowość" ].

Definition HINT_COLS : list pystr :=
  [ u8 "Cały adres (dla lokalu)"; u8 "Położenie"; u8 "Ulica(dla lokalu)";
    u8 "Ulica(dla budynku)"; u8 "Ulica"; u8 "Dzielnica"; u8 "Miejscowość" ].

(** The literal of [HISTORICAL_VOIVODESHIP_MAP], in source order. *)
Definition historical_units : list (pystr * pystr) :=
  [ (u8 "wroclawskie", u8 "DOLNOŚLĄSKIE"); (u8 "jeleniogorskie", u8 "DOLNOŚLĄSKIE");
    (u8 "walbrzyskie", u8 "DOLNOŚLĄSKIE"); (u8 "legnickie", u8 "DOLNOŚLĄSKIE");
    (u8 "bydgoskie", u8 "KUJAWSKO-POMORSKIE"); (u8 "torunskie", u8 "KUJAWSKO-POMORSKIE");
    (u8 "wloclawskie", u8 "KUJAWSKO-POMORSKIE");
    (u8 "lubelskie", u8 "LUBELSKIE"); (u8 "bialskopodlaskie", u8 "LUBELSKIE");
    (u8 "chelmskie", u8 "LUBELSKIE"); (u8 "zamojskie", u8 "LUBELSKIE");
    (u8 "zielonogorskie", u8 "LUBUSKIE"); (u8 "gorzowskie", u8 "LUBUSKIE");
    (u8 "lodzkie", u8 "ŁÓDZKIE"); (u8 "piotrkowskie", u8 "ŁÓDZKIE");
    (u8 "sieradzkie", u8 "ŁÓDZKIE"); (u8 "skierniewickie", u8 "ŁÓDZKIE");
    (u8 "krakowskie", u8 "MAŁOPOLSKIE"); (u8 "tarnowskie", u8 "MAŁOPOLSKIE");
    (u8 "nowosadeckie", u8 "MAŁOPOLSKIE");
    (u8 "warszawskie", u8 "MAZOWIECKIE"); (u8 "plockie", u8 "MAZOWIECKIE");
    (u8 "ciechanowskie", u8 "MAZOWIECKIE"); (u8 "ostroleckie", u8 "MAZOWIECKIE");
    (u8 "siedleckie", u8 "MAZOWIECKIE"); (u8 "radomskie", u8 "MAZOWIECKIE");
    (u8 "opolskie", u8 "OPOLSKIE");
    (u8 "rzeszowskie", u8 "PODKARPACKIE"); (u8 "przemyskie", u8 "PODKARPACKIE");
    (u8 "krosnienskie", u8 "PODKARPACKIE"); (u8 "tarnobrzeskie", u8 "PODKARPACKIE");
    (u8 "bialostockie", u8 "PODLASKIE"); (u8 "lomzynskie", u8 "PODLASKIE");
    (u8 "suwalskie", u8 "PODLASKIE");
    (u8 "gdanskie", u8 "POMORSKIE"); (u8 "slupskie", u8 "POMORSKIE");
    (u8 "katowickie", u8 "ŚLĄSKIE"); (u8 "bielskie", u8 "ŚLĄSKIE");
    (u8 "czestochowskie", u8 "ŚLĄSKIE");
    (u8 "kieleckie", u8 "ŚWIĘTOKRZYSKIE");
    (u8 "olsztynskie", u8 "WARMIŃSKO-MAZURSKIE"); (u8 "elblaskie", u8 "WARMIŃSKO-MAZURSKIE");
    (u8 "poznanskie", u8 "WIELKOPOLSKIE"); (u8 "kaliskie", u8 "WIELKOPOLSKIE");
    (u8 "koninskie", u8 "WIELKOPOLSKIE"); (u8 "leszczynskie", u8 "WIELKOPOLSKIE");
    (u8 "pilskie", u8 "WIELKOPOLSKIE");
    (u8 "szczecinskie", u8 "ZACHODNIOPOMORSKIE");
    (u8 "koszalinskie", u8 "ZACHODNIOPOMORSKIE") ].

(** The literal, then the loop that adds the variants
    ["wojewodztwo X"] and ["X wojewodztwo"] of its 49 items. *)
Definition HISTORICAL_VOIVODESHIP_MAP : gmap pystr pystr :=
  foldl (fun m kv =>
           <[kv.1 ++ u8 " wojewodztwo" := kv.2]>
             (<[u8 "wojewodztwo " ++ kv.1 := kv.2]> m))
        (list_to_map historical_units) historical_units.

Section Defs.
Context {U : UnicodeData}.

Definition norm_missing (x : option pystr) : option pystr :=
  match x with
  | None => None
  | Some x =>
      let s := strip x in
      if in_set (py_lower s) MISSING_TOKENS then None else Some s
  end.

(** the class [[^a-z\s]] *)
Definition not_az_ws (c : N) : bool :=
  negb (((0x61 <=? c) && (c <=? 0x7A))%N || isspace c).

Definition norm_key (s : option pystr) : option pystr :=
  match s with
  | None => None
  | Some s =>
      if nonempty s then
        let s := py_lower (strip s) in
        let s := strip_marks s in
        let s := List.map (fun c => if not_az_ws c then 0x20%N else c) s in
        let s := strip (sub_ws false s) in
        or_none s
      else None
  end.

Definition replace_historical_voivodeship (val : option pystr) : option pystr :=
  match norm_missing val with
  | None => None
  | Some val =>
      match norm_key (Some val) with
      | None => None
      | Some key =>
          match HISTORICAL_VOIVODESHIP_MAP !! key with
          | Some modern => Some modern
          | None =>
              let key2 := strip (remove_all (u8 "wojewodztwo ") key) in
              match HISTORICAL_VOIVODESHIP_MAP !! key2 with
              | Some modern => Some modern
              | None => Some (py_upper val)
              end
          end
      end
  end.
(** What [main] does to a cell of the four administrative columns:
    [.map(norm_missing).map(lambda x: x.upper() if x else None)]. *)
Definition clean_admin (x : option pystr) : option pystr :=
match norm_missing x with
| Some v => if nonempty v then Some (py_upper v) else None
| None => None
end.

(** ... and to a cell of the column Województwo, which then goes through
    [replace_historical_voivodeship]. *)
Definition clean_wojewodztwo (x : option pystr) : option pystr :=
replace_historical_voivodeship (clean_admin x).

(** [build_addr_hint] on a row of the report: column name to cell, [None]
    being an empty cell. *)
Definition build_addr_hint (row : gmap pystr (option pystr)) : option pystr :=
  let parts :=
    flat_map (fun c =>
       match row !! c with
       | Some x =>
           match norm_missing x with
           | Some v => if nonempty v then [v] else []
           | None => []
           end
       | None => []
       end) HINT_COLS in
  match parts with
  | [] => None
  | _ => Some (py_upper (join (u8 " | ") parts))
  end.

(** What [main] does to a row of the report: the pass over the
    administrative columns that exist, the historical regions, the hint. *)
Definition main_row (row : gmap pystr (option pystr)) : gmap pystr (option pystr) :=
  let row :=
    foldl (fun r col =>
             match r !! col with
             | Some x => <[col := clean_admin x]> r
             | None => r
             end) row ADMIN_COLS in
  let row :=
    match row !! u8 "Województwo" with
    | Some x => <[u8 "Województwo" := replace_historical_voivodeship x]> row
    | None => row
    end in
  <[u8 "_addr_hint" := build_addr_hint row]> row.
End Defs.
End Etap1.

(** ** Exceptions

    The only exception the modelled code can raise is the [KeyError] of a
    dictionary subscript [d[k]]. *)
Inductive exc (A : Type) : Type :=
  | Ok (a : A)
  | KeyError.
Arguments Ok {A} a.
Arguments KeyError {A}.

#[export] Instance exc_ret : MRet exc := fun A a => Ok a.
#[export] Instance exc_bind : MBind exc :=
  fun A B f m => match m with Ok a => f a | KeyError => KeyError end.
#[export] Instance exc_fmap : FMap exc :=
  fun A B f m => match m with Ok a => Ok (f a) | KeyError => KeyError end.

(** [d[k]] *)
Definition getitem {V} (d : gmap pystr V) (k : pystr) : exc V :=
  match d !! k with Some v => Ok v | None => KeyError end.

(** [d.setdefault(k, v)], for its effect on [d] *)
Definition setdefault {V} (d : gmap pystr V) (k : pystr) (v : V) : gmap pystr V :=
  match d !! k with Some _ => d | None => <[k := v]> d end.

(** A [for] loop whose body may [return]: [body x = Some r] when the
    iteration at [x] returns [r]. *)
Fixpoint first_return {A R} (body : A -> option R) (l : list A) : option R :=
  match l with
  | [] => None
  | x :: r => match body x with Some y => Some y | None => first_return body r end
  end.

(** ** Stage 2: [czyszczenieadresu2.py] *)
Module Etap2.

Definition COL_WOJ : pystr := u8 "Województwo".
Definition COL_POW : pystr := u8 "Powiat".
Definition COL_GMI : pystr := u8 "Gmina".
Definition COL_MIA : pystr := u8 "Miejscowość".
Definition COL_KW : pystr := u8 "Nr KW".

Definition HINT_COLS : list pystr :=
  [ u8 "_addr_hint"; u8 "Cały adres (dla lokalu)"; u8 "Położenie"; u8 "Ulica(dla lokalu)";
    u8 "Ulica(dla budynku)"; u8 "Ulica"; u8 "Dzielnica"; u8 "Miejscowość" ].

Definition MISSING_TOKENS : gset pystr :=
  {[ u8 "---"; u8 "--"; u8 "—"; u8 "-"; u8 "brak"; u8 "brak danych"; u8 "nan";
     u8 "none"; [] ]}.

(** A cell of the report: [None] is an empty cell ([None] or NaN, whose
    [str] is the missing token ["nan"]), [Some s] a cell whose [str] is [s]. *)
Abbreviation cell := (option pystr).

(** A row of the report ([df.iloc[i]]): column name to cell. *)
Abbreviation raport_row := (gmap pystr cell).

(** A row of [teryt.csv] as [load_teryt] leaves it: every column that is
    present holds a stripped string; [None] is a column that is absent. *)
Record teryt_row := {
  Wojewodztwo : option pystr;
  Powiat : option pystr;
  Gmina : option pystr;
  Miejscowosc : option pystr
}.

(** A cell of [obszar_sadow.xlsx] as [pd.read_excel] gives it. *)
Inductive xcell :=
  | Absent              (** the column is not in the sheet *)
  | NaN                 (** an empty cell *)
  | Text (s : pystr).

Record obszar_row := {
  Oznaczenie_sadu : xcell;
  obs_Wojewodztwo : xcell;
  obs_Powiat : xcell;
  obs_Gmina : xcell;
  obs_Miejscowosc : xcell
}.

(** [str(r.get(col) or '')] *)
Definition str_or_empty (x : xcell) : pystr :=
  match x with
  | Absent => []
  | NaN => u8 "nan"
  | Text s => s
  end.

(** The values [Series.dropna()] keeps. *)
Definition notna (x : xcell) : option pystr :=
  match x with Text s => Some s | _ => None end.

Record teryt_index := {
  miejsc_keys_set : gset pystr;
  miejsc_key_to_canon : gmap pystr pystr;
  miejsc_to_rows : gmap pystr (list (pystr * pystr * pystr))
}.

Abbreviation court_map := (gmap pystr (pystr * pystr * pystr * pystr)).

Record obszar_index := {
  court_to_woj : gmap pystr pystr;
  court_to_miejsc : gmap pystr court_map
}.

(** [Series.unique()]: first occurrences, in order of appearance. *)
Fixpoint unique (l : list pystr) : list pystr :=
  match l with
  | [] => []
  | x :: r => x :: List.filter (fun y => negb (bool_decide (y = x))) (unique r)
  end.

(** Order of Python strings: lexicographic on code points. *)
Fixpoint str_le (a b : pystr) : bool :=
  match a, b with
  | [], _ => true
  | _ :: _, [] => false
  | x :: a', y :: b' => (x <? y)%N || ((x =? y)%N && str_le a' b')
  end.

Fixpoint insert_key (k : pystr) (l : list pystr) : list pystr :=
  match l with
  | [] => [k]
  | x :: r =>
      if bool_decide (k = x) then l
      else if str_le k x then k :: l
      else x :: insert_key k r
  end.

(** The keys of [DataFrame.groupby(col)]: the distinct values, sorted. *)
Definition group_keys (l : list pystr) : list pystr :=
  foldr insert_key [] l.

Section Defs.
Context {U : UnicodeData}.

Definition norm_missing (x : cell) : option pystr :=
  match x with
  | None => None
  | Some x =>
      let s := strip x in
      if in_set (py_lower s) MISSING_TOKENS then None else Some s
  end.

Definition norm_key (s : option pystr) : pystr :=
  let s := or_empty s in
  let s := py_lower (strip s) in
  let s := strip_marks s in
  strip (sub_ws false s).

Definition title_pl (s : option pystr) : pystr :=
  match strip (or_empty s) with
  | [] => []
  | c :: r => upper_char c ++ r
  end.

(** *** Land-register number to court code *)

(** [[A-Z]] under [re.I]: the ASCII letters and the four code points
    whose case folding is an ASCII letter. *)
Definition AZ_ignorecase (c : N) : bool :=
  (((0x41 <=? c) && (c <=? 0x5A)) || ((0x61 <=? c) && (c <=? 0x7A))
   || (c =? 0x130) || (c =? 0x131) || (c =? 0x17F) || (c =? 0x212A))%N.

(** [\s*] followed by the rest [k] of a pattern: greedy, giving white
    space back when the rest does not match. *)
Fixpoint ws_star {A} (k : pystr -> option A) (s : pystr) : option A :=
  match s with
  | c :: r =>
      if isspace c then
        match ws_star k r with Some x => Some x | None => k s end
      else k s
  | [] => k []
  end.

(** [KW_COURT_RE.match(s)], giving [group(1)] *)
Definition KW_COURT_RE (s : pystr) : option pystr :=
  ws_star (fun s1 =>
    match s1 with
    | a :: b :: d :: e :: s2 =>
        if AZ_ignorecase a && AZ_ignorecase b && isdecimal d && AZ_ignorecase e then
          ws_star (fun s3 =>
            match s3 with
            | c :: _ => if (c =? 0x2F)%N then Some [a; b; d; e] else None
            | [] => None
            end) s2
        else None
    | _ => None
    end) s.

Definition extract_court_code (nr_kw : option pystr) : option pystr :=
  if truthy nr_kw then KW_COURT_RE (py_upper (strip (or_empty nr_kw)))
  else None.

(** *** Address hint to locality *)

(** the class of [SPLIT_RE], [[|,;]+] *)
Definition SPLIT_RE (c : N) : bool :=
  ((c =? 0x7C) || (c =? 0x2C) || (c =? 0x3B))%N.

Definition build_hint_text (row : raport_row) : pystr :=
  join (u8 " | ")
    (flat_map (fun c =>
       match row !! c with
       | Some x =>
           match norm_missing x with
           | Some v => if nonempty v then [v] else []
           | None => []
           end
       | None => []
       end) HINT_COLS).

Definition PREFIXES : list pystr :=
  [ u8 "ul"; u8 "ulica"; u8 "al"; u8 "aleja"; u8 "os"; u8 "osiedle"; u8 "pl"; u8 "plac" ].

(** [\s+] at the end of a pattern: the rest of the string after the run *)
Definition ws_plus (s : pystr) : option pystr :=
  match s with
  | c :: r => if isspace c then Some (lstrip r) else None
  | [] => None
  end.

(** [\.?\s+] *)
Definition dot_ws (s : pystr) : option pystr :=
  match s with
  | c :: r =>
      if (c =? 0x2E)%N then
        match ws_plus r with Some t => Some t | None => ws_plus s end
      else ws_plus s
  | [] => None
  end.

(** [re.sub(r"^(ul|ulica|al|aleja|os|osiedle|pl|plac)\.?\s+", '', seg)] *)
Definition cut_prefix (seg : pystr) : pystr :=
  default seg
    (first_return (fun p => strip_prefix p seg ≫= dot_ws) PREFIXES).

Definition segment_key (seg : pystr) : pystr :=
  strip (cut_prefix (strip seg)).

Definition ngram (words : list pystr) (n i : nat) : pystr :=
  strip (join [0x20%N] (take n (drop i words))).

(** [segs]: the keys of the non-empty segments of the hint *)
Definition hint_segs (hint : pystr) : list pystr :=
  List.map (fun s => norm_key (Some s))
    (List.filter (fun s => nonempty (norm_key (Some s))) (re_split SPLIT_RE hint)).

(** [words]: the words of the key of the whole hint *)
Definition hint_words (h : pystr) : list pystr :=
  List.filter nonempty (re_split isspace h).

(** [if k in miejsc_keys_set: return miejsc_key_to_canon[k]] *)
Definition return_if_known
    (miejsc_keys_set : gset pystr) (miejsc_key_to_canon : gmap pystr pystr) (k : pystr)
  : option (exc pystr) :=
  if in_set k miejsc_keys_set then Some (getitem miejsc_key_to_canon k) else None.

(** The first loop: segments, from the last one. *)
Definition segment_stage
    (hint : pystr) (miejsc_keys_set : gset pystr) (miejsc_key_to_canon : gmap pystr pystr)
  : option (exc pystr) :=
  first_return
    (fun seg => return_if_known miejsc_keys_set miejsc_key_to_canon (segment_key seg))
    (rev (hint_segs hint)).

(** The second loop: word n-grams, longer first. *)
Definition ngram_stage
    (words : list pystr) (miejsc_keys_set : gset pystr)
    (miejsc_key_to_canon : gmap pystr pystr)
  : option (exc pystr) :=
  first_return (fun n =>
    if (length words <? n)%nat then None
    else
      first_return
        (fun i => return_if_known miejsc_keys_set miejsc_key_to_canon (ngram words n i))
        (seq 0 (length words - n + 1)))
    [4; 3; 2; 1]%nat.

Definition guess_miejscowosc_from_hint
    (hint : pystr) (miejsc_keys_set : gset pystr)
    (miejsc_key_to_canon : gmap pystr pystr) : exc (option pystr) :=
  let h := norm_key (Some hint) in
  if negb (nonempty h) then Ok None
  else
    match segment_stage hint miejsc_keys_set miejsc_key_to_canon with
    | Some r => Some <$> r
    | None =>
        match ngram_stage (hint_words h) miejsc_keys_set miejsc_key_to_canon with
        | Some r => Some <$> r
        | None => Ok None
        end
    end.

(** *** Indexes over TERYT and the court districts *)

Definition teryt_step
    (acc : gmap pystr pystr * gmap pystr (list (pystr * pystr * pystr)))
    (r : teryt_row) :=
  let miejsc := strip (or_empty (Miejscowosc r)) in
  let woj := strip (or_empty (Wojewodztwo r)) in
  let powiat := strip (or_empty (Powiat r)) in
  let gmina := strip (or_empty (Gmina r)) in
  if negb (nonempty miejsc) then acc
  else
    let k := norm_key (Some miejsc) in
    if negb (nonempty k) then acc
    else (setdefault acc.1 k miejsc,
          <[k := default [] (acc.2 !! k) ++ [(woj, powiat, gmina)]]> acc.2).

Definition build_teryt_index (teryt : list teryt_row) : teryt_index :=
  let acc := foldl teryt_step (∅, ∅) teryt in
  {| miejsc_keys_set := dom acc.1;
     miejsc_key_to_canon := acc.1;
     miejsc_to_rows := acc.2 |}.

(** the rows of one group of [obs.groupby("Oznaczenie sądu")] *)
Definition group_of (obs : list obszar_row) (code : pystr) : list obszar_row :=
  List.filter (fun r => bool_decide (notna (Oznaczenie_sadu r) = Some code)) obs.

Definition not_nan (w : pystr) : bool :=
  nonempty w && negb (bool_decide (py_lower w = u8 "nan")).

Definition woj_vals_of (g : list obszar_row) : list pystr :=
  List.filter not_nan
    (List.map strip (unique (omap (fun r => notna (obs_Wojewodztwo r)) g))).

Definition court_map_step (m_map : court_map) (r : obszar_row) : court_map :=
  let miejsc := strip (str_or_empty (obs_Miejscowosc r)) in
  if negb (not_nan miejsc) then m_map
  else
    let k := norm_key (Some miejsc) in
    let woj := strip (str_or_empty (obs_Wojewodztwo r)) in
    let powiat := strip (str_or_empty (obs_Powiat r)) in
    let gmina := strip (str_or_empty (obs_Gmina r)) in
    setdefault m_map k (woj, powiat, gmina, miejsc).

Definition obszar_step (obs : list obszar_row) (acc : obszar_index) (code : pystr)
  : obszar_index :=
  let g := group_of obs code in
  let code := py_upper (strip code) in
  let woj_vals := woj_vals_of g in
  let court_to_woj :=
    match woj_vals with
    | w :: _ =>
        if bool_decide (size (list_to_set woj_vals : gset pystr) = 1)
        then <[code := w]> (court_to_woj acc)
        else court_to_woj acc
    | [] => court_to_woj acc
    end in
  let m_map := foldl court_map_step ∅ g in
  {| court_to_woj := court_to_woj;
     court_to_miejsc := <[code := m_map]> (court_to_miejsc acc) |}.

(** Without the column ["Oznaczenie sądu"] every code is [Absent], there
    is no group, and both dictionaries stay empty, which is what the early
    [return] of the source gives. *)
Definition build_obszar_index (obs : list obszar_row) : obszar_index :=
  foldl (obszar_step obs)
    {| court_to_woj := ∅; court_to_miejsc := ∅ |}
    (group_keys (omap (fun r => notna (Oznaczenie_sadu r)) obs)).

(** *** Completion of a report row *)

Definition fill_from_teryt
    (miejsc_key : pystr) (wanted_woj : option pystr)
    (miejsc_to_rows : gmap pystr (list (pystr * pystr * pystr)))
  : option pystr * option pystr * option pystr :=
  let rows := default [] (miejsc_to_rows !! miejsc_key) in
  match rows with
  | [] => (None, None, None)
  | _ =>
      let rows :=
        if truthy wanted_woj then
          let w := norm_key wanted_woj in
          match List.filter (fun r => bool_decide (norm_key (Some r.1.1) = w)) rows with
          | [] => rows
          | filtered => filtered
          end
        else rows in
      match rows with
      | (woj, powiat, gmina) :: _ => (or_none woj, or_none powiat, or_none gmina)
      | [] => (None, None, None)
      end
  end.

(** [row.get(col)] *)
Definition row_get (row : raport_row) (col : pystr) : cell :=
  default None (row !! col).

(** The local variables of the loop body of [main] and the row [i] of
    [df] that [df.at[i, col] = ...] writes. *)
Record locals := {
  woj : option pystr;
  powiat : option pystr;
  gmina : option pystr;
  miejsc : option pystr;
  df : raport_row
}.

(** [court_code and court_code in d], giving [d[court_code]] *)
Definition court_entry {V} (court_code : option pystr) (d : gmap pystr V) : option V :=
  match court_code with
  | Some c => if nonempty c then d !! c else None
  | None => None
  end.

(** [if not cur and new: df.at[i, col] = title_pl(new); cur = new] *)
Definition fill_cell (col : pystr) (cur new : option pystr) (d : raport_row)
  : option pystr * raport_row :=
  if negb (truthy cur) && truthy new
  then (new, <[col := Some (title_pl new)]> d)
  else (cur, d).

Definition fill_woj (new : option pystr) (st : locals) : locals :=
  let r := fill_cell COL_WOJ (woj st) new (df st) in
  {| woj := r.1; powiat := powiat st; gmina := gmina st; miejsc := miejsc st; df := r.2 |}.

Definition fill_pow (new : option pystr) (st : locals) : locals :=
  let r := fill_cell COL_POW (powiat st) new (df st) in
  {| woj := woj st; powiat := r.1; gmina := gmina st; miejsc := miejsc st; df := r.2 |}.

Definition fill_gmi (new : option pystr) (st : locals) : locals :=
  let r := fill_cell COL_GMI (gmina st) new (df st) in
  {| woj := woj st; powiat := powiat st; gmina := r.1; miejsc := miejsc st; df := r.2 |}.

(** [miejsc = guess; df.at[i, COL_MIA] = title_pl(miejsc)] *)
Definition set_miejsc (guess : option pystr) (st : locals) : locals :=
  {| woj := woj st; powiat := powiat st; gmina := gmina st; miejsc := guess;
     df := <[COL_MIA := Some (title_pl guess)]> (df st) |}.

(** Region from the court, when the court has one region only. *)
Definition woj_from_court (ox : obszar_index) (court_code : option pystr) (st : locals)
  : locals :=
  if negb (truthy (woj st)) then
    match court_entry court_code (court_to_woj ox) with
    | Some w =>
        {| woj := Some w; powiat := powiat st; gmina := gmina st; miejsc := miejsc st;
           df := <[COL_WOJ := Some (title_pl (Some w))]> (df st) |}
    | None => st
    end
  else st.

(** Locality from the hint, with all of TERYT as candidates. *)
Definition miejsc_from_teryt (tx : teryt_index) (hint : pystr) (st : locals)
  : exc locals :=
  if negb (truthy (miejsc st)) then
    guess ← guess_miejscowosc_from_hint hint (miejsc_keys_set tx) (miejsc_key_to_canon tx);
    if truthy guess then Ok (set_miejsc guess st) else Ok st
  else Ok st.

(** Locality from the hint, with the localities of the court as
    candidates; the court's record then gives region, county and
    municipality. *)
Definition miejsc_from_court
    (ox : obszar_index) (court_code : option pystr) (hint : pystr) (st : locals)
  : exc locals :=
  if negb (truthy (miejsc st)) then
    match court_entry court_code (court_to_miejsc ox) with
    | Some m_map =>
        let local_keys_set : gset pystr := dom m_map in
        let local_key_to_canon : gmap pystr pystr := (fun v => v.2) <$> m_map in
        guess_local ← guess_miejscowosc_from_hint hint local_keys_set local_key_to_canon;
        if truthy guess_local then
          let st := set_miejsc guess_local st in
          let k := norm_key (miejsc st) in
          let '(woj_o, pow_o, gmi_o, _) := default ([], [], [], []) (m_map !! k) in
          Ok (fill_gmi (Some gmi_o) (fill_pow (Some pow_o) (fill_woj (Some woj_o) st)))
        else Ok st
    | None => Ok st
    end
  else Ok st.

(** Region, county and municipality of the locality, from TERYT. *)
Definition admin_from_teryt (tx : teryt_index) (st : locals) : locals :=
  if truthy (miejsc st) then
    let mk := norm_key (miejsc st) in
    let '(woj_from_teryt, pow_from_teryt, gmi_from_teryt) :=
      fill_from_teryt mk (woj st) (miejsc_to_rows tx) in
    fill_gmi gmi_from_teryt (fill_pow pow_from_teryt (fill_woj woj_from_teryt st))
  else st.

(** The body of the loop of [main] over the rows of the report, without
    the counters it prints: the row of [df] after the iteration. *)
Definition fill_row (tx : teryt_index) (ox : obszar_index) (row : raport_row)
  : exc raport_row :=
  let st :=
    {| woj := norm_missing (row_get row COL_WOJ);
       powiat := norm_missing (row_get row COL_POW);
       gmina := norm_missing (row_get row COL_GMI);
       miejsc := norm_missing (row_get row COL_MIA);
       df := row |} in
  let court_code :=
    match row !! COL_KW with
    | Some x => extract_court_code x
    | None => None
    end in
  let st := woj_from_court ox court_code st in
  let hint := build_hint_text row in
  st ← miejsc_from_teryt tx hint st;
  st ← miejsc_from_court ox court_code hint st;
  Ok (df (admin_from_teryt tx st)).

(** What [main] does to the columns before the loop: the four target
    columns exist and hold [norm_missing] of their cells, and ["Nr KW"],
    when present, holds stripped strings. *)
Definition prepare_row (row : raport_row) : raport_row :=
  let row :=
    foldl (fun r c => <[c := norm_missing (row_get r c)]> r) row
      [COL_WOJ; COL_POW; COL_GMI; COL_MIA] in
  match row !! COL_KW with
  | Some x => <[COL_KW := Some (match x with Some s => strip s | None => [] end)]> row
  | None => row
  end.

Definition main_row (teryt : list teryt_row) (obs : list obszar_row) (row : raport_row)
  : exc raport_row :=
  fill_row (build_teryt_index teryt) (build_obszar_index obs) (prepare_row row).
End Defs.
End Etap2.

(** * Vocabulary of the statements *)

(** What the proofs need from a character database.  All four hold of
    Unicode: U+0020 is white space, a starter and its own decomposition, and
    NFKD leaves nothing that decomposes further. *)
Class UnicodeLaws (U : UnicodeData) : Prop := {
  space_isspace : isspace 0x20%N = true;
  space_starter : combining 0x20%N = 0%N;
  space_decomp : decomp 0x20%N = [0x20%N];
  decomp_stable : forall c d, In d (decomp c) -> decomp d = [d]
}.

Section Vocabulary.
Context {U : UnicodeData}.

(** The starters of the decomposition of the lower-cased, stripped text. *)
Definition key_letters (s : pystr) : pystr :=
  List.filter (fun d => (combining d =? 0)%N) (flat_map decomp (py_lower (strip s))).

(** What [replace_historical_voivodeship] returns for a value that is not
    empty once stripped, from [lower()] and [upper()] of the stripped value:
    the function reads the value through these two only. *)
Definition replace_by_case (low up : pystr) : option pystr :=
  if in_set low Etap1.MISSING_TOKENS then None
  else
    match or_none (strip (sub_ws false
             (List.map (fun c => if Etap1.not_az_ws c then 0x20%N else c)
                (strip_marks low)))) with
    | None => None
    | Some key =>
        match Etap1.HISTORICAL_VOIVODESHIP_MAP !! key with
        | Some modern => Some modern
        | None =>
            match Etap1.HISTORICAL_VOIVODESHIP_MAP
                  !! strip (remove_all (u8 "wojewodztwo ") key) with
            | Some modern => Some modern
            | None => Some up
            end
        end
    end.

(** The code points below U+0180. *)
Definition latin_code_points : list N := N.of_nat <$> seq 0 384.

(** How a text of code points below U+0180 whose [upper()] is [up] can
    begin: [lower()] of a first character, with what its [upper()] leaves of
    [up]. *)
Definition lower_choices (up : pystr) : list (pystr * pystr) :=
  remove_dups
    (omap (fun c =>
             match upper_char c with
             | [] => None
             | u => (fun rest => (lower_char c, rest)) <$> strip_prefix u up
             end) latin_code_points).

(** [lower()] of every text of code points below U+0180 whose [upper()] is
    [up]; [fuel] bounds the length of [up]. *)
Fixpoint lower_variants (fuel : nat) (up : pystr) : list pystr :=
  match fuel with
  | O => match up with [] => [[]] | _ => [] end
  | S fuel =>
      match up with
      | [] => [[]]
      | _ =>
          flat_map (fun lr => List.map (app lr.1) (lower_variants fuel lr.2))
            (lower_choices up)
      end
  end.

(** A character leaves something in a key: its lower case decomposes into a
    starter that is not white space. *)
Definition shows (x : N) : bool :=
  existsb (fun d => (combining d =? 0)%N && negb (isspace d))
    (flat_map decomp (lower_char x)).

(** The locality of a row as the index reads it, its administrative units,
    and its key, if it has one. *)
Definition locality (r : Etap2.teryt_row) : pystr :=
  strip (or_empty (Etap2.Miejscowosc r)).

Definition admin_units (r : Etap2.teryt_row) : pystr * pystr * pystr :=
  (strip (or_empty (Etap2.Wojewodztwo r)), strip (or_empty (Etap2.Powiat r)),
   strip (or_empty (Etap2.Gmina r))).

Definition row_key (r : Etap2.teryt_row) : option pystr :=
  if nonempty (locality r) then or_none (Etap2.norm_key (Some (locality r))) else None.

(** the rows of the table that produce the key [k], in the order of the table *)
Definition rows_of_key (k : pystr) (teryt : list Etap2.teryt_row) : list Etap2.teryt_row :=
  List.filter (fun r => bool_decide (row_key r = Some k)) teryt.

(** [st'] comes from [st] by filling only: the columns other than the four
    target columns are as they were, and a target whose variable holds a value
    keeps the variable and the cell. *)
Definition extends (st st' : Etap2.locals) : Prop :=
  (forall c, c <> Etap2.COL_WOJ -> c <> Etap2.COL_POW -> c <> Etap2.COL_GMI ->
             c <> Etap2.COL_MIA -> Etap2.df st' !! c = Etap2.df st !! c)
  /\ (truthy (Etap2.woj st) = true ->
      Etap2.woj st' = Etap2.woj st
      /\ Etap2.df st' !! Etap2.COL_WOJ = Etap2.df st !! Etap2.COL_WOJ)
  /\ (truthy (Etap2.powiat st) = true ->
      Etap2.powiat st' = Etap2.powiat st
      /\ Etap2.df st' !! Etap2.COL_POW = Etap2.df st !! Etap2.COL_POW)
  /\ (truthy (Etap2.gmina st) = true ->
      Etap2.gmina st' = Etap2.gmina st
      /\ Etap2.df st' !! Etap2.COL_GMI = Etap2.df st !! Etap2.COL_GMI)
  /\ (truthy (Etap2.miejsc st) = true ->
      Etap2.miejsc st' = Etap2.miejsc st
      /\ Etap2.df st' !! Etap2.COL_MIA = Etap2.df st !! Etap2.COL_MIA).

(** The index is as [build_teryt_index] makes it: the key set is the set of
    keys of the dictionary of spellings. *)
Definition wf_teryt_index (tx : Etap2.teryt_index) : Prop :=
  Etap2.miejsc_keys_set tx = dom (Etap2.miejsc_key_to_canon tx).

(** What the court step does when the court has a dictionary [m_map]. *)
Definition court_fill (m_map : Etap2.court_map) (g : option pystr) (st : Etap2.locals)
  : Etap2.locals :=
  let st := Etap2.set_miejsc g st in
  let e := default ([], [], [], []) (m_map !! Etap2.norm_key (Etap2.miejsc st)) in
  Etap2.fill_gmi (Some e.1.2) (Etap2.fill_pow (Some e.1.1.2) (Etap2.fill_woj (Some e.1.1.1) st)).

(** The variables at the top of the loop body, and the court code of the row. *)
Definition start (row : Etap2.raport_row) : Etap2.locals :=
  {| Etap2.woj := Etap2.norm_missing (Etap2.row_get row Etap2.COL_WOJ);
     Etap2.powiat := Etap2.norm_missing (Etap2.row_get row Etap2.COL_POW);
     Etap2.gmina := Etap2.norm_missing (Etap2.row_get row Etap2.COL_GMI);
     Etap2.miejsc := Etap2.norm_missing (Etap2.row_get row Etap2.COL_MIA);
     Etap2.df := row |}.

Definition court_code_of (row : Etap2.raport_row) : option pystr :=
  match row !! Etap2.COL_KW with
  | Some x => Etap2.extract_court_code x
  | None => None
  end.

Definition target_cols : list pystr :=
  [Etap2.COL_WOJ; Etap2.COL_POW; Etap2.COL_GMI; Etap2.COL_MIA].

(** The cell of a column holds a value: [norm_missing] does not give [None]. *)
Definition present (row : Etap2.raport_row) (col : pystr) : Prop :=
  Etap2.norm_missing (Etap2.row_get row col) <> None.

(** The two tries in the other order: the localities of the court first, all
    of TERYT after. *)
Definition guess_court_first
    (tx : Etap2.teryt_index) (ox : Etap2.obszar_index)
    (court_code : option pystr) (hint : pystr) : exc (option pystr) :=
  let teryt_guess :=
    Etap2.guess_miejscowosc_from_hint hint
      (Etap2.miejsc_keys_set tx) (Etap2.miejsc_key_to_canon tx) in
  match Etap2.court_entry court_code (Etap2.court_to_miejsc ox) with
  | Some m_map =>
      g ← Etap2.guess_miejscowosc_from_hint hint (dom m_map) ((fun v => v.2) <$> m_map);
      if truthy g then Ok g else teryt_guess
  | None => teryt_guess
  end.

(** The regions of a court: the distinct non-empty regions of the rows whose
    code, stripped and upper-cased, is the code of the court. *)
Definition regions_of_court
    (obs : list Etap2.obszar_row) (code : pystr) : list pystr :=
  remove_dups
    (List.filter Etap2.not_nan
       (omap (fun r =>
                match Etap2.notna (Etap2.Oznaczenie_sadu r) with
                | Some raw =>
                    if bool_decide (py_upper (strip raw) = code)
                    then strip <$> Etap2.notna (Etap2.obs_Wojewodztwo r)
                    else None
                | None => None
                end) obs)).

(** What one group decides about the region of its court. *)
Definition region_of_group (obs : list Etap2.obszar_row) (code : pystr) : option pystr :=
  match Etap2.woj_vals_of (Etap2.group_of obs code) with
  | w :: _ =>
      if bool_decide
           (size (list_to_set (Etap2.woj_vals_of (Etap2.group_of obs code)) : gset pystr) = 1)
      then Some w else None
  | [] => None
  end.

(** Every code of the sheet is already stripped and in upper case. *)
Definition codes_canonical (obs : list Etap2.obszar_row) : Prop :=
  forall r raw, In r obs -> Etap2.notna (Etap2.Oznaczenie_sadu r) = Some raw ->
                py_upper (strip raw) = raw.

(** [l] is not empty and holds nothing but [w]. *)
Definition only (w : pystr) (l : list pystr) : Prop :=
  l <> [] /\ forall x, In x l -> x = w.

(** The keys that [guess_miejscowosc_from_hint] looks up for a hint: the
    keys of its segments, without their street prefix, and the n-grams, n
    from 1 to 4, of the words of its key. *)
Definition candidate (hint k : pystr) : Prop :=
  In k (Etap2.segment_key <$> Etap2.hint_segs hint)
  \/ exists n i : nat,
       (1 <= n <= 4)%nat
       /\ (i + n <= length (Etap2.hint_words (Etap2.norm_key (Some hint))))%nat
       /\ k = Etap2.ngram (Etap2.hint_words (Etap2.norm_key (Some hint))) n i.

(** The row [fill_from_teryt] reads: the first one of the wanted region,
    when a region is wanted and a row has it, the first one otherwise. *)
Definition chosen_row
    (wanted_woj : option pystr) (rows : list (pystr * pystr * pystr))
  : option (pystr * pystr * pystr) :=
  if truthy wanted_woj then
    match List.find (fun r => bool_decide (Etap2.norm_key (Some r.1.1)
                                           = Etap2.norm_key wanted_woj)) rows with
    | Some r => Some r
    | None => head rows
    end
  else head rows.

(** The court sheet as the index reads it: the codes of its rows as they
    are written, the locality of a row, the record kept for it, and the rows
    of a group that produce the key [k], in the order of the sheet. *)
Definition court_codes (obs : list Etap2.obszar_row) : list pystr :=
  omap (fun r => Etap2.notna (Etap2.Oznaczenie_sadu r)) obs.

Definition court_locality (r : Etap2.obszar_row) : pystr :=
  strip (Etap2.str_or_empty (Etap2.obs_Miejscowosc r)).

Definition court_record (r : Etap2.obszar_row) : pystr * pystr * pystr * pystr :=
  (strip (Etap2.str_or_empty (Etap2.obs_Wojewodztwo r)),
   strip (Etap2.str_or_empty (Etap2.obs_Powiat r)),
   strip (Etap2.str_or_empty (Etap2.obs_Gmina r)),
   court_locality r).

Definition court_rows_of_key (k : pystr) (g : list Etap2.obszar_row)
  : list Etap2.obszar_row :=
  List.filter (fun r => Etap2.not_nan (court_locality r)
                        && bool_decide (Etap2.norm_key (Some (court_locality r)) = k)) g.

(** Every entry of a court index comes from one group of rows of the sheet:
    the localities of a code are those of a group whose code, stripped and
    upper-cased, is that code; so is the region, and a code with a region has
    localities. *)
Definition court_index_ok (obs : list Etap2.obszar_row) (ix : Etap2.obszar_index) : Prop :=
  (forall c m, Etap2.court_to_miejsc ix !! c = Some m ->
     exists raw, In raw (court_codes obs) /\ py_upper (strip raw) = c
                 /\ m = foldl Etap2.court_map_step ∅ (Etap2.group_of obs raw))
  /\ (forall c w, Etap2.court_to_woj ix !! c = Some w ->
        is_Some (Etap2.court_to_miejsc ix !! c)
        /\ exists raw, In raw (court_codes obs) /\ py_upper (strip raw) = c
                       /\ region_of_group obs raw = Some w).

(** No column of [d] is missing in [d']. *)
Definition keeps_columns (d d' : Etap2.raport_row) : Prop :=
  forall c, is_Some (d !! c) -> is_Some (d' !! c).

(** What [main] leaves in a cell of ["Nr KW"] before the loop. *)
Definition kw_text (x : Etap2.cell) : Etap2.cell :=
  Some (match x with Some s => strip s | None => [] end).

(** The parts that [build_hint_text] joins: the values of the hint columns
    that hold one, in the order of [HINT_COLS]. *)
Definition hint_parts (row : Etap2.raport_row) : list pystr :=
  flat_map (fun c =>
     match row !! c with
     | Some x =>
         match Etap2.norm_missing x with
         | Some v => if nonempty v then [v] else []
         | None => []
         end
     | None => []
     end) Etap2.HINT_COLS.
End Vocabulary.

(** The 16 voivodeships of today, as the values of the map spell them. *)
Definition modern_names : list pystr :=
  [ u8 "DOLNOŚLĄSKIE"; u8 "KUJAWSKO-POMORSKIE"; u8 "LUBELSKIE"; u8 "LUBUSKIE"; u8 "ŁÓDZKIE";
    u8 "MAŁOPOLSKIE"; u8 "MAZOWIECKIE"; u8 "OPOLSKIE"; u8 "PODKARPACKIE"; u8 "PODLASKIE";
    u8 "POMORSKIE"; u8 "ŚLĄSKIE"; u8 "ŚWIĘTOKRZYSKIE"; u8 "WARMIŃSKO-MAZURSKIE";
    u8 "WIELKOPOLSKIE"; u8 "ZACHODNIOPOMORSKIE" ].

(** Code points below U+0180: Basic Latin, Latin-1 Supplement, Latin
    Extended-A. *)
Definition latin_text (s : pystr) : Prop := Forall (fun c => (c < 0x180)%N) s.

(** The letters A-Z and a-z, and the digits 0-9. *)
Definition ascii_letter (c : N) : bool :=
  (((0x41 <=? c) && (c <=? 0x5A)) || ((0x61 <=? c) && (c <=? 0x7A)))%N.

Definition ascii_digit (c : N) : bool := ((0x30 <=? c) && (c <=? 0x39))%N.

Definition teryt_row_of (w p g m : string) : Etap2.teryt_row :=
  {| Etap2.Wojewodztwo := Some (u8 w); Etap2.Powiat := Some (u8 p);
     Etap2.Gmina := Some (u8 g); Etap2.Miejscowosc := Some (u8 m) |}.
Arguments teryt_row_of (w p g m)%_string.

Definition obszar_row_of (code w p g m : string) : Etap2.obszar_row :=
  {| Etap2.Oznaczenie_sadu := Etap2.Text (u8 code);
     Etap2.obs_Wojewodztwo := Etap2.Text (u8 w);
     Etap2.obs_Powiat := Etap2.Text (u8 p);
     Etap2.obs_Gmina := Etap2.Text (u8 g);
     Etap2.obs_Miejscowosc := Etap2.Text (u8 m) |}.
Arguments obszar_row_of (code w p g m)%_string.

Definition sample_teryt : list Etap2.teryt_row :=
  [ teryt_row_of "MAZOWIECKIE" "Warszawa" "Warszawa" "Warszawa" ].

Definition sample_obszar : list Etap2.obszar_row :=
  [ obszar_row_of "WR1K" "DOLNOŚLĄSKIE" "wrocławski" "Kobierzyce" "Lipa" ].

Definition sample_row : Etap2.raport_row :=
  {[ Etap2.COL_KW := Some (u8 "WR1K/00012345/6");
     u8 "Położenie" := Some (u8 "Lipa, Warszawa");
     Etap2.COL_WOJ := Some (u8 "---") ]}.

(** * Properties *)

(** ** The embedding on examples *)

Example plockie_test :
  Etap1.replace_historical_voivodeship (Some (u8 "płockie")) = Some (u8 "PŁOCKIE")
  /\ Etap1.replace_historical_voivodeship (Some (u8 "Plockie")) = Some (u8 "MAZOWIECKIE")
  /\ Etap1.replace_historical_voivodeship (Some (u8 "województwo radomskie")) = Some (u8 "MAZOWIECKIE")
  /\ Etap1.replace_historical_voivodeship (Some (u8 " Brak Danych ")) = None
  /\ Etap1.norm_key (Some (u8 "PŁOCKIE")) = Some (u8 "p ockie")
  /\ size Etap1.HISTORICAL_VOIVODESHIP_MAP = 147.
Proof. vm_compute. repeat split; reflexivity. Qed.

Example guess_test :
  let keys : gset pystr := {[ u8 "warszawa"; u8 "sacz"; u8 "nowy sacz" ]} in
  let canon : gmap pystr pystr :=
    {[ u8 "warszawa" := u8 "Warszawa"; u8 "sacz" := u8 "Sącz"; u8 "nowy sacz" := u8 "Nowy Sącz" ]} in
  Etap2.guess_miejscowosc_from_hint (u8 "Warszawa | ul. Kwiatowa 5") keys canon = Ok (Some (u8 "Warszawa"))
  /\ Etap2.guess_miejscowosc_from_hint (u8 "ul. Kwiatowa 5 | Warszawa") keys canon = Ok (Some (u8 "Warszawa"))
  /\ Etap2.guess_miejscowosc_from_hint (u8 "ul. Długa, Nowy Sącz") keys canon = Ok (Some (u8 "Nowy Sącz"))
  /\ Etap2.guess_miejscowosc_from_hint (u8 "Mieszkanie w Nowy Sącz przy rynku") keys canon = Ok (Some (u8 "Nowy Sącz"))
  /\ Etap2.extract_court_code (Some (u8 "WR1K/00012345/6")) = Some (u8 "WR1K")
  /\ Etap2.extract_court_code (Some (u8 " wr1k /00012345/6")) = Some (u8 "WR1K")
  /\ Etap2.title_pl (Some (u8 "DOLNOŚLĄSKIE")) = u8 "DOLNOŚLĄSKIE"
  /\ Etap2.norm_key (Some (u8 "™")) = u8 "TM"
  /\ Etap2.segment_key (u8 "ul. kwiatowa 5") = u8 "kwiatowa 5"
  /\ Etap2.segment_key (u8 "ulica  kwiatowa 5") = u8 "kwiatowa 5"
  /\ Etap2.segment_key (u8 "ulkwiatowa 5") = u8 "ulkwiatowa 5".
Proof. vm_compute. repeat split; reflexivity. Qed.

(** ** Stripping, canonical ordering, white space *)

Section StrFacts.
Context {U : UnicodeData}.

Lemma lstrip_idem s : lstrip (lstrip s) = lstrip s.
Proof.
  induction s as [|c r IH]; simpl; [done|].
  destruct (isspace c) eqn:E; [done|]. simpl. by rewrite E.
Qed.

Lemma rstrip_cons_visible c r : isspace c = false -> rstrip (c :: r) = c :: rstrip r.
Proof. intros E. simpl. rewrite E. by destruct (rstrip r). Qed.

Lemma rstrip_all_ws s : Forall (fun c => isspace c = true) s -> rstrip s = [].
Proof.
  induction 1 as [|c r Hc _ IH]; simpl; [done|]. by rewrite IH, Hc.
Qed.

Lemma rstrip_idem s : rstrip (rstrip s) = rstrip s.
Proof.
  induction s as [|c r IH]; simpl; [done|].
  destruct (rstrip r) as [|d r'] eqn:Er.
  - destruct (isspace c) eqn:E; simpl; [done|]. by rewrite E.
  - change (rstrip (c :: d :: r') = c :: d :: r').
    simpl. simpl in IH. destruct (rstrip r') as [|e r''].
    + destruct (isspace d); [done|]. by inversion IH.
    + by inversion IH.
Qed.

Lemma rstrip_nil_all_ws s : rstrip s = [] -> Forall (fun c => isspace c = true) s.
Proof.
  induction s as [|c r IH]; simpl; [constructor|].
  destruct (rstrip r) eqn:Er; [|done].
  destruct (isspace c) eqn:E; [|done]. intros _. constructor; auto.
Qed.

Lemma In_lstrip c s : In c (lstrip s) -> In c s.
Proof.
  induction s as [|d r IH]; simpl; [done|].
  destruct (isspace d); simpl; auto.
Qed.

Lemma In_rstrip c s : In c (rstrip s) -> In c s.
Proof.
  induction s as [|d r IH]; simpl; [done|].
  destruct (rstrip r) as [|e r'].
  - destruct (isspace d); simpl; [done|]. tauto.
  - simpl. simpl in IH. tauto.
Qed.

Lemma In_strip c s : In c (strip s) -> In c s.
Proof. intros H. by apply In_lstrip, In_rstrip. Qed.

Lemma strip_visible s : Forall (fun c => isspace c = false) s -> strip s = s.
Proof.
  unfold strip. intros H.
  assert (lstrip s = s) as ->.
  { destruct H as [|c r Hc _]; simpl; [done|]. by rewrite Hc. }
  induction H as [|c r Hc _ IH]; [done|].
  by rewrite rstrip_cons_visible, IH.
Qed.

(** *** Canonical ordering does not change which starters there are *)

Lemma filter_insert_mark c run :
  combining c <> 0%N ->
  List.filter (fun d => (combining d =? 0)%N) (insert_mark c run)
  = List.filter (fun d => (combining d =? 0)%N) run.
Proof.
  intros Hc. apply N.eqb_neq in Hc.
  induction run as [|d r IH]; simpl; [by rewrite Hc|].
  destruct (negb (combining d =? 0)%N && (combining d <? combining c)%N) eqn:E; simpl.
  - by rewrite IH.
  - by rewrite Hc.
Qed.

Lemma filter_canonical_order s :
  List.filter (fun d => (combining d =? 0)%N) (canonical_order s)
  = List.filter (fun d => (combining d =? 0)%N) s.
Proof.
  induction s as [|c r IH]; simpl; [done|].
  destruct (combining c =? 0)%N eqn:E; simpl.
  - by rewrite E, IH.
  - rewrite filter_insert_mark; [done|]. by apply N.eqb_neq.
Qed.

Lemma strip_marks_eq s :
  strip_marks s = List.filter (fun d => (combining d =? 0)%N) (flat_map decomp s).
Proof. apply filter_canonical_order. Qed.

(** *** Collapsing white space *)

Lemma sub_ws_idem `{!UnicodeLaws U} b s : sub_ws b (sub_ws b s) = sub_ws b s.
Proof.
  revert b. induction s as [|c r IH]; intros b; simpl; [done|].
  destruct (isspace c) eqn:E.
  - destruct b; [apply IH|]. simpl. by rewrite space_isspace, IH.
  - simpl. by rewrite E, IH.
Qed.

Lemma lstrip_sub_ws_true s : lstrip (sub_ws true s) = sub_ws true s.
Proof.
  induction s as [|c r IH]; simpl; [done|].
  destruct (isspace c) eqn:E; [done|]. simpl. by rewrite E.
Qed.

Lemma lstrip_sub_ws `{!UnicodeLaws U} s : lstrip (sub_ws false s) = sub_ws true s.
Proof.
  destruct s as [|c r]; simpl; [done|].
  destruct (isspace c) eqn:E; simpl.
  - rewrite space_isspace. apply lstrip_sub_ws_true.
  - by rewrite E.
Qed.

Lemma sub_ws_nil b s : sub_ws b s = [] -> Forall (fun c => isspace c = true) s.
Proof.
  revert b. induction s as [|c r IH]; intros b; simpl; [constructor|].
  destruct (isspace c) eqn:E; [|done].
  destruct b; [|done]. intros H. constructor; eauto.
Qed.

Lemma sub_ws_true_all_ws s : Forall (fun c => isspace c = true) s -> sub_ws true s = [].
Proof. induction 1 as [|c r Hc _ IH]; simpl; [done|]. by rewrite Hc. Qed.

Lemma rstrip_sub_ws `{!UnicodeLaws U} b s : rstrip (sub_ws b s) = sub_ws b (rstrip s).
Proof.
  revert b. induction s as [|c r IH]; intros b; [done|].
  destruct (isspace c) eqn:E.
  - cbn [sub_ws rstrip]. rewrite E.
    assert (Hne : rstrip r <> [] -> sub_ws true (rstrip r) <> []).
    { intros Hr Hs. apply sub_ws_nil, rstrip_all_ws in Hs. by rewrite rstrip_idem in Hs. }
    destruct b.
    + rewrite IH. destruct (rstrip r) as [|d r']; [done|].
      cbn [sub_ws]. by rewrite E.
    + cbn [rstrip]. rewrite IH. destruct (rstrip r) as [|d r'].
      * cbn. by rewrite space_isspace.
      * assert (sub_ws false (c :: d :: r') = 0x20%N :: sub_ws true (d :: r')) as ->
          by (cbn [sub_ws]; by rewrite E).
        destruct (sub_ws true (d :: r')); [by destruct Hne|done].
  - rewrite rstrip_cons_visible by done. cbn [sub_ws]. rewrite E.
    by rewrite rstrip_cons_visible, IH.
Qed.

(** [re.sub(r"\s+", " ", s).strip()] in one pass *)
Lemma strip_sub_ws `{!UnicodeLaws U} s : strip (sub_ws false s) = sub_ws true (rstrip s).
Proof. unfold strip. by rewrite lstrip_sub_ws, rstrip_sub_ws. Qed.

Lemma In_sub_ws c b s : In c (sub_ws b s) -> c = 0x20%N \/ (In c s /\ isspace c = false).
Proof.
  revert b. induction s as [|d r IH]; intros b; simpl; [done|].
  destruct (isspace d) eqn:E.
  - destruct b; simpl; intros H.
    + destruct (IH _ H) as [?|[? ?]]; auto.
    + destruct H as [<-|H]; [auto|]. destruct (IH _ H) as [?|[? ?]]; auto.
  - simpl. intros [<-|H]; [auto|]. destruct (IH _ H) as [?|[? ?]]; auto.
Qed.
End StrFacts.

(** ** The tables satisfy the laws *)

Lemma latin_map_char_default tbl c : Latin.assoc tbl c = None -> Latin.map_char tbl c = [c].
Proof. unfold Latin.map_char. by intros ->. Qed.

Lemma latin_map_char_In tbl c d :
  In d (Latin.map_char tbl c) ->
  d = c \/ exists e, In e tbl /\ In d e.2.
Proof.
  unfold Latin.map_char, Latin.assoc.
  destruct (List.find _ tbl) as [e|] eqn:F; simpl.
  - apply find_some in F as [Hin _]. eauto.
  - intros [->|[]]. by left.
Qed.

Lemma latin_decomp_stable c d :
  In d (Latin.map_char Latin.nfkd_table c) -> Latin.map_char Latin.nfkd_table d = [d].
Proof.
  intros H.
  assert (forallb (fun e : N * list N =>
            forallb (fun d => bool_decide (Latin.map_char Latin.nfkd_table d = [d])) e.2)
            Latin.nfkd_table = true) as Hall by (vm_compute; reflexivity).
  unfold Latin.map_char in H at 1. unfold Latin.assoc in H.
  destruct (List.find _ Latin.nfkd_table) as [e|] eqn:F; simpl in H.
  - apply find_some in F as [Hin _].
    rewrite forallb_forall in Hall. specialize (Hall _ Hin).
    rewrite forallb_forall in Hall. specialize (Hall _ H).
    by apply bool_decide_eq_true in Hall.
  - destruct H as [->|[]]. apply latin_map_char_default.
    unfold Latin.assoc. by rewrite F.
Qed.

#[export] Instance latin_laws : UnicodeLaws latin_ucd.
Proof.
  split; [reflexivity | reflexivity | reflexivity | exact latin_decomp_stable].
Qed.

(** ** The comparison key of stage 2 *)

Section NormKey.
Context {U : UnicodeData} {L : UnicodeLaws U}.

Lemma norm_key_eq s : Etap2.norm_key (Some s) = sub_ws true (rstrip (key_letters s)).
Proof.
  unfold Etap2.norm_key, key_letters. cbn [or_empty default].
  by rewrite strip_sub_ws, strip_marks_eq.
Qed.

Lemma In_norm_key c s :
  In c (Etap2.norm_key (Some s)) ->
  c = 0x20%N \/ (In c (key_letters s) /\ isspace c = false).
Proof.
  rewrite norm_key_eq. intros H.
  destruct (In_sub_ws _ _ _ H) as [?|[H1 H2]]; [by left|].
  right. split; [by apply In_rstrip|done].
Qed.

Lemma norm_key_letter_fixed c s :
  In c (Etap2.norm_key (Some s)) -> decomp c = [c] /\ combining c = 0%N.
Proof.
  intros H. destruct (In_norm_key _ _ H) as [->|[H1 _]].
  - split; [apply space_decomp|apply space_starter].
  - unfold key_letters in H1. apply filter_In in H1 as [H1 H2].
    apply N.eqb_eq in H2. split; [|done].
    apply in_flat_map in H1 as (x & _ & Hx). by eapply decomp_stable.
Qed.

Lemma strip_norm_key s : strip (Etap2.norm_key (Some s)) = Etap2.norm_key (Some s).
Proof.
  rewrite norm_key_eq. unfold strip.
  by rewrite lstrip_sub_ws_true, rstrip_sub_ws, rstrip_idem.
Qed.

Lemma flat_map_fixed (f : N -> pystr) (t : pystr) :
  (forall c, In c t -> f c = [c]) -> flat_map f t = t.
Proof.
  induction t as [|c r IH]; intros H; simpl; [done|].
  rewrite (H c) by (by left). simpl. f_equal. apply IH. intros d Hd. apply H. by right.
Qed.

Lemma filter_all {A} (p : A -> bool) (t : list A) :
  (forall c, In c t -> p c = true) -> List.filter p t = t.
Proof.
  induction t as [|c r IH]; intros H; simpl; [done|].
  rewrite (H c) by (by left). f_equal. apply IH. intros d Hd. apply H. by right.
Qed.

Lemma key_letters_norm_key s :
  py_lower (Etap2.norm_key (Some s)) = Etap2.norm_key (Some s) ->
  key_letters (Etap2.norm_key (Some s)) = Etap2.norm_key (Some s).
Proof.
  intros Hlow. unfold key_letters. rewrite strip_norm_key, Hlow.
  rewrite flat_map_fixed by (intros c Hc; by apply (norm_key_letter_fixed c s)).
  apply filter_all. intros c Hc. apply N.eqb_eq. by apply (norm_key_letter_fixed c s).
Qed.

Lemma norm_key_fixed_point (s : pystr) :
  py_lower (Etap2.norm_key (Some s)) = Etap2.norm_key (Some s) ->
  Etap2.norm_key (Some (Etap2.norm_key (Some s))) = Etap2.norm_key (Some s).
Proof.
  intros Hlow.
  rewrite (norm_key_eq (Etap2.norm_key (Some s))), key_letters_norm_key by done.
  rewrite norm_key_eq.
  by rewrite rstrip_sub_ws, rstrip_idem, sub_ws_idem.
Qed.

End NormKey.



(** ** Historical voivodeships (stage 1) *)

Example modern_names_are_the_values :
  length Etap1.historical_units = 49
  /\ forallb (fun v => bool_decide (In v (Etap1.historical_units.*2))) modern_names = true
  /\ length modern_names = 16
  /\ forallb (fun v => bool_decide (In v modern_names))
       ((map_to_list Etap1.HISTORICAL_VOIVODESHIP_MAP).*2) = true
  /\ forallb (fun v => bool_decide (py_upper v = v)) modern_names = true.
Proof. vm_compute. repeat split; reflexivity. Qed.

(** C3 (evaluation at the failing input): NFKD does not decompose U+0142, so
    the strict key of "PŁOCKIE" is "p ockie", which is not a key of the map,
    and the value comes back upper-cased; the key "plockie" of the map is
    reached from text without the stroke only. *)
Theorem plockie_is_not_replaced :
  Etap1.norm_key (Some (u8 "PŁOCKIE")) = Some (u8 "p ockie")
  /\ Etap1.replace_historical_voivodeship (Some (u8 "PŁOCKIE")) = Some (u8 "PŁOCKIE")
  /\ Etap1.replace_historical_voivodeship (Some (u8 "płockie")) = Some (u8 "PŁOCKIE")
  /\ Etap1.HISTORICAL_VOIVODESHIP_MAP !! u8 "plockie" = Some (u8 "MAZOWIECKIE")
  /\ Etap1.replace_historical_voivodeship (Some (u8 "PLOCKIE")) = Some (u8 "MAZOWIECKIE").
Proof. vm_compute. repeat split; reflexivity. Qed.

(** ** Loops that return *)

Section Loops.
Context {A R : Type} (body : A -> option R).

Lemma first_return_app l1 l2 :
  first_return body (l1 ++ l2)
  = match first_return body l1 with Some r => Some r | None => first_return body l2 end.
Proof.
  induction l1 as [|x l1 IH]; simpl; [done|]. by destruct (body x).
Qed.

Lemma first_return_none l :
  (forall x, In x l -> body x = None) -> first_return body l = None.
Proof.
  induction l as [|x l IH]; intros H; simpl; [done|].
  rewrite (H x) by (by left). apply IH. intros y Hy. apply H. by right.
Qed.

Lemma first_return_inv l r :
  first_return body l = Some r -> exists x, In x l /\ body x = Some r.
Proof.
  induction l as [|x l IH]; simpl; [done|].
  destruct (body x) eqn:E.
  - intros [= <-]. exists x. auto.
  - intros H. destruct (IH H) as (y & ? & ?). exists y. auto.
Qed.

(** The loop returns at the first index whose iteration returns. *)
Lemma first_return_first l i x r :
  l !! i = Some x -> body x = Some r ->
  (forall j y, (j < i)%nat -> l !! j = Some y -> body y = None) ->
  first_return body l = Some r.
Proof.
  revert i. induction l as [|z l IH]; intros i Hi Hx Hbefore; [done|].
  destruct i as [|i]; simpl in *.
  - inversion Hi; subst. by rewrite Hx.
  - rewrite (Hbefore 0%nat z) by (done || lia).
    apply (IH i); [done..|]. intros j y Hj Hy. apply (Hbefore (S j) y); [lia|done].
Qed.

(** Over the reversed list it returns at the last such index. *)
Lemma first_return_last l i x r :
  l !! i = Some x -> body x = Some r ->
  (forall j y, (i < j)%nat -> l !! j = Some y -> body y = None) ->
  first_return body (rev l) = Some r.
Proof.
  intros Hi Hx Hafter.
  rewrite <- (take_drop_middle l i x Hi), rev_app_distr. cbn [rev].
  rewrite <- app_assoc, first_return_app.
  rewrite first_return_none.
  - cbn. by rewrite Hx.
  - intros y Hy. apply in_rev in Hy. apply list_elem_of_In in Hy.
    apply list_elem_of_lookup in Hy as [j Hj].
    rewrite lookup_drop in Hj. apply (Hafter (S i + j)%nat); [lia|done].
Qed.
End Loops.

(** ** Where stripping and splitting take their characters from *)

Section Infix.
Context {U : UnicodeData}.

Local Abbreviation visible := (fun c : N => isspace c = false).

Lemma lstrip_keeps l1 x l2 :
  Exists visible (l1 ++ [x]) -> exists l1', lstrip (l1 ++ x :: l2) = l1' ++ x :: l2.
Proof.
  induction l1 as [|c r IH]; simpl; intros H.
  - apply Exists_cons in H as [H|H]; [|by apply Exists_nil in H].
    rewrite H. by exists [].
  - destruct (isspace c) eqn:E.
    + apply IH. apply Exists_cons in H as [H|H]; [congruence|done].
    + by exists (c :: r).
Qed.

Lemma rstrip_visible_nonnil z : Exists visible z -> rstrip z <> [].
Proof.
  intros H Hz. apply rstrip_nil_all_ws in Hz.
  apply Exists_exists in H as (c & Hc & E).
  rewrite Forall_forall in Hz. specialize (Hz c Hc). congruence.
Qed.

Lemma rstrip_app_visible w z : Exists visible z -> rstrip (w ++ z) = w ++ rstrip z.
Proof.
  intros H. induction w as [|c w IH]; [done|].
  cbn [app rstrip]. rewrite IH.
  pose proof (rstrip_visible_nonnil z H).
  destruct (w ++ rstrip z) eqn:E; [|done].
  apply app_eq_nil in E as [_ ?]. done.
Qed.

Lemma rstrip_cons_keep x l2 : Exists visible (x :: l2) -> rstrip (x :: l2) = x :: rstrip l2.
Proof.
  intros H. apply Exists_cons in H as [H|H]; [by apply rstrip_cons_visible|].
  simpl. pose proof (rstrip_visible_nonnil l2 H). by destruct (rstrip l2).
Qed.

(** A character with something visible at or before it and at or after it
    survives [strip]. *)
Lemma In_strip_intro l1 x l2 :
  Exists visible (l1 ++ [x]) -> Exists visible (x :: l2) -> In x (strip (l1 ++ x :: l2)).
Proof.
  intros H1 H2. unfold strip.
  destruct (lstrip_keeps l1 x l2 H1) as [l1' ->].
  rewrite rstrip_app_visible by done. rewrite rstrip_cons_keep by done.
  apply in_or_app. right. by left.
Qed.

Lemma lstrip_suffix s : exists a, s = a ++ lstrip s.
Proof.
  induction s as [|c r [a IH]]; simpl; [by exists []|].
  destruct (isspace c).
  - exists (c :: a). simpl. by f_equal.
  - by exists [].
Qed.

Lemma lstrip_head c r s : lstrip s = c :: r -> isspace c = false.
Proof.
  induction s as [|d s IH]; simpl; [done|].
  destruct (isspace d) eqn:E; [done|]. by intros [= <- <-].
Qed.

Lemma rstrip_prefix s : exists b, s = rstrip s ++ b.
Proof.
  induction s as [|c r [b IH]]; simpl; [by exists []|].
  destruct (rstrip r) as [|d r'] eqn:Er.
  - destruct (isspace c).
    + exists (c :: r). done.
    + by exists r.
  - exists b. simpl. f_equal. done.
Qed.

Lemma rstrip_tail_visible z l1 l2 :
  rstrip z = l1 ++ l2 -> l2 <> [] -> Exists visible l2.
Proof.
  revert l1 l2. induction z as [|c r IH]; intros l1 l2; simpl.
  - intros H. symmetry in H. apply app_eq_nil in H as [_ ->]. done.
  - destruct (rstrip r) as [|d r'] eqn:Er.
    + destruct (isspace c) eqn:E.
      * intros H. symmetry in H. apply app_eq_nil in H as [_ ->]. done.
      * destruct l1 as [|? l1]; simpl.
        -- intros <- _. by apply Exists_cons_hd.
        -- intros [= -> H]. symmetry in H. apply app_eq_nil in H as [_ ->]. done.
    + destruct l1 as [|? l1]; simpl.
      * intros <- _. apply Exists_cons_tl. by apply (IH [] (d :: r')).
      * intros [= -> H] Hne. by apply (IH l1 l2).
Qed.

(** And only such characters survive. *)
Lemma In_strip_elim x s :
  In x (strip s) ->
  exists l1 l2, s = l1 ++ x :: l2 /\ Exists visible (l1 ++ [x]) /\ Exists visible (x :: l2).
Proof.
  unfold strip. intros H. apply in_split in H as (m1 & m2 & Hm).
  destruct (lstrip_suffix s) as [a Ha]. destruct (rstrip_prefix (lstrip s)) as [b Hb].
  exists (a ++ m1), (m2 ++ b). split; [|split].
  - rewrite Ha at 1. rewrite Hb at 1. rewrite Hm. by rewrite <- !app_assoc.
  - rewrite Hm in Hb. destruct m1 as [|c m1]; simpl in Hb.
    + apply Exists_app. right. apply Exists_cons_hd. by apply (lstrip_head x (m2 ++ b) s).
    + rewrite <- app_assoc. apply Exists_app. right. apply Exists_cons_hd.
      by apply (lstrip_head c ((m1 ++ x :: m2) ++ b) s).
  - change (x :: m2 ++ b) with ((x :: m2) ++ b). apply Exists_app. left.
    by apply (rstrip_tail_visible (lstrip s) m1 (x :: m2)).
Qed.

Lemma In_strip_infix x p seg q : In x (strip seg) -> In x (strip (p ++ seg ++ q)).
Proof.
  intros H. apply In_strip_elim in H as (l1 & l2 & -> & H1 & H2).
  replace (p ++ (l1 ++ x :: l2) ++ q) with ((p ++ l1) ++ x :: (l2 ++ q))
    by (by rewrite <- !app_assoc).
  apply In_strip_intro.
  - rewrite <- app_assoc. apply Exists_app. by right.
  - change (x :: l2 ++ q) with ((x :: l2) ++ q). apply Exists_app. by left.
Qed.

(** The pieces of [re.split] are pieces of the string. *)
Lemma re_split_go_infix sep cur in_sep s seg :
  (in_sep = true -> cur = []) ->
  In seg (re_split_go sep cur in_sep s) ->
  exists p q, rev cur ++ s = p ++ seg ++ q.
Proof.
  revert cur in_sep. induction s as [|c r IH]; intros cur in_sep Hcur; simpl.
  - intros [<-|[]]. exists [], []. by rewrite !app_nil_r.
  - destruct (sep c).
    + destruct in_sep.
      * rewrite (Hcur eq_refl). simpl. intros H.
        destruct (IH [] true (fun _ => eq_refl) H) as (p & q & E). simpl in E.
        exists (c :: p), q. simpl. by rewrite E.
      * intros [<-|H].
        -- by exists [], (c :: r).
        -- destruct (IH [] true (fun _ => eq_refl) H) as (p & q & E). simpl in E.
           exists (rev cur ++ c :: p), q. rewrite <- app_assoc. simpl. by rewrite E.
    + intros H. destruct (IH (c :: cur) false ltac:(done) H) as (p & q & E).
      exists p, q. rewrite <- E. simpl. by rewrite <- app_assoc.
Qed.

Lemma re_split_infix sep s seg :
  In seg (re_split sep s) -> exists p q, s = p ++ seg ++ q.
Proof. intros H. by apply (re_split_go_infix sep [] false s seg). Qed.
End Infix.

(** ** The locality guessed from a hint *)

Section Guess.
Context {U : UnicodeData} {L : UnicodeLaws U}.

Lemma all_ws_or_visible (y : pystr) :
  Forall (fun c => isspace c = true) y \/ Exists (fun c => isspace c = false) y.
Proof.
  induction y as [|c r [IH|IH]].
  - left. constructor.
  - destruct (isspace c) eqn:E.
    + left. by constructor.
    + right. by apply Exists_cons_hd.
  - right. by apply Exists_cons_tl.
Qed.

Lemma sub_ws_rstrip_nonnil (y : pystr) : rstrip y <> [] -> sub_ws true (rstrip y) <> [].
Proof.
  intros Hr Hs. apply sub_ws_nil, rstrip_all_ws in Hs. by rewrite rstrip_idem in Hs.
Qed.

Lemma norm_key_nonempty s :
  nonempty (Etap2.norm_key (Some s)) = true <-> exists x, In x (strip s) /\ shows x = true.
Proof.
  rewrite norm_key_eq. split.
  - intros Hne. destruct (all_ws_or_visible (key_letters s)) as [Hall|Hex].
    + apply rstrip_all_ws in Hall. by rewrite Hall in Hne.
    + apply List.Exists_exists in Hex as (d & Hd & Hvis).
      unfold key_letters in Hd. apply filter_In in Hd as [Hd Hst].
      apply in_flat_map in Hd as (l & Hl & Hd).
      apply in_flat_map in Hl as (x & Hx & Hl).
      exists x. split; [done|]. unfold shows. apply existsb_exists.
      exists d. split.
      * apply in_flat_map. eauto.
      * by rewrite Hst, Hvis.
  - intros (x & Hx & Hs). unfold shows in Hs.
    apply existsb_exists in Hs as (d & Hd & Hp).
    apply andb_true_iff in Hp as [Hst Hvis]. apply negb_true_iff in Hvis.
    assert (In d (key_letters s)) as Hin.
    { unfold key_letters. apply filter_In. split; [|done].
      apply in_flat_map in Hd as (l & Hl & Hd).
      apply in_flat_map. exists l. split; [|done].
      apply in_flat_map. eauto. }
    assert (rstrip (key_letters s) <> []) as Hr.
    { apply rstrip_visible_nonnil. apply List.Exists_exists. eauto. }
    apply sub_ws_rstrip_nonnil in Hr. by destruct (sub_ws true _).
Qed.

(** A segment with a key gives the whole hint a key: the guard at the top
    of the function never hides a segment. *)
Lemma hint_segs_guard hint sg :
  In sg (Etap2.hint_segs hint) -> nonempty (Etap2.norm_key (Some hint)) = true.
Proof.
  unfold Etap2.hint_segs. intros H.
  apply in_map_iff in H as (s0 & _ & H). apply filter_In in H as [Hsplit Hne].
  apply norm_key_nonempty in Hne as (x & Hx & Hs).
  apply re_split_infix in Hsplit as (p & q & ->).
  apply norm_key_nonempty. exists x. split; [|done]. by apply In_strip_infix.
Qed.

Lemma return_if_known_in keys canon k :
  k ∈ keys -> Etap2.return_if_known keys canon k = Some (getitem canon k).
Proof.
  intros H. unfold Etap2.return_if_known, in_set. by rewrite bool_decide_eq_true_2.
Qed.

Lemma return_if_known_notin keys canon k :
  k ∉ keys -> Etap2.return_if_known keys canon k = None.
Proof.
  intros H. unfold Etap2.return_if_known, in_set. by rewrite bool_decide_eq_false_2.
Qed.

Lemma segment_stage_hit hint keys canon i k :
  (Etap2.segment_key <$> Etap2.hint_segs hint) !! i = Some k ->
  k ∈ keys ->
  (forall j k', (i < j)%nat ->
     (Etap2.segment_key <$> Etap2.hint_segs hint) !! j = Some k' -> k' ∉ keys) ->
  Etap2.segment_stage hint keys canon = Some (getitem canon k).
Proof.
  intros Hi Hk Hlater. unfold Etap2.segment_stage.
  rewrite list_lookup_fmap in Hi.
  destruct (Etap2.hint_segs hint !! i) as [sg|] eqn:Esg; [|done].
  injection Hi as <-.
  apply (first_return_last _ _ i sg); [done|by apply return_if_known_in|].
  intros j y Hj Hy. apply return_if_known_notin.
  apply (Hlater j); [done|]. by rewrite list_lookup_fmap, Hy.
Qed.

Lemma segment_stage_miss hint keys canon :
  (forall k, In k (Etap2.segment_key <$> Etap2.hint_segs hint) -> k ∉ keys) ->
  Etap2.segment_stage hint keys canon = None.
Proof.
  intros H. apply first_return_none. intros sg Hsg.
  apply return_if_known_notin, H. apply in_map. by apply in_rev.
Qed.

(** The last segment whose key is a candidate gives the result. *)
Lemma guess_segment_hit hint keys canon i k :
  (Etap2.segment_key <$> Etap2.hint_segs hint) !! i = Some k ->
  k ∈ keys ->
  (forall j k', (i < j)%nat ->
     (Etap2.segment_key <$> Etap2.hint_segs hint) !! j = Some k' -> k' ∉ keys) ->
  Etap2.guess_miejscowosc_from_hint hint keys canon = Some <$> getitem canon k.
Proof.
  intros Hi Hk Hlater. unfold Etap2.guess_miejscowosc_from_hint.
  assert (nonempty (Etap2.norm_key (Some hint)) = true) as ->.
  { rewrite list_lookup_fmap in Hi.
    destruct (Etap2.hint_segs hint !! i) as [sg|] eqn:Esg; [|done].
    apply (hint_segs_guard hint sg).
    apply list_elem_of_In, list_elem_of_lookup. eauto. }
  cbn [negb]. by rewrite (segment_stage_hit hint keys canon i k).
Qed.

Lemma ngram_stage_hit words keys canon n i :
  (1 <= n <= 4)%nat -> (i + n <= length words)%nat ->
  Etap2.ngram words n i ∈ keys ->
  (forall n' i', (1 <= n' <= 4)%nat -> (i' + n' <= length words)%nat ->
     (n < n' \/ (n' = n /\ i' < i))%nat -> Etap2.ngram words n' i' ∉ keys) ->
  Etap2.ngram_stage words keys canon = Some (getitem canon (Etap2.ngram words n i)).
Proof.
  intros Hn Hi Hk Hfirst. unfold Etap2.ngram_stage.
  apply (first_return_first _ _ (4 - n) n).
  - assert (n = 1 \/ n = 2 \/ n = 3 \/ n = 4)%nat as [->|[->|[->| ->]]] by lia; done.
  - assert ((length words <? n)%nat = false) as -> by (apply Nat.ltb_ge; lia).
    apply (first_return_first _ _ i i).
    + apply lookup_seq. split; [done|lia].
    + by apply return_if_known_in.
    + intros j y Hj Hy. apply lookup_seq in Hy as [-> _].
      apply return_if_known_notin, Hfirst; lia.
  - intros j y Hj Hy.
    assert (y = 4 - j /\ j < 4)%nat as [-> Hj4].
    { destruct j as [|[|[|[|j]]]]; simpl in Hy; inversion Hy; lia. }
    destruct (length words <? 4 - j)%nat eqn:E; [done|].
    apply Nat.ltb_ge in E. apply first_return_none. intros i' Hi'.
    apply in_seq in Hi'. apply return_if_known_notin, Hfirst; lia.
Qed.

Lemma hint_words_nil : Etap2.hint_words [] = [].
Proof. reflexivity. Qed.

(** When no segment is a candidate, the longest n-gram (n from 4 down to 1),
    and among those of that length the leftmost, gives the result. *)
Lemma guess_ngram_hit hint keys canon n i :
  let words := Etap2.hint_words (Etap2.norm_key (Some hint)) in
  (forall k, In k (Etap2.segment_key <$> Etap2.hint_segs hint) -> k ∉ keys) ->
  (1 <= n <= 4)%nat -> (i + n <= length words)%nat ->
  Etap2.ngram words n i ∈ keys ->
  (forall n' i', (1 <= n' <= 4)%nat -> (i' + n' <= length words)%nat ->
     (n < n' \/ (n' = n /\ i' < i))%nat -> Etap2.ngram words n' i' ∉ keys) ->
  Etap2.guess_miejscowosc_from_hint hint keys canon
  = Some <$> getitem canon (Etap2.ngram words n i).
Proof.
  intros words Hseg Hn Hi Hk Hfirst. unfold Etap2.guess_miejscowosc_from_hint.
  fold words.
  destruct (Etap2.norm_key (Some hint)) as [|c h] eqn:Eh.
  { subst words. rewrite hint_words_nil in Hi. simpl in Hi. lia. }
  cbn [nonempty negb].
  rewrite segment_stage_miss by done.
  by rewrite (ngram_stage_hit words keys canon n i).
Qed.

(** Nothing is a candidate: no result. *)
Lemma guess_miss hint keys canon :
  let words := Etap2.hint_words (Etap2.norm_key (Some hint)) in
  (forall k, In k (Etap2.segment_key <$> Etap2.hint_segs hint) -> k ∉ keys) ->
  (forall n i, (1 <= n <= 4)%nat -> (i + n <= length words)%nat ->
     Etap2.ngram words n i ∉ keys) ->
  Etap2.guess_miejscowosc_from_hint hint keys canon = Ok None.
Proof.
  intros words Hseg Hng. unfold Etap2.guess_miejscowosc_from_hint. fold words.
  destruct (negb _); [done|].
  rewrite segment_stage_miss by done.
  unfold Etap2.ngram_stage. rewrite first_return_none; [done|].
  intros n Hn. destruct (length words <? n)%nat eqn:E; [done|].
  apply Nat.ltb_ge in E. apply first_return_none. intros i Hi. apply in_seq in Hi.
  apply return_if_known_notin, Hng; [|lia].
  simpl in Hn. lia.
Qed.
End Guess.

Ltac by_compute :=
  match goal with |- ?P => apply (bool_decide_unpack P); vm_compute; exact I end.

(** C4: the segments of the hint (split on [|], [,] and [;], turned into keys,
    without a leading street prefix) are tried from the last one, and the
    canonical name of the first candidate met is returned.  The segment keys
    of "Warszawa | ul. Kwiatowa 5" are "warszawa" and "kwiatowa 5", so
    "Warszawa" is found both in this hint and in "ul. Kwiatowa 5 | Warszawa"
    when "warszawa" is the only segment key among the candidates. *)
Theorem reverse_segment_scan :
  (forall (U : UnicodeData), UnicodeLaws U ->
     forall (hint : pystr) (keys : gset pystr) (canon : gmap pystr pystr) (i : nat) (k : pystr),
       (Etap2.segment_key <$> Etap2.hint_segs hint) !! i = Some k ->
       k ∈ keys ->
       (forall j k', (i < j)%nat ->
          (Etap2.segment_key <$> Etap2.hint_segs hint) !! j = Some k' -> k' ∉ keys) ->
       Etap2.guess_miejscowosc_from_hint hint keys canon = Some <$> getitem canon k)
  /\ Etap2.segment_key <$> Etap2.hint_segs (u8 "Warszawa | ul. Kwiatowa 5")
     = [u8 "warszawa"; u8 "kwiatowa 5"]
  /\ Etap2.segment_key <$> Etap2.hint_segs (u8 "ul. Kwiatowa 5 | Warszawa")
     = [u8 "kwiatowa 5"; u8 "warszawa"]
  /\ (forall (keys : gset pystr) (canon : gmap pystr pystr),
        u8 "warszawa" ∈ keys -> u8 "kwiatowa 5" ∉ keys ->
        canon !! u8 "warszawa" = Some (u8 "Warszawa") ->
        Etap2.guess_miejscowosc_from_hint (u8 "Warszawa | ul. Kwiatowa 5") keys canon
        = Ok (Some (u8 "Warszawa"))
        /\ Etap2.guess_miejscowosc_from_hint (u8 "ul. Kwiatowa 5 | Warszawa") keys canon
           = Ok (Some (u8 "Warszawa"))).
Proof.
  assert (Etap2.segment_key <$> Etap2.hint_segs (u8 "Warszawa | ul. Kwiatowa 5")
          = [u8 "warszawa"; u8 "kwiatowa 5"]) as E1 by (vm_compute; reflexivity).
  assert (Etap2.segment_key <$> Etap2.hint_segs (u8 "ul. Kwiatowa 5 | Warszawa")
          = [u8 "kwiatowa 5"; u8 "warszawa"]) as E2 by (vm_compute; reflexivity).
  split; [|split; [exact E1|split; [exact E2|]]].
  - intros U L. apply @guess_segment_hit; done.
  - intros keys canon Hin Hout Hcanon.
    split.
    + rewrite (guess_segment_hit _ keys canon 0 (u8 "warszawa")).
      * unfold getitem. by rewrite Hcanon.
      * by rewrite E1.
      * done.
      * intros j k' Hj. rewrite E1.
        destruct j as [|[|j]]; [lia| |done]. by intros [= <-].
    + rewrite (guess_segment_hit _ keys canon 1 (u8 "warszawa")).
      * unfold getitem. by rewrite Hcanon.
      * by rewrite E2.
      * done.
      * intros j k' Hj. rewrite E2.
        destruct j as [|[|j]]; [lia|lia|done].
Qed.

Lemma reverse_segment_scan_witness :
  Etap2.guess_miejscowosc_from_hint (u8 "Warszawa | ul. Kwiatowa 5")
    {[ u8 "warszawa" ]} {[ u8 "warszawa" := u8 "Warszawa" ]} = Ok (Some (u8 "Warszawa"))
  /\ Etap2.guess_miejscowosc_from_hint (u8 "ul. Kwiatowa 5 | Warszawa")
       {[ u8 "warszawa" ]} {[ u8 "warszawa" := u8 "Warszawa" ]} = Ok (Some (u8 "Warszawa")).
Proof.
  apply (proj2 (proj2 (proj2 reverse_segment_scan))).
  - by_compute.
  - by_compute.
  - vm_compute. reflexivity.
Defined.

(** C5: when no segment is a candidate, the word n-grams of the key of the
    whole hint are tried for n = 4, 3, 2, 1 and, for each n, from the left;
    the canonical name of the first candidate met is returned.  For the hint
    "ul. Długa, Nowy Sącz" and candidates that include "sacz" and "nowy sacz"
    the result is "Nowy Sącz"; in the n-gram loop over the words of this hint
    the 2-gram "nowy sacz" is met before the 1-gram "sacz". *)
Theorem longest_ngram_first :
  (forall (U : UnicodeData), UnicodeLaws U ->
     forall (hint : pystr) (keys : gset pystr) (canon : gmap pystr pystr) (n i : nat),
       let words := Etap2.hint_words (Etap2.norm_key (Some hint)) in
       (forall k, In k (Etap2.segment_key <$> Etap2.hint_segs hint) -> k ∉ keys) ->
       (1 <= n <= 4)%nat -> (i + n <= length words)%nat ->
       Etap2.ngram words n i ∈ keys ->
       (forall n' i', (1 <= n' <= 4)%nat -> (i' + n' <= length words)%nat ->
          (n < n' \/ (n' = n /\ i' < i))%nat -> Etap2.ngram words n' i' ∉ keys) ->
       Etap2.guess_miejscowosc_from_hint hint keys canon
       = Some <$> getitem canon (Etap2.ngram words n i))
  /\ (forall (keys : gset pystr) (canon : gmap pystr pystr),
        u8 "sacz" ∈ keys -> u8 "nowy sacz" ∈ keys ->
        canon !! u8 "nowy sacz" = Some (u8 "Nowy Sącz") ->
        Etap2.guess_miejscowosc_from_hint (u8 "ul. Długa, Nowy Sącz") keys canon
        = Ok (Some (u8 "Nowy Sącz")))
  /\ Etap2.hint_words (Etap2.norm_key (Some (u8 "ul. Długa, Nowy Sącz")))
     = [u8 "ul."; u8 "długa,"; u8 "nowy"; u8 "sacz"]
  /\ Etap2.ngram_stage [u8 "ul."; u8 "długa,"; u8 "nowy"; u8 "sacz"]
       {[ u8 "sacz"; u8 "nowy sacz" ]}
       {[ u8 "sacz" := u8 "Sącz"; u8 "nowy sacz" := u8 "Nowy Sącz" ]}
     = Some (Ok (u8 "Nowy Sącz")).
Proof.
  split; [|split; [|split]].
  - intros U L hint keys canon n i. apply @guess_ngram_hit; done.
  - intros keys canon _ Hin Hcanon.
    assert (Etap2.segment_key <$> Etap2.hint_segs (u8 "ul. Długa, Nowy Sącz")
            = [u8 "długa"; u8 "nowy sacz"]) as E by (vm_compute; reflexivity).
    rewrite (guess_segment_hit _ keys canon 1 (u8 "nowy sacz")).
    + unfold getitem. by rewrite Hcanon.
    + by rewrite E.
    + done.
    + intros j k' Hj. rewrite E. destruct j as [|[|j]]; [lia|lia|done].
  - vm_compute. reflexivity.
  - vm_compute. reflexivity.
Qed.

(** A hint without delimiters has one segment, the whole text; here it is no
    candidate, and the 2-gram at offset 2 is the first n-gram that is. *)
Lemma longest_ngram_first_witness :
  Etap2.guess_miejscowosc_from_hint (u8 "Mieszkanie w Nowy Sącz przy rynku")
    {[ u8 "sacz"; u8 "nowy sacz" ]}
    {[ u8 "sacz" := u8 "Sącz"; u8 "nowy sacz" := u8 "Nowy Sącz" ]}
  = Ok (Some (u8 "Nowy Sącz")).
Proof.
  pose proof (proj1 longest_ngram_first latin_ucd latin_laws
                (u8 "Mieszkanie w Nowy Sącz przy rynku")
                {[ u8 "sacz"; u8 "nowy sacz" ]}
                {[ u8 "sacz" := u8 "Sącz"; u8 "nowy sacz" := u8 "Nowy Sącz" ]}
                2%nat 2%nat) as H.
  cbv zeta in H. rewrite H.
  - vm_compute. reflexivity.
  - intros k Hk. vm_compute in Hk. destruct Hk as [<-|[]]. by_compute.
  - lia.
  - vm_compute. lia.
  - by_compute.
  - intros n' i' Hn' Hi' Hord.
    assert (length (Etap2.hint_words
              (Etap2.norm_key (Some (u8 "Mieszkanie w Nowy Sącz przy rynku")))) = 6%nat) as Hlen
      by (vm_compute; reflexivity).
    rewrite Hlen in Hi'.
    assert ((n' = 4 /\ (i' = 0 \/ i' = 1 \/ i' = 2)) \/ (n' = 3 /\ (i' = 0 \/ i' = 1 \/ i' = 2 \/ i' = 3))
            \/ (n' = 2 /\ (i' = 0 \/ i' = 1)))%nat as Hcases by lia.
    destruct Hcases as [[-> Hc]|[[-> Hc]|[-> Hc]]];
      repeat (destruct Hc as [->|Hc]); try subst i'; by_compute.
Defined.

(** ** The TERYT index *)

Section TerytIndex.
Context {U : UnicodeData}.

Lemma teryt_step_skip acc r : row_key r = None -> Etap2.teryt_step acc r = acc.
Proof.
  unfold row_key, Etap2.teryt_step, locality, or_none.
  destruct (nonempty (strip _)); [|done]. cbn [negb].
  destruct (nonempty (Etap2.norm_key _)); done.
Qed.

Lemma teryt_step_key acc r k :
  row_key r = Some k ->
  Etap2.teryt_step acc r
  = (setdefault acc.1 k (locality r), <[k := default [] (acc.2 !! k) ++ [admin_units r]]> acc.2).
Proof.
  unfold row_key, Etap2.teryt_step, locality, admin_units, or_none.
  destruct (nonempty (strip _)); [|done]. cbn [negb].
  destruct (nonempty (Etap2.norm_key _)); [|done]. by intros [= <-].
Qed.

Lemma rows_of_key_snoc k l r :
  rows_of_key k (l ++ [r])
  = rows_of_key k l ++ (if bool_decide (row_key r = Some k) then [r] else []).
Proof. unfold rows_of_key. rewrite List.filter_app. done. Qed.

Lemma teryt_fold_spec (teryt : list Etap2.teryt_row) (k : pystr) :
  let acc := foldl Etap2.teryt_step (∅, ∅) teryt in
  acc.1 !! k = head (locality <$> rows_of_key k teryt)
  /\ acc.2 !! k = match rows_of_key k teryt with
                  | [] => None
                  | hits => Some (admin_units <$> hits)
                  end.
Proof.
  induction teryt as [|r l IH] using rev_ind; [done|].
  cbv zeta in *. rewrite foldl_app. cbn [foldl]. rewrite rows_of_key_snoc.
  destruct IH as [IH1 IH2].
  destruct (row_key r) as [kr|] eqn:Er.
  - rewrite (teryt_step_key _ _ kr Er). cbn [fst snd].
    destruct (decide (kr = k)) as [->|Hne].
    + rewrite bool_decide_eq_true_2 by done. rewrite lookup_insert_eq.
      unfold setdefault. destruct (rows_of_key k l) as [|h hs] eqn:Eh.
      * cbn in IH1. rewrite IH1, IH2. by rewrite lookup_insert_eq.
      * cbn in IH1. rewrite IH1, IH2. cbn. split; [done|].
        by rewrite fmap_app.
    + rewrite bool_decide_eq_false_2 by congruence. rewrite app_nil_r.
      rewrite lookup_insert_ne by done. split; [|done].
      unfold setdefault. destruct (_ !! kr); [done|]. by rewrite lookup_insert_ne.
  - rewrite teryt_step_skip by done.
    rewrite bool_decide_eq_false_2 by congruence. by rewrite app_nil_r.
Qed.

Lemma teryt_fold_filter acc (teryt : list Etap2.teryt_row) :
  foldl Etap2.teryt_step acc (List.filter (fun r => nonempty (locality r)) teryt)
  = foldl Etap2.teryt_step acc teryt.
Proof.
  revert acc. induction teryt as [|r l IH]; intros acc; [done|].
  cbn [List.filter foldl]. destruct (nonempty (locality r)) eqn:E.
  - cbn [foldl]. apply IH.
  - rewrite IH. f_equal. symmetry. apply teryt_step_skip. unfold row_key. by rewrite E.
Qed.

(** C7: the index maps a key to the spelling of the first row of the table
    that produces it and to the (region, county, municipality) of all rows
    that produce it, in the order of the table; its key set holds the keys
    that some row produces; rows without a locality leave no trace. *)
Theorem teryt_index_first_spelling_all_rows (teryt : list Etap2.teryt_row) (k : pystr) :
  let ix := Etap2.build_teryt_index teryt in
  Etap2.miejsc_key_to_canon ix !! k = head (locality <$> rows_of_key k teryt)
  /\ Etap2.miejsc_to_rows ix !! k
     = match rows_of_key k teryt with
       | [] => None
       | hits => Some (admin_units <$> hits)
       end
  /\ (k ∈ Etap2.miejsc_keys_set ix <-> rows_of_key k teryt <> [])
  /\ Etap2.build_teryt_index (List.filter (fun r => nonempty (locality r)) teryt) = ix.
Proof.
  cbv zeta. unfold Etap2.build_teryt_index. cbn.
  destruct (teryt_fold_spec teryt k) as [H1 H2]. cbv zeta in H1, H2.
  split; [done|]. split; [done|]. split.
  - rewrite elem_of_dom, H1. destruct (rows_of_key k teryt); cbn.
    + split; [by intros [? ?]|done].
    + split; [done|]. by eexists.
  - by rewrite teryt_fold_filter.
Qed.
End TerytIndex.

Example teryt_index_example :
  let ix :=
    Etap2.build_teryt_index
      [ teryt_row_of "MAŁOPOLSKIE" "nowosądecki" "Nowy Sącz" "NOWY SĄCZ";
        {| Etap2.Wojewodztwo := Some (u8 "ŁÓDZKIE"); Etap2.Powiat := Some (u8 "łaski");
           Etap2.Gmina := Some (u8 "Łask"); Etap2.Miejscowosc := Some [] |};
        teryt_row_of "LUBELSKIE" "lubelski" "Lipa" "Lipa";
        teryt_row_of "MAZOWIECKIE" "radomski" "Lipa" "LIPA" ] in
  Etap2.miejsc_key_to_canon ix !! u8 "lipa" = Some (u8 "Lipa")
  /\ Etap2.miejsc_to_rows ix !! u8 "lipa"
     = Some [ (u8 "LUBELSKIE", u8 "lubelski", u8 "Lipa");
              (u8 "MAZOWIECKIE", u8 "radomski", u8 "Lipa") ]
  /\ elements (Etap2.miejsc_keys_set ix) ≡ₚ [u8 "nowy sacz"; u8 "lipa"].
Proof.
  split; [vm_compute; reflexivity|]. split; [vm_compute; reflexivity|].
  by_compute.
Qed.

(** ** Completion of a row *)

Section Completion.
Context {U : UnicodeData}.

Lemma target_cols_distinct :
  Etap2.COL_WOJ <> Etap2.COL_POW /\ Etap2.COL_WOJ <> Etap2.COL_GMI
  /\ Etap2.COL_WOJ <> Etap2.COL_MIA /\ Etap2.COL_POW <> Etap2.COL_GMI
  /\ Etap2.COL_POW <> Etap2.COL_MIA /\ Etap2.COL_GMI <> Etap2.COL_MIA.
Proof. by_compute. Qed.

Lemma extends_refl st : extends st st.
Proof. unfold extends. repeat split; done. Qed.

Lemma extends_trans st1 st2 st3 : extends st1 st2 -> extends st2 st3 -> extends st1 st3.
Proof.
  intros (A0 & A1 & A2 & A3 & A4) (B0 & B1 & B2 & B3 & B4).
  unfold extends. split; [|split; [|split; [|split]]].
  - intros c ? ? ? ?. by rewrite B0, A0.
  - intros H. destruct (A1 H) as [E1 E2]. rewrite <- E1 in H.
    destruct (B1 H) as [F1 F2]. split; congruence.
  - intros H. destruct (A2 H) as [E1 E2]. rewrite <- E1 in H.
    destruct (B2 H) as [F1 F2]. split; congruence.
  - intros H. destruct (A3 H) as [E1 E2]. rewrite <- E1 in H.
    destruct (B3 H) as [F1 F2]. split; congruence.
  - intros H. destruct (A4 H) as [E1 E2]. rewrite <- E1 in H.
    destruct (B4 H) as [F1 F2]. split; congruence.
Qed.

Ltac cols_ne := pose proof target_cols_distinct as (? & ? & ? & ? & ? & ?); congruence.

Ltac frame :=
  unfold extends; cbn [Etap2.woj Etap2.powiat Etap2.gmina Etap2.miejsc Etap2.df fst snd];
  repeat split; intros; try congruence; try done;
  try (rewrite lookup_insert_ne by cols_ne; done).

Lemma fill_woj_extends new st : extends st (Etap2.fill_woj new st).
Proof.
  unfold Etap2.fill_woj, Etap2.fill_cell. destruct st as [w p g m d].
  cbn [Etap2.woj Etap2.powiat Etap2.gmina Etap2.miejsc Etap2.df].
  destruct (truthy w) eqn:Ew; cbn [negb andb]; [frame|].
  destruct (truthy new); frame.
Qed.

Lemma fill_pow_extends new st : extends st (Etap2.fill_pow new st).
Proof.
  unfold Etap2.fill_pow, Etap2.fill_cell. destruct st as [w p g m d].
  cbn [Etap2.woj Etap2.powiat Etap2.gmina Etap2.miejsc Etap2.df].
  destruct (truthy p) eqn:Ep; cbn [negb andb]; [frame|].
  destruct (truthy new); frame.
Qed.

Lemma fill_gmi_extends new st : extends st (Etap2.fill_gmi new st).
Proof.
  unfold Etap2.fill_gmi, Etap2.fill_cell. destruct st as [w p g m d].
  cbn [Etap2.woj Etap2.powiat Etap2.gmina Etap2.miejsc Etap2.df].
  destruct (truthy g) eqn:Eg; cbn [negb andb]; [frame|].
  destruct (truthy new); frame.
Qed.

Lemma set_miejsc_extends guess st :
  truthy (Etap2.miejsc st) = false -> extends st (Etap2.set_miejsc guess st).
Proof. intros H. unfold Etap2.set_miejsc. destruct st as [w p g m d]. cbn in H. frame. Qed.

Lemma woj_from_court_extends ox code st : extends st (Etap2.woj_from_court ox code st).
Proof.
  unfold Etap2.woj_from_court. destruct st as [w p g m d].
  cbn [Etap2.woj Etap2.powiat Etap2.gmina Etap2.miejsc Etap2.df].
  destruct (truthy w) eqn:Ew; cbn [negb]; [apply extends_refl|].
  destruct (Etap2.court_entry _ _); [frame|apply extends_refl].
Qed.

Lemma fill_admin_extends w p g st :
  extends st (Etap2.fill_gmi g (Etap2.fill_pow p (Etap2.fill_woj w st))).
Proof.
  eapply extends_trans; [apply fill_woj_extends|].
  eapply extends_trans; [apply fill_pow_extends|apply fill_gmi_extends].
Qed.

Lemma admin_from_teryt_extends tx st : extends st (Etap2.admin_from_teryt tx st).
Proof.
  unfold Etap2.admin_from_teryt. destruct (truthy (Etap2.miejsc st)); [|apply extends_refl].
  destruct (Etap2.fill_from_teryt _ _ _) as [[w p] g]. apply fill_admin_extends.
Qed.

(** *** No [KeyError] when the candidates are the keys of the dictionary *)

Lemma return_if_known_ok (keys : gset pystr) (canon : gmap pystr pystr) k r :
  keys = dom canon -> Etap2.return_if_known keys canon k = Some r -> exists v, r = Ok v.
Proof.
  intros -> H. unfold Etap2.return_if_known, in_set in H.
  destruct (bool_decide (k ∈ dom canon)) eqn:E; [|done].
  apply bool_decide_eq_true in E. apply elem_of_dom in E as [v Hv].
  injection H as <-. exists v. unfold getitem. by rewrite Hv.
Qed.

Lemma guess_ok (hint : pystr) (keys : gset pystr) (canon : gmap pystr pystr) :
  keys = dom canon -> exists g, Etap2.guess_miejscowosc_from_hint hint keys canon = Ok g.
Proof.
  intros Hk. unfold Etap2.guess_miejscowosc_from_hint.
  destruct (negb _); [by eexists|].
  destruct (Etap2.segment_stage hint keys canon) as [r|] eqn:Es.
  { unfold Etap2.segment_stage in Es. apply first_return_inv in Es as (x & _ & Hx).
    destruct (return_if_known_ok _ _ _ _ Hk Hx) as [v ->]. by eexists. }
  destruct (Etap2.ngram_stage _ keys canon) as [r|] eqn:En; [|by eexists].
  unfold Etap2.ngram_stage in En. apply first_return_inv in En as (n & _ & Hn).
  destruct (length _ <? n)%nat; [done|].
  apply first_return_inv in Hn as (i & _ & Hi).
  destruct (return_if_known_ok _ _ _ _ Hk Hi) as [v ->]. by eexists.
Qed.

Lemma build_teryt_index_wf teryt : wf_teryt_index (Etap2.build_teryt_index teryt).
Proof. reflexivity. Qed.

Lemma miejsc_from_teryt_spec tx hint st :
  wf_teryt_index tx ->
  exists g,
    Etap2.guess_miejscowosc_from_hint hint (Etap2.miejsc_keys_set tx)
      (Etap2.miejsc_key_to_canon tx) = Ok g
    /\ Etap2.miejsc_from_teryt tx hint st
       = Ok (if negb (truthy (Etap2.miejsc st)) && truthy g
             then Etap2.set_miejsc g st else st).
Proof.
  intros Hwf. destruct (guess_ok hint _ _ Hwf) as [g Hg]. exists g. split; [done|].
  unfold Etap2.miejsc_from_teryt. destruct (truthy (Etap2.miejsc st)); cbn [negb andb]; [done|].
  rewrite Hg. cbn. by destruct (truthy g).
Qed.

Lemma miejsc_from_teryt_extends tx hint st :
  wf_teryt_index tx ->
  exists st', Etap2.miejsc_from_teryt tx hint st = Ok st' /\ extends st st'.
Proof.
  intros Hwf. destruct (miejsc_from_teryt_spec tx hint st Hwf) as (g & _ & ->).
  eexists. split; [done|].
  destruct (truthy (Etap2.miejsc st)) eqn:E; cbn [negb andb]; [apply extends_refl|].
  destruct (truthy g); [by apply set_miejsc_extends|apply extends_refl].
Qed.

Lemma miejsc_from_court_spec ox code hint st :
  match Etap2.court_entry code (Etap2.court_to_miejsc ox) with
  | Some m_map =>
      exists g,
        Etap2.guess_miejscowosc_from_hint hint (dom m_map) ((fun v => v.2) <$> m_map) = Ok g
        /\ Etap2.miejsc_from_court ox code hint st
           = Ok (if negb (truthy (Etap2.miejsc st)) && truthy g
                 then court_fill m_map g st else st)
  | None => Etap2.miejsc_from_court ox code hint st = Ok st
  end.
Proof.
  unfold Etap2.miejsc_from_court.
  destruct (Etap2.court_entry code (Etap2.court_to_miejsc ox)) as [m_map|].
  - destruct (guess_ok hint (dom m_map) ((fun v => v.2) <$> m_map)) as [g Hg].
    { by rewrite dom_fmap_L. }
    exists g. split; [done|].
    destruct (truthy (Etap2.miejsc st)); cbn [negb andb]; [done|].
    rewrite Hg. cbn. destruct (truthy g); [|done].
    unfold court_fill. cbv zeta.
    by destruct (default _ _) as [[[? ?] ?] ?].
  - by destruct (negb _).
Qed.

Lemma court_fill_extends m_map g st :
  truthy (Etap2.miejsc st) = false -> extends st (court_fill m_map g st).
Proof.
  intros H. unfold court_fill. cbv zeta.
  eapply extends_trans; [by apply set_miejsc_extends|apply fill_admin_extends].
Qed.

Lemma miejsc_from_court_extends ox code hint st :
  exists st', Etap2.miejsc_from_court ox code hint st = Ok st' /\ extends st st'.
Proof.
  pose proof (miejsc_from_court_spec ox code hint st) as H.
  destruct (Etap2.court_entry _ _) as [m_map|].
  - destruct H as (g & _ & ->). eexists. split; [done|].
    destruct (truthy (Etap2.miejsc st)) eqn:E; cbn [negb andb]; [apply extends_refl|].
    destruct (truthy g); [by apply court_fill_extends|apply extends_refl].
  - rewrite H. eexists. split; [done|apply extends_refl].
Qed.
End Completion.

Section FillRow.
Context {U : UnicodeData}.

Lemma norm_missing_truthy x : Etap2.norm_missing x <> None -> truthy (Etap2.norm_missing x) = true.
Proof.
  unfold Etap2.norm_missing. destruct x as [x|]; [|done].
  cbv zeta. destruct (strip x) as [|c r] eqn:E.
  - assert (in_set (py_lower []) Etap2.MISSING_TOKENS = true) as -> by (vm_compute; reflexivity).
    done.
  - by destruct (in_set _ _).
Qed.

Lemma fill_row_eq tx ox row :
  Etap2.fill_row tx ox row
  = Etap2.miejsc_from_teryt tx (Etap2.build_hint_text row)
      (Etap2.woj_from_court ox (court_code_of row) (start row))
    ≫= (fun st => Etap2.miejsc_from_court ox (court_code_of row) (Etap2.build_hint_text row) st
    ≫= (fun st => Ok (Etap2.df (Etap2.admin_from_teryt tx st)))).
Proof. reflexivity. Qed.

Lemma fill_row_steps tx ox row :
  wf_teryt_index tx ->
  exists st2 st3,
    Etap2.miejsc_from_teryt tx (Etap2.build_hint_text row)
      (Etap2.woj_from_court ox (court_code_of row) (start row)) = Ok st2
    /\ Etap2.miejsc_from_court ox (court_code_of row) (Etap2.build_hint_text row) st2 = Ok st3
    /\ Etap2.fill_row tx ox row = Ok (Etap2.df (Etap2.admin_from_teryt tx st3))
    /\ extends (Etap2.woj_from_court ox (court_code_of row) (start row)) st2
    /\ extends st2 st3.
Proof.
  intros Hwf.
  destruct (miejsc_from_teryt_extends tx (Etap2.build_hint_text row)
              (Etap2.woj_from_court ox (court_code_of row) (start row)) Hwf) as (st2 & E2 & X2).
  destruct (miejsc_from_court_extends ox (court_code_of row) (Etap2.build_hint_text row) st2)
    as (st3 & E3 & X3).
  exists st2, st3. split; [done|]. split; [done|]. split; [|by split].
  rewrite fill_row_eq, E2. cbn [mbind exc_bind]. rewrite E3. done.
Qed.

Lemma fill_row_extends tx ox row :
  wf_teryt_index tx ->
  exists st', Etap2.fill_row tx ox row = Ok (Etap2.df st')
              /\ extends (Etap2.woj_from_court ox (court_code_of row) (start row)) st'
              /\ extends (start row) st'.
Proof.
  intros Hwf. destruct (fill_row_steps tx ox row Hwf) as (st2 & st3 & _ & _ & E & X2 & X3).
  exists (Etap2.admin_from_teryt tx st3). split; [done|].
  assert (extends (Etap2.woj_from_court ox (court_code_of row) (start row))
            (Etap2.admin_from_teryt tx st3)) as X.
  { eapply extends_trans; [exact X2|].
    eapply extends_trans; [exact X3|apply admin_from_teryt_extends]. }
  split; [done|]. eapply extends_trans; [apply woj_from_court_extends|exact X].
Qed.

Lemma extends_present row st' col :
  extends (start row) st' -> In col target_cols -> present row col ->
  Etap2.df st' !! col = row !! col.
Proof.
  intros (_ & X1 & X2 & X3 & X4) Hcol Hp. apply norm_missing_truthy in Hp.
  unfold target_cols in Hcol. cbn [In] in Hcol.
  destruct Hcol as [<-|[<-|[<-|[<-|[]]]]].
  - by destruct (X1 Hp).
  - by destruct (X2 Hp).
  - by destruct (X3 Hp).
  - by destruct (X4 Hp).
Qed.

Lemma fill_row_present tx ox row :
  wf_teryt_index tx ->
  exists row', Etap2.fill_row tx ox row = Ok row'
    /\ (forall col, In col target_cols -> present row col -> row' !! col = row !! col)
    /\ (forall c, ~ In c target_cols -> row' !! c = row !! c).
Proof.
  intros Hwf. destruct (fill_row_extends tx ox row Hwf) as (st' & E & _ & X).
  exists (Etap2.df st'). split; [done|]. split.
  - intros col. by apply extends_present.
  - intros c Hc. destruct X as (X0 & _). apply X0; intros ->; apply Hc; unfold target_cols; cbn [In]; tauto.
Qed.

(** C2: a target column (Województwo, Powiat, Gmina, Miejscowość) whose cell
    holds a value before the loop body runs holds the same cell after it; so
    a row whose four target cells hold values comes out unchanged. *)
Theorem present_fields_are_kept
    (teryt : list Etap2.teryt_row) (ox : Etap2.obszar_index) (row : Etap2.raport_row) :
  exists row',
    Etap2.fill_row (Etap2.build_teryt_index teryt) ox row = Ok row'
    /\ (forall col, In col target_cols -> present row col -> row' !! col = row !! col)
    /\ ((forall col, In col target_cols -> present row col) -> row' = row).
Proof.
  destruct (fill_row_present _ ox row (build_teryt_index_wf teryt)) as (row' & E & Hp & Hf).
  exists row'. split; [done|]. split; [done|].
  intros Hall. apply map_eq. intros c.
  destruct (decide (In c target_cols)) as [Hc|Hc]; [|by apply Hf].
  apply Hp; [done|]. by apply Hall.
Qed.

Lemma woj_from_court_miejsc ox code st :
  Etap2.miejsc (Etap2.woj_from_court ox code st) = Etap2.miejsc st
  /\ Etap2.df (Etap2.woj_from_court ox code st) !! Etap2.COL_MIA
     = Etap2.df st !! Etap2.COL_MIA.
Proof.
  unfold Etap2.woj_from_court. destruct (negb _); [|done].
  destruct (Etap2.court_entry _ _); [|done]. cbn [Etap2.miejsc Etap2.df]. split; [done|].
  rewrite lookup_insert_ne; [done|].
  pose proof target_cols_distinct as (? & ? & ? & ? & ? & ?). congruence.
Qed.

Lemma admin_from_teryt_missing tx st :
  truthy (Etap2.miejsc st) = false -> Etap2.admin_from_teryt tx st = st.
Proof. intros H. unfold Etap2.admin_from_teryt. by rewrite H. Qed.

Lemma set_miejsc_cell g st :
  Etap2.miejsc (Etap2.set_miejsc g st) = g
  /\ Etap2.df (Etap2.set_miejsc g st) !! Etap2.COL_MIA = Some (Some (Etap2.title_pl g)).
Proof.
  unfold Etap2.set_miejsc. cbn [Etap2.miejsc Etap2.df]. by rewrite lookup_insert_eq.
Qed.

Lemma extends_mia st st' :
  truthy (Etap2.miejsc st) = true -> extends st st' ->
  Etap2.df st' !! Etap2.COL_MIA = Etap2.df st !! Etap2.COL_MIA.
Proof. intros H (_ & _ & _ & _ & X). by destruct (X H). Qed.

(** The locality of a row that has none: what the hint gives with all of
    TERYT as candidates; only when that is nothing, and the court of the row
    has a dictionary, what the hint gives with the court's localities. *)
Lemma fill_row_locality tx ox row :
  wf_teryt_index tx ->
  Etap2.norm_missing (Etap2.row_get row Etap2.COL_MIA) = None ->
  exists g row',
    Etap2.guess_miejscowosc_from_hint (Etap2.build_hint_text row)
      (Etap2.miejsc_keys_set tx) (Etap2.miejsc_key_to_canon tx) = Ok g
    /\ Etap2.fill_row tx ox row = Ok row'
    /\ (truthy g = true -> row' !! Etap2.COL_MIA = Some (Some (Etap2.title_pl g)))
    /\ (truthy g = false ->
        match Etap2.court_entry (court_code_of row) (Etap2.court_to_miejsc ox) with
        | Some m_map =>
            exists g',
              Etap2.guess_miejscowosc_from_hint (Etap2.build_hint_text row)
                (dom m_map) ((fun v => v.2) <$> m_map) = Ok g'
              /\ row' !! Etap2.COL_MIA
                 = if truthy g' then Some (Some (Etap2.title_pl g')) else row !! Etap2.COL_MIA
        | None => row' !! Etap2.COL_MIA = row !! Etap2.COL_MIA
        end).
Proof.
  intros Hwf Hmiss. rewrite fill_row_eq.
  set (hint := Etap2.build_hint_text row). set (code := court_code_of row).
  set (st1 := Etap2.woj_from_court ox code (start row)).
  destruct (woj_from_court_miejsc ox code (start row)) as [Hm1 Hc1].
  fold st1 in Hm1, Hc1. cbn [start Etap2.miejsc Etap2.df] in Hm1, Hc1. rewrite Hmiss in Hm1.
  destruct (miejsc_from_teryt_spec tx hint st1 Hwf) as (g & Hg & E2).
  rewrite Hm1 in E2. cbn [truthy negb andb] in E2.
  exists g. rewrite E2. cbn [mbind exc_bind].
  pose proof (miejsc_from_court_spec ox code hint
                (if truthy g then Etap2.set_miejsc g st1 else st1)) as E3.
  destruct (truthy g) eqn:Tg.
  - (* TERYT gives a locality; the court is not asked *)
    destruct (set_miejsc_cell g st1) as [Hm2 Hc2].
    assert (Etap2.miejsc_from_court ox code hint (Etap2.set_miejsc g st1)
            = Ok (Etap2.set_miejsc g st1)) as ->.
    { destruct (Etap2.court_entry code _); [|done].
      destruct E3 as (g' & _ & ->). by rewrite Hm2, Tg. }
    eexists. split; [done|]. split; [done|]. split; [|done]. intros _.
    rewrite (extends_mia (Etap2.set_miejsc g st1)); [done|by rewrite Hm2|].
    apply admin_from_teryt_extends.
  - destruct (Etap2.court_entry code (Etap2.court_to_miejsc ox)) as [m_map|].
    + destruct E3 as (g' & Hg' & ->). rewrite Hm1. cbn [truthy negb andb].
      eexists. split; [done|]. split; [done|]. split; [done|]. intros _.
      exists g'. split; [done|]. destruct (truthy g') eqn:Tg'.
      * destruct (set_miejsc_cell g' st1) as [Hm2 Hc2]. rewrite <- Hc2.
        apply extends_mia; [by rewrite Hm2|].
        eapply extends_trans; [|apply admin_from_teryt_extends].
        unfold court_fill. cbv zeta. apply fill_admin_extends.
      * rewrite admin_from_teryt_missing by (by rewrite Hm1). done.
    + rewrite E3. eexists. split; [done|]. split; [done|]. split; [done|]. intros _.
      rewrite admin_from_teryt_missing by (by rewrite Hm1). done.
Qed.

(** C1 (as amended): for a row without a locality the hint is first tried
    with all of TERYT as candidates; the localities of the court of the row
    are tried only when that gives nothing; and the cells that hold a value
    are kept. *)
Theorem teryt_is_tried_before_the_court
    (teryt : list Etap2.teryt_row) (ox : Etap2.obszar_index) (row : Etap2.raport_row) :
  Etap2.norm_missing (Etap2.row_get row Etap2.COL_MIA) = None ->
  let tx := Etap2.build_teryt_index teryt in
  let hint := Etap2.build_hint_text row in
  exists g row',
    Etap2.guess_miejscowosc_from_hint hint
      (Etap2.miejsc_keys_set tx) (Etap2.miejsc_key_to_canon tx) = Ok g
    /\ Etap2.fill_row tx ox row = Ok row'
    /\ (truthy g = true -> row' !! Etap2.COL_MIA = Some (Some (Etap2.title_pl g)))
    /\ (truthy g = false ->
        match Etap2.court_entry (court_code_of row) (Etap2.court_to_miejsc ox) with
        | Some m_map =>
            exists g',
              Etap2.guess_miejscowosc_from_hint hint (dom m_map) ((fun v => v.2) <$> m_map)
              = Ok g'
              /\ row' !! Etap2.COL_MIA
                 = if truthy g' then Some (Some (Etap2.title_pl g')) else row !! Etap2.COL_MIA
        | None => row' !! Etap2.COL_MIA = row !! Etap2.COL_MIA
        end)
    /\ (forall col, In col target_cols -> present row col -> row' !! col = row !! col).
Proof.
  intros Hmiss tx hint.
  destruct (fill_row_locality tx ox row (build_teryt_index_wf teryt) Hmiss)
    as (g & row' & Hg & E & H1 & H2).
  destruct (fill_row_present tx ox row (build_teryt_index_wf teryt)) as (row'' & E' & Hp & _).
  assert (row'' = row') as -> by congruence.
  exists g, row'. repeat split; done.
Qed.

(** Region from the court: with a court code that the index maps to a
    region, a row without a region gets that region through [title_pl],
    whatever its other cells hold. *)
Lemma fill_row_court_region tx ox row code w :
  wf_teryt_index tx ->
  Etap2.norm_missing (Etap2.row_get row Etap2.COL_WOJ) = None ->
  court_code_of row = Some code -> nonempty code = true ->
  Etap2.court_to_woj ox !! code = Some w -> nonempty w = true ->
  exists row', Etap2.fill_row tx ox row = Ok row'
    /\ row' !! Etap2.COL_WOJ = Some (Some (Etap2.title_pl (Some w))).
Proof.
  intros Hwf Hmiss Hcode Hne Hw Hnw.
  destruct (fill_row_extends tx ox row Hwf) as (st' & E & (_ & X & _) & _).
  exists (Etap2.df st'). split; [done|].
  unfold Etap2.woj_from_court in X. cbn [start Etap2.woj] in X.
  rewrite Hmiss, Hcode in X. cbn [truthy negb Etap2.court_entry] in X.
  rewrite Hne, Hw in X. cbn [Etap2.woj Etap2.df truthy] in X.
  destruct (X Hnw) as [_ ->]. by rewrite lookup_insert_eq.
Qed.
End FillRow.

(** ** The order of the two tries, on an example *)

(** C1 (as stated) fails: in the hint "Lipa, Warszawa" the court WR1K knows
    "Lipa" and TERYT knows "Warszawa"; the court first would give "Lipa", the
    row gets "Warszawa". *)
Lemma court_is_not_tried_first :
  Etap2.norm_missing (Etap2.row_get sample_row Etap2.COL_MIA) = None
  /\ guess_court_first (Etap2.build_teryt_index sample_teryt)
       (Etap2.build_obszar_index sample_obszar) (court_code_of sample_row)
       (Etap2.build_hint_text sample_row) = Ok (Some (u8 "Lipa"))
  /\ (fun r : Etap2.raport_row => r !! Etap2.COL_MIA)
       <$> Etap2.fill_row (Etap2.build_teryt_index sample_teryt)
             (Etap2.build_obszar_index sample_obszar) sample_row
     = Ok (Some (Some (u8 "Warszawa"))).
Proof. vm_compute. repeat split; reflexivity. Qed.

Lemma teryt_is_tried_before_the_court_witness :
  Etap2.norm_missing (Etap2.row_get sample_row Etap2.COL_MIA) = None
  /\ exists row',
       Etap2.fill_row (Etap2.build_teryt_index sample_teryt)
         (Etap2.build_obszar_index sample_obszar) sample_row = Ok row'
       /\ row' !! Etap2.COL_MIA = Some (Some (u8 "Warszawa")).
Proof.
  assert (Etap2.norm_missing (Etap2.row_get sample_row Etap2.COL_MIA) = None) as Hmiss
    by (vm_compute; reflexivity).
  split; [exact Hmiss|].
  destruct (teryt_is_tried_before_the_court sample_teryt
              (Etap2.build_obszar_index sample_obszar) sample_row Hmiss)
    as (g & row' & Hg & E & H1 & _).
  exists row'. split; [exact E|].
  assert (g = Some (u8 "Warszawa")) as ->.
  { vm_compute in Hg. injection Hg as <-. vm_compute. reflexivity. }
  rewrite H1 by reflexivity. vm_compute. reflexivity.
Defined.

(** ** The region of the court *)

(** C6 (as amended): a row without a region whose number is
    "WR1K/00012345/6" gets the region that the index gives for "WR1K",
    through [title_pl] (first character upper-cased, the rest as it is), so
    "DOLNOŚLĄSKIE" stays "DOLNOŚLĄSKIE"; the other cells of the row, the hint
    among them, do not matter. *)
Theorem court_region_fills_missing_region
    (teryt : list Etap2.teryt_row) (ox : Etap2.obszar_index) (row : Etap2.raport_row)
    (w : pystr) :
  Etap2.norm_missing (Etap2.row_get row Etap2.COL_WOJ) = None ->
  row !! Etap2.COL_KW = Some (Some (u8 "WR1K/00012345/6")) ->
  Etap2.court_to_woj ox !! u8 "WR1K" = Some w ->
  nonempty w = true ->
  exists row',
    Etap2.fill_row (Etap2.build_teryt_index teryt) ox row = Ok row'
    /\ row' !! Etap2.COL_WOJ = Some (Some (Etap2.title_pl (Some w)))
    /\ (w = u8 "DOLNOŚLĄSKIE" -> row' !! Etap2.COL_WOJ = Some (Some (u8 "DOLNOŚLĄSKIE"))).
Proof.
  intros Hmiss Hkw Hw Hne.
  assert (court_code_of row = Some (u8 "WR1K")) as Hcode.
  { unfold court_code_of. rewrite Hkw. vm_compute. reflexivity. }
  assert (nonempty (u8 "WR1K") = true) as Hc by reflexivity.
  destruct (fill_row_court_region (Etap2.build_teryt_index teryt) ox row (u8 "WR1K") w
              (build_teryt_index_wf teryt) Hmiss Hcode Hc Hw Hne) as (row' & E & Hcell).
  exists row'. split; [done|]. split; [done|].
  intros ->. rewrite Hcell. vm_compute. reflexivity.
Qed.

Lemma court_region_fills_missing_region_witness :
  exists row',
    Etap2.fill_row (Etap2.build_teryt_index sample_teryt)
      {| Etap2.court_to_woj := {[ u8 "WR1K" := u8 "DOLNOŚLĄSKIE" ]};
         Etap2.court_to_miejsc := ∅ |} sample_row = Ok row'
    /\ row' !! Etap2.COL_WOJ = Some (Some (u8 "DOLNOŚLĄSKIE")).
Proof.
  destruct (court_region_fills_missing_region sample_teryt
              {| Etap2.court_to_woj := {[ u8 "WR1K" := u8 "DOLNOŚLĄSKIE" ]};
                 Etap2.court_to_miejsc := ∅ |} sample_row (u8 "DOLNOŚLĄSKIE"))
    as (row' & E & _ & H).
  - vm_compute. reflexivity.
  - vm_compute. reflexivity.
  - vm_compute. reflexivity.
  - vm_compute. reflexivity.
  - exists row'. split; [exact E|]. by apply H.
Defined.

(** C6 (as stated) fails: the region written is "DOLNOŚLĄSKIE", not
    "Dolnośląskie". *)
Lemma court_region_is_not_lower_cased :
  Etap2.court_to_woj (Etap2.build_obszar_index sample_obszar) !! u8 "WR1K"
  = Some (u8 "DOLNOŚLĄSKIE")
  /\ (fun r : Etap2.raport_row => r !! Etap2.COL_WOJ)
       <$> Etap2.fill_row (Etap2.build_teryt_index sample_teryt)
             (Etap2.build_obszar_index sample_obszar) sample_row
     = Ok (Some (Some (u8 "DOLNOŚLĄSKIE")))
  /\ Etap2.title_pl (Some (u8 "DOLNOŚLĄSKIE")) <> u8 "Dolnośląskie".
Proof. vm_compute. repeat split; try reflexivity. discriminate. Qed.

(** ** Text in the Latin blocks *)

Lemma latin_key_letters_lower :
  forallb (fun x =>
    forallb (fun l =>
      forallb (fun d => negb (combining d =? 0)%N || bool_decide (lower_char d = [d]))
        (decomp l)) (lower_char x))
    (N.of_nat <$> seq 0 384) = true.
Proof. vm_compute. reflexivity. Qed.

Lemma latin_norm_key_lower (s : pystr) :
  latin_text s -> py_lower (Etap2.norm_key (Some s)) = Etap2.norm_key (Some s).
Proof.
  intros Hs. apply flat_map_fixed. intros d Hd.
  destruct (In_norm_key d s Hd) as [->|[Hk _]]; [reflexivity|].
  unfold key_letters in Hk. apply filter_In in Hk as [Hk Hst].
  apply in_flat_map in Hk as (l & Hl & Hdl).
  apply in_flat_map in Hl as (x & Hx & Hlx).
  apply In_strip in Hx.
  unfold latin_text in Hs. rewrite List.Forall_forall in Hs. specialize (Hs x Hx).
  pose proof latin_key_letters_lower as Hall.
  rewrite forallb_forall in Hall.
  assert (In x (N.of_nat <$> seq 0 384)) as Hin.
  { apply in_map_iff. exists (N.to_nat x). split; [lia|]. apply in_seq. lia. }
  specialize (Hall x Hin). rewrite forallb_forall in Hall. specialize (Hall l Hlx).
  rewrite forallb_forall in Hall. specialize (Hall d Hdl).
  rewrite Hst in Hall. cbn [negb orb] in Hall. by apply bool_decide_eq_true in Hall.
Qed.

(** On text of the Latin blocks, so on every Polish text, the key is a fixed
    point of [norm_key]. *)
Lemma norm_key_idempotent_latin (s : pystr) :
  latin_text s ->
  Etap2.norm_key (Some (Etap2.norm_key (Some s))) = Etap2.norm_key (Some s).
Proof.
  intros Hs. apply norm_key_fixed_point. by apply latin_norm_key_lower.
Qed.

(** ** A key of the map is replaced *)

Lemma strip_idem {U : UnicodeData} (s : pystr) : strip (strip s) = strip s.
Proof.
  unfold strip.
  assert (lstrip (rstrip (lstrip s)) = rstrip (lstrip s)) as ->.
  { destruct (lstrip s) as [|c r] eqn:E; [done|].
    apply lstrip_head in E. rewrite rstrip_cons_visible by done. simpl. by rewrite E. }
  apply rstrip_idem.
Qed.



(** ** The current names, in any case *)

(** The function reads a value through [lower()] and [upper()] of the
    stripped value. *)
Lemma replace_historical_eq {U : UnicodeData} (x : pystr) :
  nonempty (strip x) = true ->
  Etap1.replace_historical_voivodeship (Some x)
  = replace_by_case (py_lower (strip x)) (py_upper (strip x)).
Proof.
  intros Hne.
  unfold Etap1.replace_historical_voivodeship, Etap1.norm_missing, replace_by_case.
  cbv zeta. destruct (in_set (py_lower (strip x)) Etap1.MISSING_TOKENS); [reflexivity|].
  cbv beta iota. unfold Etap1.norm_key. rewrite Hne. cbv beta iota zeta.
  rewrite strip_idem. reflexivity.
Qed.

Lemma latin_upper_nonempty :
  forallb (fun c => nonempty (upper_char c)) latin_code_points = true.
Proof. vm_compute. reflexivity. Qed.

Lemma strip_prefix_app (u rest : pystr) : strip_prefix u (u ++ rest) = Some rest.
Proof. induction u as [|a u IH]; [done|]. cbn [app strip_prefix]. by rewrite N.eqb_refl. Qed.

Lemma In_latin_code_points c : (c < 0x180)%N -> In c latin_code_points.
Proof.
  intros Hc. apply in_map_iff. exists (N.to_nat c). split; [lia|]. apply in_seq. lia.
Qed.

(** [lower_variants] misses no text of the Latin blocks. *)
Lemma lower_variants_complete (s : pystr) :
  latin_text s ->
  forall fuel, (length (py_upper s) <= fuel)%nat ->
               In (py_lower s) (lower_variants fuel (py_upper s)).
Proof.
  induction 1 as [|c s Hc Hs IH]; intros fuel Hlen.
  - destruct fuel; by left.
  - unfold py_upper, py_lower in *. cbn [flat_map] in *.
    pose proof latin_upper_nonempty as Hne. rewrite forallb_forall in Hne.
    specialize (Hne c (In_latin_code_points c Hc)).
    destruct (upper_char c) as [|u us] eqn:Eu; [discriminate Hne|].
    rewrite length_app in Hlen. cbn [length] in Hlen.
    destruct fuel as [|fuel]; [lia|]. cbn [app lower_variants].
    apply in_flat_map. exists (lower_char c, flat_map upper_char s). split.
    + unfold lower_choices. apply list_elem_of_In, elem_of_remove_dups, list_elem_of_omap.
      exists c. split; [by apply list_elem_of_In, In_latin_code_points|].
      rewrite Eu. change (u :: us ++ flat_map upper_char s)
        with ((u :: us) ++ flat_map upper_char s).
      by rewrite strip_prefix_app.
    + cbn [fst snd]. apply in_map. apply IH. lia.
Qed.

(** Every text of the Latin blocks whose [upper()] is a current name: the
    function returns the name. *)
Lemma modern_variants_replaced :
  forallb (fun name =>
    nonempty name
    && forallb (fun low => bool_decide (replace_by_case low name = Some name))
         (lower_variants (length name) name)) modern_names = true.
Proof. vm_compute. reflexivity. Qed.

(** C9 (as amended): an input of code points below U+0180 whose [upper()],
    after stripping, is one of the 16 current names comes back as that name;
    this covers every spelling of the name in upper, lower or mixed case, and
    the spellings with a dotless i or a long s. *)
Theorem modern_name_is_upper_cased (name x : pystr) :
  In name modern_names ->
  latin_text (strip x) ->
  py_upper (strip x) = name ->
  Etap1.replace_historical_voivodeship (Some x) = Some name.
Proof.
  intros Hin Hlat Hup.
  pose proof modern_variants_replaced as Hall. rewrite forallb_forall in Hall.
  specialize (Hall name Hin). apply andb_true_iff in Hall as [Hname Hall].
  assert (nonempty (strip x) = true) as Hne.
  { destruct (strip x); [|reflexivity]. cbn in Hup. subst name. discriminate Hname. }
  rewrite replace_historical_eq by exact Hne.
  pose proof (lower_variants_complete (strip x) Hlat (length name)) as Hv.
  rewrite Hup in *. specialize (Hv (le_n _)).
  rewrite forallb_forall in Hall. specialize (Hall _ Hv).
  by apply bool_decide_eq_true in Hall.
Qed.

Lemma modern_name_is_upper_cased_witness :
  Etap1.replace_historical_voivodeship (Some (u8 " Łódzkie ")) = Some (u8 "ŁÓDZKIE").
Proof.
  apply (modern_name_is_upper_cased (u8 "ŁÓDZKIE") (u8 " Łódzkie ")).
  - vm_compute. tauto.
  - unfold latin_text. vm_compute. repeat (constructor; [reflexivity|]). constructor.
  - vm_compute. reflexivity.
Defined.

(** C9 (as stated) fails: with the Kelvin sign U+212A in the place of K the
    text is equal to "MAZOWIECKIE" without regard to case ([lower()] of both
    is "mazowieckie"), and [upper()] keeps the Kelvin sign, so the value comes
    back with it and is not the name.  The spellings with a dotless i
    (U+0131) or a long s (U+017F) do come back as the name. *)
Lemma kelvin_sign_is_kept :
  py_lower (u8 "MAZOWIEC" ++ [0x212A%N] ++ u8 "IE") = py_lower (u8 "MAZOWIECKIE")
  /\ In (u8 "MAZOWIECKIE") modern_names
  /\ Etap1.replace_historical_voivodeship (Some (u8 "MAZOWIEC" ++ [0x212A%N] ++ u8 "IE"))
     = Some (u8 "MAZOWIEC" ++ [0x212A%N] ++ u8 "IE")
  /\ Etap1.replace_historical_voivodeship (Some (u8 "MAZOWIEC" ++ [0x212A%N] ++ u8 "IE"))
     <> Some (u8 "MAZOWIECKIE")
  /\ Etap1.replace_historical_voivodeship (Some (u8 "mazowıeckıe")) = Some (u8 "MAZOWIECKIE")
  /\ Etap1.replace_historical_voivodeship (Some (u8 "śląſkie")) = Some (u8 "ŚLĄSKIE").
Proof.
  split; [vm_compute; reflexivity|]. split; [vm_compute; tauto|].
  split; [vm_compute; reflexivity|]. split; [vm_compute; discriminate|].
  split; vm_compute; reflexivity.
Qed.

(** ** The court index when the codes are written in one way *)

Section ObszarIndex.
Context {U : UnicodeData}.

Lemma obszar_step_woj obs acc code :
  Etap2.court_to_woj (Etap2.obszar_step obs acc code)
  = match region_of_group obs code with
    | Some w => <[py_upper (strip code) := w]> (Etap2.court_to_woj acc)
    | None => Etap2.court_to_woj acc
    end.
Proof.
  unfold Etap2.obszar_step, region_of_group. cbv zeta. cbn [Etap2.court_to_woj].
  destruct (Etap2.woj_vals_of _); [done|]. by destruct (bool_decide _).
Qed.

Lemma fold_court_to_woj obs (todo done_ : list pystr) acc :
  (forall c, In c todo -> py_upper (strip c) = c) ->
  (forall c, In c done_ -> Etap2.court_to_woj acc !! c = region_of_group obs c) ->
  (forall c, ~ In c done_ -> Etap2.court_to_woj acc !! c = None) ->
  forall c,
    (In c (done_ ++ todo) ->
     Etap2.court_to_woj (foldl (Etap2.obszar_step obs) acc todo) !! c = region_of_group obs c)
    /\ (~ In c (done_ ++ todo) ->
        Etap2.court_to_woj (foldl (Etap2.obszar_step obs) acc todo) !! c = None).
Proof.
  revert done_ acc. induction todo as [|k todo IH]; intros done_ acc Hcan Hin Hout c.
  - rewrite app_nil_r. cbn. split; auto.
  - cbn [foldl].
    replace (done_ ++ k :: todo) with ((done_ ++ [k]) ++ todo) by (by rewrite <- app_assoc).
    apply IH.
    + intros c' Hc'. apply Hcan. by right.
    + intros c' Hc'. rewrite obszar_step_woj, (Hcan k) by (by left).
      destruct (decide (c' = k)) as [->|Hne].
      * destruct (region_of_group obs k) eqn:Ek; [by rewrite lookup_insert_eq|].
        destruct (decide (k ∈ done_)) as [Hd|Hd]; rewrite list_elem_of_In in Hd.
        -- by rewrite Hin, Ek.
        -- by apply Hout.
      * assert (In c' done_) as Hd.
        { apply in_app_or in Hc' as [?|[?|[]]]; [done|congruence]. }
        destruct (region_of_group obs k); [rewrite lookup_insert_ne by done|]; by apply Hin.
    + intros c' Hc'. rewrite obszar_step_woj, (Hcan k) by (by left).
      assert (c' <> k /\ ~ In c' done_) as [Hne Hd].
      { split; intros ?; apply Hc'; apply in_or_app; [right; left; congruence|by left]. }
      destruct (region_of_group obs k); [rewrite lookup_insert_ne by done|]; by apply Hout.
Qed.

Lemma In_insert_key x k l : In x (Etap2.insert_key k l) <-> x = k \/ In x l.
Proof.
  induction l as [|y l IH]; cbn [Etap2.insert_key In]; [intuition congruence|].
  destruct (bool_decide (k = y)) eqn:E.
  - apply bool_decide_eq_true in E as ->. cbn [In]. intuition congruence.
  - destruct (Etap2.str_le k y); cbn [In]; [|rewrite IH]; intuition congruence.
Qed.

Lemma In_group_keys x l : In x (Etap2.group_keys l) <-> In x l.
Proof.
  unfold Etap2.group_keys. induction l as [|k l IH]; cbn [foldr In]; [tauto|].
  rewrite In_insert_key, IH. intuition congruence.
Qed.

Lemma region_of_absent_group obs code :
  ~ In code (omap (fun r => Etap2.notna (Etap2.Oznaczenie_sadu r)) obs) ->
  region_of_group obs code = None.
Proof.
  intros H. unfold region_of_group.
  assert (Etap2.group_of obs code = []) as ->; [|done].
  unfold Etap2.group_of. induction obs as [|r obs IH]; [done|]. cbn [List.filter].
  cbn [omap list_omap] in H.
  destruct (Etap2.notna (Etap2.Oznaczenie_sadu r)) as [raw|] eqn:E.
  - rewrite bool_decide_eq_false_2.
    + apply IH. intros Hin. apply H. by right.
    + intros [= ->]. apply H. by left.
  - rewrite bool_decide_eq_false_2 by done. by apply IH.
Qed.

(** With canonical codes the index holds, for every code, what the group of
    that code decides. *)
Lemma court_to_woj_canonical obs code :
  codes_canonical obs ->
  Etap2.court_to_woj (Etap2.build_obszar_index obs) !! code = region_of_group obs code.
Proof.
  intros Hcan. unfold Etap2.build_obszar_index.
  set (codes := omap (fun r => Etap2.notna (Etap2.Oznaczenie_sadu r)) obs).
  destruct (fold_court_to_woj obs (Etap2.group_keys codes) []
              {| Etap2.court_to_woj := ∅; Etap2.court_to_miejsc := ∅ |}) with (c := code)
    as [Hin Hout].
  - intros c Hc. apply (proj1 (In_group_keys _ _)) in Hc. subst codes.
    apply list_elem_of_In, list_elem_of_omap in Hc as (r & Hr & Hraw).
    apply (Hcan r); [by apply list_elem_of_In|done].
  - intros c [].
  - intros c _. apply lookup_empty.
  - cbn [app] in Hin, Hout.
    destruct (decide (code ∈ Etap2.group_keys codes)) as [H|H]; rewrite list_elem_of_In in H.
    + by apply Hin.
    + rewrite Hout by done. symmetry. apply region_of_absent_group.
      intros Hc. apply H. by apply In_group_keys.
Qed.

Lemma In_unique x l : In x (Etap2.unique l) <-> In x l.
Proof.
  induction l as [|y l IH]; cbn; [tauto|].
  rewrite filter_In, IH, negb_true_iff, bool_decide_eq_false.
  destruct (decide (x = y)) as [->|Hne]; [tauto|]. split; [tauto|]. intros [?|?]; [congruence|tauto].
Qed.

Lemma only_same_members w l l' :
  (forall x, In x l <-> In x l') -> only w l -> only w l'.
Proof.
  intros Hm [Hne Hall]. split.
  - destruct l as [|y l]; [done|]. intros ->. by apply (Hm y); left.
  - intros x Hx. apply Hall. by apply Hm.
Qed.

Lemma region_of_group_only obs code w :
  region_of_group obs code = Some w <-> only w (Etap2.woj_vals_of (Etap2.group_of obs code)).
Proof.
  unfold region_of_group.
  remember (Etap2.woj_vals_of (Etap2.group_of obs code)) as vals eqn:Ev. clear Ev.
  destruct vals as [|v vals'].
  { split; [done|]. by intros [? _]. }
  split.
  - destruct (bool_decide _) eqn:Es; [|done]. intros [= ->].
    apply bool_decide_eq_true in Es. apply size_1_elem_of in Es as [y Hy].
    split; [done|]. intros x Hx.
    assert (x ∈ (list_to_set (w :: vals') : gset pystr)) as Hx'
      by (by apply elem_of_list_to_set, list_elem_of_In).
    assert (w ∈ (list_to_set (w :: vals') : gset pystr)) as Hw'
      by (apply elem_of_list_to_set; left).
    rewrite Hy in Hx', Hw'. apply elem_of_singleton in Hx', Hw'. congruence.
  - intros [_ Hall].
    assert ((list_to_set (v :: vals') : gset pystr) = {[w]}) as Hset.
    { apply set_eq. intros x. rewrite elem_of_list_to_set, elem_of_singleton, list_elem_of_In.
      split; [by apply Hall|]. intros ->. left. apply Hall. by left. }
    rewrite Hset, size_singleton, bool_decide_eq_true_2 by done.
    f_equal. apply Hall. by left.
Qed.
Lemma remove_dups_only (l : list pystr) w : remove_dups l = [w] <-> only w l.
Proof.
  split.
  - intros H. split.
    + intros ->. done.
    + intros x Hx. apply list_elem_of_In, elem_of_remove_dups in Hx.
      rewrite H in Hx. by apply list_elem_of_singleton in Hx.
  - intros [Hne Hall].
    pose proof (NoDup_remove_dups l) as Hnd.
    assert (forall x, x ∈ remove_dups l -> x = w) as Hall'.
    { intros x Hx. apply Hall, list_elem_of_In. by apply elem_of_remove_dups. }
    destruct (remove_dups l) as [|y r] eqn:E.
    + destruct l as [|z l]; [done|].
      assert (z ∈ remove_dups (z :: l)) as Hz by (apply elem_of_remove_dups; left).
      rewrite E in Hz. by apply elem_of_nil in Hz.
    + assert (y = w) as -> by (apply Hall'; left).
      destruct r as [|z r]; [done|].
      assert (z = w) as -> by (apply Hall'; right; left).
      apply NoDup_cons in Hnd as [Hnd _]. destruct Hnd. left.
Qed.

Lemma omap_cons_eq {A B} (f : A -> option B) (x : A) (l : list A) :
  omap f (x :: l) = match f x with Some y => y :: omap f l | None => omap f l end.
Proof. reflexivity. Qed.

Lemma regions_of_court_canonical obs code :
  codes_canonical obs ->
  omap (fun r =>
          match Etap2.notna (Etap2.Oznaczenie_sadu r) with
          | Some raw =>
              if bool_decide (py_upper (strip raw) = code)
              then strip <$> Etap2.notna (Etap2.obs_Wojewodztwo r)
              else None
          | None => None
          end) obs
  = strip <$> omap (fun r => Etap2.notna (Etap2.obs_Wojewodztwo r)) (Etap2.group_of obs code).
Proof.
  intros Hcan. unfold Etap2.group_of. induction obs as [|r obs IH]; [done|].
  assert (codes_canonical obs) as Hcan'.
  { intros r' raw Hr'. apply Hcan. by right. }
  specialize (IH Hcan'). cbn [List.filter]. rewrite omap_cons_eq, IH. clear IH.
  destruct (Etap2.notna (Etap2.Oznaczenie_sadu r)) as [raw|] eqn:E.
  - rewrite (Hcan r raw) by (done || by left).
    destruct (decide (raw = code)) as [->|Hne].
    + rewrite !bool_decide_eq_true_2 by done. rewrite omap_cons_eq.
      by destruct (Etap2.notna (Etap2.obs_Wojewodztwo r)).
    + rewrite !bool_decide_eq_false_2 by congruence. done.
  - rewrite bool_decide_eq_false_2 by done. done.
Qed.

(** X14: on a sheet whose codes are canonical the index records a region
    for a code exactly when the distinct non-empty regions of the rows of that
    code are one region, and it records that region. *)
Lemma court_region_iff_one_region obs code w :
  codes_canonical obs ->
  Etap2.court_to_woj (Etap2.build_obszar_index obs) !! code = Some w
  <-> regions_of_court obs code = [w].
Proof.
  intros Hcan. rewrite court_to_woj_canonical by done.
  rewrite region_of_group_only. unfold regions_of_court.
  rewrite remove_dups_only, regions_of_court_canonical by done.
  unfold Etap2.woj_vals_of.
  split; apply only_same_members; intros x;
    rewrite !filter_In, !in_map_iff; split; intros [(y & Hy & Hin) Hp]; (split; [|done]);
    exists y; (split; [done|]); by apply In_unique.
Qed.
End ObszarIndex.

(** ** The court index when the codes are written in several ways *)

(** C8 (evaluation at failing inputs): the rows are grouped by the code as
    written and the dictionary is keyed by the code stripped and upper-cased;
    with "WR1K" and "wr1k" in the sheet the court has two regions and the
    index still records one: the region of the group that comes last, or the
    one an earlier group left. *)
Theorem ambiguous_court_keeps_a_region :
  let obs1 := [ obszar_row_of "WR1K" "DOLNOŚLĄSKIE" "wrocławski" "Kobierzyce" "Lipa";
                obszar_row_of "wr1k" "OPOLSKIE" "opolski" "Niemodlin" "Lipno" ] in
  let obs2 := [ obszar_row_of "WR1K" "DOLNOŚLĄSKIE" "wrocławski" "Kobierzyce" "Lipa";
                obszar_row_of "wr1k" "DOLNOŚLĄSKIE" "wrocławski" "Kobierzyce" "Lipa";
                obszar_row_of "wr1k" "OPOLSKIE" "opolski" "Niemodlin" "Lipno" ] in
  regions_of_court obs1 (u8 "WR1K") = [u8 "DOLNOŚLĄSKIE"; u8 "OPOLSKIE"]
  /\ Etap2.court_to_woj (Etap2.build_obszar_index obs1) !! u8 "WR1K" = Some (u8 "OPOLSKIE")
  /\ regions_of_court obs2 (u8 "WR1K") = [u8 "DOLNOŚLĄSKIE"; u8 "OPOLSKIE"]
  /\ Etap2.court_to_woj (Etap2.build_obszar_index obs2) !! u8 "WR1K"
     = Some (u8 "DOLNOŚLĄSKIE").
Proof. vm_compute. repeat split; reflexivity. Qed.

(** * Further properties of the two stages *)

(** ** Missing values and keys *)

Section Normalisation.
Context {U : UnicodeData}.

Lemma in_set_empty_missing :
  in_set [] Etap1.MISSING_TOKENS = true /\ in_set [] Etap2.MISSING_TOKENS = true.
Proof. split; vm_compute; reflexivity. Qed.

(** X1: what [norm_missing] (either stage) lets through is a non-empty,
    stripped text, and [norm_missing] leaves it as it is. *)
Theorem norm_missing_is_normal :
  (forall x s, Etap1.norm_missing x = Some s ->
     nonempty s = true /\ strip s = s /\ Etap1.norm_missing (Some s) = Some s)
  /\ (forall x s, Etap2.norm_missing x = Some s ->
        nonempty s = true /\ strip s = s /\ Etap2.norm_missing (Some s) = Some s).
Proof.
  destruct in_set_empty_missing as [E1 E2].
  split; intros x s; (destruct x as [x|]; [|intros H; discriminate H]).
  - unfold Etap1.norm_missing. cbv zeta.
    destruct (in_set (py_lower (strip x)) _) eqn:E; [intros H; discriminate H|].
    intros [= <-]. rewrite strip_idem, E. split; [|split; reflexivity].
    destruct (strip x); [|reflexivity].
    change (py_lower []) with (@nil N) in E. congruence.
  - unfold Etap2.norm_missing. cbv zeta.
    destruct (in_set (py_lower (strip x)) _) eqn:E; [intros H; discriminate H|].
    intros [= <-]. rewrite strip_idem, E. split; [|split; reflexivity].
    destruct (strip x); [|reflexivity].
    change (py_lower []) with (@nil N) in E. congruence.
Qed.

(** X2: a strict key of stage 1 is never empty, is stripped, and is made of
    the letters a-z and single spaces U+0020 only. *)
Theorem strict_key_alphabet (s : option pystr) (k : pystr) :
  Etap1.norm_key s = Some k ->
  nonempty k = true /\ strip k = k
  /\ forall c, In c k -> c = 0x20%N \/ (0x61 <= c <= 0x7A)%N.
Proof.
  unfold Etap1.norm_key. destruct s as [s|]; [|done].
  destruct (nonempty s); [|done]. cbv zeta. unfold or_none.
  destruct (nonempty (strip _)) eqn:Ene; [|done]. intros [= <-].
  split; [done|]. split; [apply strip_idem|].
  intros c Hc. apply In_strip, In_sub_ws in Hc as [->|[Hc Hws]]; [by left|].
  apply in_map_iff in Hc as (d & Hd & _).
  unfold Etap1.not_az_ws in Hd. destruct (_ || isspace d) eqn:Haz; cbn [negb] in Hd.
  - subst d. rewrite Hws, orb_false_r in Haz. right.
    apply andb_true_iff in Haz as [H1 H2]. apply N.leb_le in H1, H2. lia.
  - by left.
Qed.
End Normalisation.

Lemma norm_missing_is_normal_witness :
  nonempty (u8 "Brak ulicy") = true /\ strip (u8 "Brak ulicy") = u8 "Brak ulicy"
  /\ Etap2.norm_missing (Some (u8 "Brak ulicy")) = Some (u8 "Brak ulicy").
Proof.
  apply (proj2 (norm_missing_is_normal (U := latin_ucd)) (Some (u8 "  Brak ulicy "))).
  vm_compute. reflexivity.
Defined.

Lemma strict_key_alphabet_witness :
  nonempty (u8 "swietokrzyskie ii") = true /\ strip (u8 "swietokrzyskie ii") = u8 "swietokrzyskie ii"
  /\ forall c, In c (u8 "swietokrzyskie ii") -> c = 0x20%N \/ (0x61 <= c <= 0x7A)%N.
Proof.
  apply (strict_key_alphabet (Some (u8 " Świętokrzyskie-2 II "))).
  vm_compute. reflexivity.
Defined.

Section KeyNormalForm.
Context {U : UnicodeData} {L : UnicodeLaws U}.

Lemma sub_ws_false_true (w : pystr) : lstrip w = w -> sub_ws false w = sub_ws true w.
Proof.
  destruct w as [|c r]; [done|]. cbn [lstrip sub_ws].
  destruct (isspace c) eqn:E; [|done].
  intros H. assert (In c (lstrip r)) as Hc by (rewrite H; by left).
  exfalso. clear -H. assert (length (lstrip r) <= length r)%nat as Hlen.
  { clear. induction r as [|d r IH]; cbn; [lia|]. destruct (isspace d); cbn; lia. }
  rewrite H in Hlen. cbn in Hlen. lia.
Qed.

(** X3: a key of stage 2 has no white space at its ends, no run of white
    space inside, no white space other than U+0020 and no combining mark; and
    white space around the text does not change its key. *)
Theorem norm_key_normal_form (s : pystr) :
  let k := Etap2.norm_key (Some s) in
  strip k = k
  /\ sub_ws false k = k
  /\ (forall c, In c k -> combining c = 0%N /\ (isspace c = true -> c = 0x20%N))
  /\ Etap2.norm_key (Some (strip s)) = k.
Proof.
  cbv zeta. split; [apply strip_norm_key|]. split; [|split].
  - rewrite sub_ws_false_true.
    + rewrite norm_key_eq. apply sub_ws_idem.
    + rewrite norm_key_eq. apply lstrip_sub_ws_true.
  - intros c Hc. split; [by apply (norm_key_letter_fixed c s)|].
    destruct (In_norm_key c s Hc) as [->|[_ Hv]]; [done|congruence].
  - unfold Etap2.norm_key.
    change (or_empty (Some (strip s))) with (strip s). change (or_empty (Some s)) with s.
    cbv zeta. by rewrite strip_idem.
Qed.
End KeyNormalForm.

Lemma norm_key_normal_form_witness :
  strip (Etap2.norm_key (Some (u8 "  Nowy   Sącz "))) = Etap2.norm_key (Some (u8 "  Nowy   Sącz ")).
Proof.
  exact (proj1 (norm_key_normal_form (U := latin_ucd) (u8 "  Nowy   Sącz "))).
Defined.

(** ** The court code of a land-register number *)

Section CourtCode.
Context {U : UnicodeData}.

Lemma ws_star_inv {A} (k : pystr -> option A) (s : pystr) (r : A) :
  Etap2.ws_star k s = Some r -> exists s', k s' = Some r.
Proof.
  induction s as [|c s IH]; cbn; [eauto|].
  destruct (isspace c); [|eauto].
  destruct (Etap2.ws_star k s) eqn:E; [|eauto].
  intros [= <-]. by apply IH.
Qed.

(** X4: a court code, when there is one, is four characters: two letters, a
    decimal digit and a letter; numbers that are empty or [None] have none. *)
Theorem court_code_shape (nr_kw : option pystr) (code : pystr) :
  Etap2.extract_court_code nr_kw = Some code ->
  truthy nr_kw = true
  /\ exists a b d e,
       code = [a; b; d; e]
       /\ Etap2.AZ_ignorecase a = true /\ Etap2.AZ_ignorecase b = true
       /\ isdecimal d = true /\ Etap2.AZ_ignorecase e = true.
Proof.
  unfold Etap2.extract_court_code. destruct (truthy nr_kw); [|done].
  intros H. split; [done|]. unfold Etap2.KW_COURT_RE in H.
  apply ws_star_inv in H as (s1 & H).
  destruct s1 as [|a [|b [|d [|e s2]]]]; try discriminate.
  destruct (_ && Etap2.AZ_ignorecase e) eqn:Hcls; [|done].
  apply ws_star_inv in H as (s3 & H).
  destruct s3 as [|c s3]; [done|]. destruct (c =? 0x2F)%N; [|done].
  injection H as <-. exists a, b, d, e.
  repeat (apply andb_true_iff in Hcls as [Hcls ?]). by repeat split.
Qed.
End CourtCode.

Lemma court_code_shape_witness :
  truthy (Some (u8 " ka1k / 00012345/6")) = true
  /\ exists a b d e,
       u8 "KA1K" = [a; b; d; e]
       /\ Etap2.AZ_ignorecase a = true /\ Etap2.AZ_ignorecase b = true
       /\ isdecimal d = true /\ Etap2.AZ_ignorecase e = true.
Proof.
  apply (court_code_shape (Some (u8 " ka1k / 00012345/6")) (u8 "KA1K")).
  vm_compute. reflexivity.
Defined.

(** ** What a guess is made of *)

Section GuessSound.
Context {U : UnicodeData}.

Lemma return_if_known_inv keys canon k r :
  Etap2.return_if_known keys canon k = Some r -> k ∈ keys /\ r = getitem canon k.
Proof.
  unfold Etap2.return_if_known, in_set.
  destruct (bool_decide (k ∈ keys)) eqn:E; [|done].
  apply bool_decide_eq_true in E. by intros [= <-].
Qed.

Lemma guess_inv hint keys canon :
  Etap2.guess_miejscowosc_from_hint hint keys canon = Ok None
  \/ exists k, candidate hint k /\ k ∈ keys
               /\ Etap2.guess_miejscowosc_from_hint hint keys canon = Some <$> getitem canon k.
Proof.
  unfold Etap2.guess_miejscowosc_from_hint. destruct (negb _); [by left|].
  destruct (Etap2.segment_stage hint keys canon) as [r|] eqn:Es.
  { right. unfold Etap2.segment_stage in Es.
    apply first_return_inv in Es as (sg & Hsg & Hr).
    apply return_if_known_inv in Hr as [Hk ->]. rewrite <- in_rev in Hsg.
    exists (Etap2.segment_key sg). split; [|done]. left. by apply in_map. }
  destruct (Etap2.ngram_stage _ keys canon) as [r|] eqn:En; [|by left].
  right. unfold Etap2.ngram_stage in En. apply first_return_inv in En as (n & Hn & Hb).
  destruct (length _ <? n)%nat eqn:El; [done|]. apply Nat.ltb_ge in El.
  apply first_return_inv in Hb as (i & Hi & Hr). apply in_seq in Hi.
  apply return_if_known_inv in Hr as [Hk ->].
  eexists. split; [|done]. right. exists n, i.
  split; [simpl in Hn; lia|]. split; [lia|done].
Qed.

Lemma guess_some_inv hint keys canon name :
  Etap2.guess_miejscowosc_from_hint hint keys canon = Ok (Some name) ->
  exists k, candidate hint k /\ k ∈ keys /\ canon !! k = Some name.
Proof.
  intros H. destruct (guess_inv hint keys canon) as [E|(k & Hc & Hk & E)];
    rewrite E in H; [discriminate H|].
  exists k. split; [done|]. split; [done|].
  unfold getitem in H. destruct (canon !! k); [|discriminate H]. by injection H as ->.
Qed.

(** X5: a guessed locality is always the canonical name of a candidate key
    of the hint (the key of a segment without its street prefix, or an n-gram
    of at most four words) that is in the key set: nothing is made up. *)
Theorem guess_is_sound hint keys canon name :
  Etap2.guess_miejscowosc_from_hint hint keys canon = Ok (Some name) ->
  exists k, candidate hint k /\ k ∈ keys /\ canon !! k = Some name.
Proof.
  intros H. destruct (guess_inv hint keys canon) as [E|(k & Hc & Hk & E)].
  - rewrite E in H. discriminate H.
  - exists k. split; [exact Hc|]. split; [exact Hk|].
    rewrite E in H. unfold getitem in H.
    destruct (canon !! k) as [v|]; [|discriminate H].
    injection H as ->. reflexivity.
Qed.

(** X6: the subscript [miejsc_key_to_canon[...]] raises [KeyError] only for a
    candidate key that is in the key set and not in the dictionary; with the
    key set of the dictionary itself, as [main] builds both, it never does. *)
Theorem guess_key_error_only_on_unmapped_key hint keys canon :
  (Etap2.guess_miejscowosc_from_hint hint keys canon = KeyError ->
   exists k, candidate hint k /\ k ∈ keys /\ canon !! k = None)
  /\ (keys = dom canon ->
      exists g, Etap2.guess_miejscowosc_from_hint hint keys canon = Ok g).
Proof.
  split; [|apply guess_ok].
  intros H. destruct (guess_inv hint keys canon) as [E|(k & Hc & Hk & E)];
    rewrite E in H; [discriminate H|].
  exists k. split; [done|]. split; [done|].
  unfold getitem in H. by destruct (canon !! k).
Qed.
End GuessSound.

Lemma guess_is_sound_witness :
  exists k, candidate (u8 "ul. Długa 5, Nowy Sącz") k
            /\ k ∈ ({[ u8 "nowy sacz" ]} : gset pystr)
            /\ ({[ u8 "nowy sacz" := u8 "NOWY SĄCZ" ]} : gmap pystr pystr) !! k
               = Some (u8 "NOWY SĄCZ").
Proof.
  apply (guess_is_sound (U := latin_ucd)). vm_compute. reflexivity.
Defined.

Lemma guess_key_error_witness :
  exists k, candidate (u8 "Warszawa") k /\ k ∈ ({[ u8 "warszawa" ]} : gset pystr)
            /\ (∅ : gmap pystr pystr) !! k = None.
Proof.
  apply (proj1 (guess_key_error_only_on_unmapped_key (U := latin_ucd)
                  (u8 "Warszawa") {[ u8 "warszawa" ]} ∅)).
  vm_compute. reflexivity.
Defined.

(** ** Invariants of the TERYT index *)

Section TerytInvariants.
Context {U : UnicodeData}.

Lemma canon_is_a_row teryt k name :
  Etap2.miejsc_key_to_canon (Etap2.build_teryt_index teryt) !! k = Some name ->
  exists r rest,
    rows_of_key k teryt = r :: rest /\ In r teryt /\ row_key r = Some k /\ locality r = name
    /\ Etap2.miejsc_to_rows (Etap2.build_teryt_index teryt) !! k
       = Some (admin_units r :: (admin_units <$> rest)).
Proof.
  unfold Etap2.build_teryt_index. cbn [Etap2.miejsc_key_to_canon Etap2.miejsc_to_rows].
  destruct (teryt_fold_spec teryt k) as [H1 H2]. cbv zeta in H1, H2. rewrite H1, H2.
  destruct (rows_of_key k teryt) as [|r rest] eqn:Er; [done|].
  cbn [fmap list_fmap head]. intros [= <-]. exists r, rest.
  assert (In r (rows_of_key k teryt)) as Hr by (rewrite Er; by left).
  unfold rows_of_key in Hr. apply filter_In in Hr as [Hin Hk].
  apply bool_decide_eq_true in Hk. done.
Qed.

Lemma row_key_inv r k :
  row_key r = Some k ->
  nonempty (locality r) = true /\ nonempty k = true /\ Etap2.norm_key (Some (locality r)) = k.
Proof.
  unfold row_key, or_none. destruct (nonempty (locality r)); [|done].
  destruct (nonempty (Etap2.norm_key _)) eqn:E; [|done]. intros [= <-]. done.
Qed.

(** X7: in the index that [build_teryt_index] returns, the name kept for a
    key is never empty, is stripped, and has that key as its own key; the key
    is never empty, is in the key set and has at least one record. *)
Theorem teryt_index_invariants teryt k name :
  let ix := Etap2.build_teryt_index teryt in
  Etap2.miejsc_key_to_canon ix !! k = Some name ->
  nonempty name = true /\ strip name = name
  /\ nonempty k = true /\ Etap2.norm_key (Some name) = k
  /\ k ∈ Etap2.miejsc_keys_set ix
  /\ exists r rs, Etap2.miejsc_to_rows ix !! k = Some (r :: rs).
Proof.
  intros ix H. pose proof H as H'.
  apply canon_is_a_row in H' as (r & rest & _ & _ & Hk & <- & Hrows).
  apply row_key_inv in Hk as (Hn & Hnk & Hkey).
  split; [done|]. split; [apply strip_idem|]. split; [done|]. split; [done|].
  split; [|by eauto].
  subst ix. unfold Etap2.build_teryt_index. cbn [Etap2.miejsc_keys_set].
  apply elem_of_dom. by eexists.
Qed.

(** X8: a locality guessed with the TERYT index as candidates is the
    locality of a row of the table, as spelled there, and looking up the key
    of the guess, as [main] does next, finds the records of that locality;
    without a wanted region [fill_from_teryt] reads the first of them. *)
Theorem guessed_locality_is_in_teryt teryt hint name :
  let ix := Etap2.build_teryt_index teryt in
  Etap2.guess_miejscowosc_from_hint hint
    (Etap2.miejsc_keys_set ix) (Etap2.miejsc_key_to_canon ix) = Ok (Some name) ->
  truthy (Some name) = true
  /\ exists r rs,
       In r teryt /\ locality r = name
       /\ Etap2.miejsc_to_rows ix !! Etap2.norm_key (Some name) = Some (admin_units r :: rs)
       /\ Etap2.fill_from_teryt (Etap2.norm_key (Some name)) None (Etap2.miejsc_to_rows ix)
          = (or_none (admin_units r).1.1, or_none (admin_units r).1.2,
             or_none (admin_units r).2).
Proof.
  intros ix H. apply guess_some_inv in H as (k & _ & _ & H).
  apply canon_is_a_row in H as (r & rest & _ & Hin & Hk & <- & Hrows).
  apply row_key_inv in Hk as (Hn & _ & Hkey).
  split; [done|]. exists r, (admin_units <$> rest).
  split; [done|]. split; [done|]. subst ix. rewrite Hkey. split; [done|].
  unfold Etap2.fill_from_teryt. rewrite Hrows. cbn [default truthy].
  by destruct (admin_units r) as [[w p] g].
Qed.

Lemma head_filter_find {A} (f : A -> bool) (l : list A) :
  head (List.filter f l) = List.find f l.
Proof. induction l as [|x l IH]; [done|]. cbn. by destruct (f x). Qed.

(** X9: [fill_from_teryt] reads one record: the first one of the wanted
    region, when a region is wanted and a record has it, the first one
    otherwise; empty fields come out as [None]; an unknown key, or a key
    without records, gives three times [None]. *)
Theorem fill_from_teryt_reads_chosen_row miejsc_key wanted_woj miejsc_to_rows :
  Etap2.fill_from_teryt miejsc_key wanted_woj miejsc_to_rows
  = match chosen_row wanted_woj (default [] (miejsc_to_rows !! miejsc_key)) with
    | Some (woj, powiat, gmina) => (or_none woj, or_none powiat, or_none gmina)
    | None => (None, None, None)
    end.
Proof.
  unfold Etap2.fill_from_teryt, chosen_row. cbv zeta.
  destruct (default [] (miejsc_to_rows !! miejsc_key)) as [|r0 rs].
  { destruct (truthy wanted_woj); done. }
  destruct (truthy wanted_woj); [|done].
  rewrite <- head_filter_find.
  by destruct (List.filter _ (r0 :: rs)) as [|r1 rs1].
Qed.
End TerytInvariants.

Lemma teryt_index_invariants_witness :
  nonempty (u8 "Nowy Sącz") = true /\ strip (u8 "Nowy Sącz") = u8 "Nowy Sącz"
  /\ nonempty (u8 "nowy sacz") = true
  /\ Etap2.norm_key (Some (u8 "Nowy Sącz")) = u8 "nowy sacz"
  /\ u8 "nowy sacz" ∈ Etap2.miejsc_keys_set
       (Etap2.build_teryt_index
          [teryt_row_of "MAŁOPOLSKIE" "Nowy Sącz" "Nowy Sącz" " Nowy Sącz "])
  /\ exists r rs,
       Etap2.miejsc_to_rows
         (Etap2.build_teryt_index
            [teryt_row_of "MAŁOPOLSKIE" "Nowy Sącz" "Nowy Sącz" " Nowy Sącz "])
       !! u8 "nowy sacz" = Some (r :: rs).
Proof.
  apply (teryt_index_invariants (U := latin_ucd)
           [teryt_row_of "MAŁOPOLSKIE" "Nowy Sącz" "Nowy Sącz" " Nowy Sącz "]).
  vm_compute. reflexivity.
Defined.

Lemma guessed_locality_is_in_teryt_witness :
  truthy (Some (u8 "Warszawa")) = true
  /\ exists r rs,
       In r sample_teryt /\ locality r = u8 "Warszawa"
       /\ Etap2.miejsc_to_rows (Etap2.build_teryt_index sample_teryt)
          !! Etap2.norm_key (Some (u8 "Warszawa")) = Some (admin_units r :: rs)
       /\ Etap2.fill_from_teryt (Etap2.norm_key (Some (u8 "Warszawa"))) None
            (Etap2.miejsc_to_rows (Etap2.build_teryt_index sample_teryt))
          = (or_none (admin_units r).1.1, or_none (admin_units r).1.2,
             or_none (admin_units r).2).
Proof.
  apply (guessed_locality_is_in_teryt (U := latin_ucd) sample_teryt (u8 "Lipa, Warszawa")).
  vm_compute. reflexivity.
Defined.

(** ** Invariants of the court index *)

Section CourtIndex.
Context {U : UnicodeData}.

Lemma head_app_or {A} (l1 l2 : list A) :
  head (l1 ++ l2) = match head l1 with Some x => Some x | None => head l2 end.
Proof. by destruct l1. Qed.

Lemma court_map_step_skip m r :
  Etap2.not_nan (court_locality r) = false -> Etap2.court_map_step m r = m.
Proof. unfold Etap2.court_map_step, court_locality. cbv zeta. by intros ->. Qed.

Lemma court_map_step_key m r :
  Etap2.not_nan (court_locality r) = true ->
  Etap2.court_map_step m r
  = setdefault m (Etap2.norm_key (Some (court_locality r))) (court_record r).
Proof.
  unfold Etap2.court_map_step, court_record, court_locality. cbv zeta. by intros ->.
Qed.

(** The dictionary of a group: for every key the record of the first row of
    the group that produces it. *)
Lemma court_map_fold_spec (g : list Etap2.obszar_row) (k : pystr) :
  foldl Etap2.court_map_step ∅ g !! k = head (court_record <$> court_rows_of_key k g).
Proof.
  induction g as [|r l IH] using rev_ind; [done|].
  rewrite foldl_app. cbn [foldl]. unfold court_rows_of_key in *.
  rewrite List.filter_app. cbn [List.filter]. rewrite fmap_app, head_app_or, <- IH.
  destruct (Etap2.not_nan (court_locality r)) eqn:En; cbn [andb].
  - rewrite court_map_step_key by done. unfold setdefault.
    destruct (decide (Etap2.norm_key (Some (court_locality r)) = k)) as [Hk|Hne].
    + rewrite bool_decide_eq_true_2 by done. rewrite Hk.
      destruct (foldl Etap2.court_map_step ∅ l !! k) eqn:E; [done|].
      by rewrite lookup_insert_eq.
    + rewrite bool_decide_eq_false_2 by done. cbn [fmap list_fmap head].
      destruct (foldl Etap2.court_map_step ∅ l !! Etap2.norm_key _) eqn:E.
      * by destruct (foldl Etap2.court_map_step ∅ l !! k).
      * rewrite lookup_insert_ne by done.
        by destruct (foldl Etap2.court_map_step ∅ l !! k).
  - rewrite court_map_step_skip by done. cbn [fmap list_fmap head].
    by destruct (foldl Etap2.court_map_step ∅ l !! k).
Qed.

Lemma obszar_step_miejsc obs acc code :
  Etap2.court_to_miejsc (Etap2.obszar_step obs acc code)
  = <[py_upper (strip code) := foldl Etap2.court_map_step ∅ (Etap2.group_of obs code)]>
      (Etap2.court_to_miejsc acc).
Proof. reflexivity. Qed.

Lemma obszar_step_ok obs acc raw :
  In raw (court_codes obs) -> court_index_ok obs acc ->
  court_index_ok obs (Etap2.obszar_step obs acc raw).
Proof.
  intros Hraw [Hm Hw]. split.
  - intros c m. rewrite obszar_step_miejsc.
    destruct (decide (py_upper (strip raw) = c)) as [<-|Hne].
    + rewrite lookup_insert_eq. intros [= <-]. by exists raw.
    + rewrite lookup_insert_ne by done. apply Hm.
  - intros c w. rewrite obszar_step_woj, obszar_step_miejsc.
    destruct (decide (py_upper (strip raw) = c)) as [<-|Hne].
    + rewrite lookup_insert_eq. intros H. split; [by eexists|].
      destruct (region_of_group obs raw) as [w0|] eqn:Er.
      * rewrite lookup_insert_eq in H. injection H as <-. by exists raw.
      * by apply Hw.
    + rewrite lookup_insert_ne by done.
      destruct (region_of_group obs raw) as [w0|];
        [rewrite lookup_insert_ne by done|]; apply Hw.
Qed.

Lemma obszar_fold_ok obs todo acc :
  (forall raw, In raw todo -> In raw (court_codes obs)) ->
  court_index_ok obs acc -> court_index_ok obs (foldl (Etap2.obszar_step obs) acc todo).
Proof.
  revert acc. induction todo as [|raw todo IH]; intros acc Hin Hacc; [done|].
  cbn [foldl]. apply IH.
  - intros raw' ?. apply Hin. by right.
  - apply obszar_step_ok; [|done]. apply Hin. by left.
Qed.

Lemma build_obszar_index_ok obs : court_index_ok obs (Etap2.build_obszar_index obs).
Proof.
  unfold Etap2.build_obszar_index. apply obszar_fold_ok.
  - intros raw Hraw. by apply In_group_keys.
  - split; intros c x H; cbn in H; by rewrite lookup_empty in H.
Qed.

Lemma region_of_group_inv obs raw w :
  region_of_group obs raw = Some w ->
  Etap2.not_nan w = true
  /\ exists r x, In r obs /\ Etap2.notna (Etap2.Oznaczenie_sadu r) = Some raw
                 /\ Etap2.notna (Etap2.obs_Wojewodztwo r) = Some x /\ strip x = w.
Proof.
  intros H. apply region_of_group_only in H as [Hne Hall].
  destruct (Etap2.woj_vals_of (Etap2.group_of obs raw)) as [|v vs] eqn:Ev; [done|].
  assert (v = w) as -> by (apply Hall; by left).
  assert (In w (Etap2.woj_vals_of (Etap2.group_of obs raw))) as Hin by (rewrite Ev; by left).
  unfold Etap2.woj_vals_of in Hin. apply filter_In in Hin as [Hin Hnn].
  split; [done|]. apply in_map_iff in Hin as (x & Hx & Hin).
  apply In_unique, list_elem_of_In, list_elem_of_omap in Hin as (r & Hr & Hrx).
  apply list_elem_of_In in Hr. unfold Etap2.group_of in Hr.
  apply filter_In in Hr as [Hr Hcode]. apply bool_decide_eq_true in Hcode.
  by exists r, x.
Qed.

(** X10: the localities that the index holds for a court code are those of
    one group of rows of the sheet, a group whose code gives that code when
    stripped and upper-cased; a key has the record of the first row of the
    group that produces it, later rows with the same key are ignored. *)
Theorem court_localities_first_wins obs code m :
  Etap2.court_to_miejsc (Etap2.build_obszar_index obs) !! code = Some m ->
  exists raw,
    In raw (court_codes obs) /\ py_upper (strip raw) = code
    /\ forall k, m !! k = head (court_record <$> court_rows_of_key k (Etap2.group_of obs raw)).
Proof.
  intros H. destruct (build_obszar_index_ok obs) as [Hm _].
  destruct (Hm code m H) as (raw & Hraw & Hcode & ->).
  exists raw. split; [done|]. split; [done|]. intros k. apply court_map_fold_spec.
Qed.

(** X11: a region that the index holds for a court code is never blank nor
    the text nan, is stripped, and is the stripped region of a row of the
    sheet whose code gives that code; and a code with a region has a
    dictionary of localities. *)
Theorem court_region_is_a_region_of_the_court obs code w :
  Etap2.court_to_woj (Etap2.build_obszar_index obs) !! code = Some w ->
  Etap2.not_nan w = true /\ strip w = w
  /\ is_Some (Etap2.court_to_miejsc (Etap2.build_obszar_index obs) !! code)
  /\ exists r raw x,
       In r obs /\ Etap2.notna (Etap2.Oznaczenie_sadu r) = Some raw
       /\ py_upper (strip raw) = code
       /\ Etap2.notna (Etap2.obs_Wojewodztwo r) = Some x /\ strip x = w.
Proof.
  intros H. destruct (build_obszar_index_ok obs) as [_ Hw].
  destruct (Hw code w H) as (Hsome & raw & _ & Hcode & Hreg).
  apply region_of_group_inv in Hreg as (Hnn & r & x & Hr & Hraw & Hx & Hs).
  split; [done|]. split; [rewrite <- Hs; apply strip_idem|]. split; [done|].
  by exists r, raw, x.
Qed.

(** X12: in the court step of [main] the record of the guessed locality is
    read with [m_map.get(k, ('', '', '', ''))]; with an index built by
    [build_obszar_index] the default is never used: the key of a locality
    guessed from the dictionary of a court is a key of that dictionary, and
    its record carries that locality. *)
Theorem court_lookup_never_defaults obs code m hint name :
  Etap2.court_to_miejsc (Etap2.build_obszar_index obs) !! code = Some m ->
  Etap2.guess_miejscowosc_from_hint hint (dom m) ((fun v => v.2) <$> m) = Ok (Some name) ->
  exists woj_o pow_o gmi_o, m !! Etap2.norm_key (Some name) = Some (woj_o, pow_o, gmi_o, name).
Proof.
  intros H Hg. destruct (build_obszar_index_ok obs) as [Hm _].
  destruct (Hm code m H) as (raw & _ & _ & ->).
  apply guess_some_inv in Hg as (k & _ & _ & Hk). rewrite lookup_fmap in Hk.
  destruct (foldl Etap2.court_map_step ∅ (Etap2.group_of obs raw) !! k) as [e|] eqn:E;
    [|discriminate Hk].
  injection Hk as Hname. pose proof E as E'. rewrite court_map_fold_spec in E'.
  destruct (court_rows_of_key k (Etap2.group_of obs raw)) as [|r0 rest] eqn:Er;
    [discriminate E'|].
  injection E' as <-.
  assert (In r0 (court_rows_of_key k (Etap2.group_of obs raw))) as Hr0
    by (rewrite Er; by left).
  unfold court_rows_of_key in Hr0. apply filter_In in Hr0 as [_ Hr0].
  apply andb_true_iff in Hr0 as [_ Hkey]. apply bool_decide_eq_true in Hkey.
  cbn [court_record snd] in Hname. rewrite <- Hname, Hkey, E.
  by eexists _, _, _.
Qed.
End CourtIndex.

Lemma court_localities_first_wins_witness :
  exists raw,
    In raw (court_codes sample_obszar) /\ py_upper (strip raw) = u8 "WR1K"
    /\ forall k, foldl Etap2.court_map_step ∅ sample_obszar !! k
                 = head (court_record <$> court_rows_of_key k (Etap2.group_of sample_obszar raw)).
Proof.
  apply (court_localities_first_wins (U := latin_ucd) sample_obszar).
  vm_compute. reflexivity.
Defined.

Lemma court_region_is_a_region_of_the_court_witness :
  Etap2.not_nan (u8 "DOLNOŚLĄSKIE") = true /\ strip (u8 "DOLNOŚLĄSKIE") = u8 "DOLNOŚLĄSKIE"
  /\ is_Some (Etap2.court_to_miejsc (Etap2.build_obszar_index sample_obszar) !! u8 "WR1K")
  /\ exists r raw x,
       In r sample_obszar /\ Etap2.notna (Etap2.Oznaczenie_sadu r) = Some raw
       /\ py_upper (strip raw) = u8 "WR1K"
       /\ Etap2.notna (Etap2.obs_Wojewodztwo r) = Some x /\ strip x = u8 "DOLNOŚLĄSKIE".
Proof.
  apply (court_region_is_a_region_of_the_court (U := latin_ucd) sample_obszar).
  vm_compute. reflexivity.
Defined.

Lemma court_lookup_never_defaults_witness :
  exists woj_o pow_o gmi_o,
    foldl Etap2.court_map_step ∅ sample_obszar !! Etap2.norm_key (Some (u8 "Lipa"))
    = Some (woj_o, pow_o, gmi_o, u8 "Lipa").
Proof.
  apply (court_lookup_never_defaults (U := latin_ucd) sample_obszar (u8 "WR1K") _
           (u8 "Lipa, Zgorzelec")); vm_compute; reflexivity.
Defined.


Lemma court_region_iff_one_region_witness :
  Etap2.court_to_woj (Etap2.build_obszar_index sample_obszar) !! u8 "WR1K"
  = Some (u8 "DOLNOŚLĄSKIE")
  <-> regions_of_court sample_obszar (u8 "WR1K") = [u8 "DOLNOŚLĄSKIE"].
Proof.
  apply (court_region_iff_one_region (U := latin_ucd) sample_obszar).
  intros r raw [<-|[]] [= <-]. vm_compute. reflexivity.
Defined.

(** ** The loop of [main] over a report *)

Section MainRow.
Context {U : UnicodeData}.

Lemma kw_is_no_target :
  Etap2.COL_KW <> Etap2.COL_WOJ /\ Etap2.COL_KW <> Etap2.COL_POW
  /\ Etap2.COL_KW <> Etap2.COL_GMI /\ Etap2.COL_KW <> Etap2.COL_MIA.
Proof. by_compute. Qed.

Ltac col_ne :=
  pose proof target_cols_distinct as (? & ? & ? & ? & ? & ?);
  pose proof kw_is_no_target as (? & ? & ? & ?); congruence.

Lemma norm_missing_fixed x v :
  Etap2.norm_missing x = Some v -> Etap2.norm_missing (Some v) = Some v.
Proof.
  destruct x as [x|]; [|intros H; discriminate H]. unfold Etap2.norm_missing. cbv zeta.
  destruct (in_set (py_lower (strip x)) _) eqn:E; [intros H; discriminate H|].
  intros [= <-]. by rewrite strip_idem, E.
Qed.

Lemma norm_missing_twice x :
  Etap2.norm_missing (Etap2.norm_missing x) = Etap2.norm_missing x.
Proof.
  destruct (Etap2.norm_missing x) as [v|] eqn:E; [|done]. by apply (norm_missing_fixed x).
Qed.

Lemma row_get_insert_ne (row : Etap2.raport_row) c c' v :
  c' <> c -> Etap2.row_get (<[c' := v]> row) c = Etap2.row_get row c.
Proof. intros H. unfold Etap2.row_get. by rewrite lookup_insert_ne. Qed.

Lemma row_get_insert_eq (row : Etap2.raport_row) c v :
  Etap2.row_get (<[c := v]> row) c = v.
Proof. unfold Etap2.row_get. by rewrite lookup_insert_eq. Qed.

(** The row after the two passes over the columns. *)
Lemma prepare_row_eq row :
  Etap2.prepare_row row
  = let r :=
      <[Etap2.COL_MIA := Etap2.norm_missing (Etap2.row_get row Etap2.COL_MIA)]>
        (<[Etap2.COL_GMI := Etap2.norm_missing (Etap2.row_get row Etap2.COL_GMI)]>
           (<[Etap2.COL_POW := Etap2.norm_missing (Etap2.row_get row Etap2.COL_POW)]>
              (<[Etap2.COL_WOJ := Etap2.norm_missing (Etap2.row_get row Etap2.COL_WOJ)]> row))) in
    match row !! Etap2.COL_KW with
    | Some x => <[Etap2.COL_KW := kw_text x]> r
    | None => r
    end.
Proof.
  unfold Etap2.prepare_row. cbn [foldl]. cbv zeta.
  rewrite !row_get_insert_ne by col_ne.
  rewrite !lookup_insert_ne by col_ne. reflexivity.
Qed.

Lemma prepare_row_target row c :
  In c target_cols ->
  Etap2.prepare_row row !! c = Some (Etap2.norm_missing (Etap2.row_get row c)).
Proof.
  intros Hc. rewrite prepare_row_eq. cbv zeta.
  unfold target_cols in Hc. cbn [In] in Hc.
  destruct Hc as [<-|[<-|[<-|[<-|[]]]]];
    (destruct (row !! Etap2.COL_KW); [rewrite lookup_insert_ne by col_ne|]);
    rewrite ?(lookup_insert_ne _ Etap2.COL_MIA) by col_ne;
    rewrite ?(lookup_insert_ne _ Etap2.COL_GMI) by col_ne;
    rewrite ?(lookup_insert_ne _ Etap2.COL_POW) by col_ne;
    by rewrite lookup_insert_eq.
Qed.

Lemma prepare_row_kw row :
  Etap2.prepare_row row !! Etap2.COL_KW = kw_text <$> (row !! Etap2.COL_KW).
Proof.
  rewrite prepare_row_eq. cbv zeta.
  destruct (row !! Etap2.COL_KW) as [x|] eqn:E.
  - by rewrite lookup_insert_eq.
  - rewrite !lookup_insert_ne by col_ne. by rewrite E.
Qed.

Lemma prepare_row_other row c :
  ~ In c target_cols -> c <> Etap2.COL_KW -> Etap2.prepare_row row !! c = row !! c.
Proof.
  intros Hc Hkw. rewrite prepare_row_eq. cbv zeta.
  assert (Etap2.COL_WOJ <> c /\ Etap2.COL_POW <> c /\ Etap2.COL_GMI <> c /\ Etap2.COL_MIA <> c)
    as (? & ? & ? & ?).
  { unfold target_cols in Hc. cbn [In] in Hc. tauto. }
  destruct (row !! Etap2.COL_KW); rewrite !lookup_insert_ne by done; reflexivity.
Qed.

Lemma keeps_refl d : keeps_columns d d.
Proof. by intros c. Qed.

Lemma keeps_trans d1 d2 d3 : keeps_columns d1 d2 -> keeps_columns d2 d3 -> keeps_columns d1 d3.
Proof. intros H1 H2 c Hc. by apply H2, H1. Qed.

Lemma keeps_insert (c : pystr) (v : Etap2.cell) (d : Etap2.raport_row) : keeps_columns d (<[c := v]> d).
Proof.
  intros c' H. destruct (decide (c = c')) as [->|Hne].
  - rewrite lookup_insert_eq. by eexists.
  - by rewrite lookup_insert_ne.
Qed.

Lemma fill_cell_keeps col cur new d : keeps_columns d (Etap2.fill_cell col cur new d).2.
Proof.
  unfold Etap2.fill_cell. destruct (_ && _); cbn [snd]; [apply keeps_insert|apply keeps_refl].
Qed.

Lemma fill_admin_keeps w p g st :
  keeps_columns (Etap2.df st)
    (Etap2.df (Etap2.fill_gmi g (Etap2.fill_pow p (Etap2.fill_woj w st)))).
Proof.
  unfold Etap2.fill_gmi, Etap2.fill_pow, Etap2.fill_woj.
  cbn [Etap2.df Etap2.woj Etap2.powiat Etap2.gmina Etap2.miejsc].
  eapply keeps_trans; [apply fill_cell_keeps|].
  eapply keeps_trans; apply fill_cell_keeps.
Qed.

Lemma set_miejsc_keeps g st : keeps_columns (Etap2.df st) (Etap2.df (Etap2.set_miejsc g st)).
Proof. apply keeps_insert. Qed.

Lemma woj_from_court_keeps ox code st :
  keeps_columns (Etap2.df st) (Etap2.df (Etap2.woj_from_court ox code st)).
Proof.
  unfold Etap2.woj_from_court. destruct (negb _); [|apply keeps_refl].
  destruct (Etap2.court_entry _ _); [apply keeps_insert|apply keeps_refl].
Qed.

Lemma admin_from_teryt_keeps tx st :
  keeps_columns (Etap2.df st) (Etap2.df (Etap2.admin_from_teryt tx st)).
Proof.
  unfold Etap2.admin_from_teryt. destruct (truthy _); [|apply keeps_refl].
  destruct (Etap2.fill_from_teryt _ _ _) as [[w p] g]. apply fill_admin_keeps.
Qed.

Lemma miejsc_from_teryt_keeps tx hint st st' :
  Etap2.miejsc_from_teryt tx hint st = Ok st' -> keeps_columns (Etap2.df st) (Etap2.df st').
Proof.
  unfold Etap2.miejsc_from_teryt. destruct (negb _); [|intros [= <-]; apply keeps_refl].
  destruct (Etap2.guess_miejscowosc_from_hint _ _ _) as [g|]; [|intros H; discriminate H].
  cbn [mbind exc_bind]. destruct (truthy g); intros [= <-];
    [apply set_miejsc_keeps|apply keeps_refl].
Qed.

Lemma miejsc_from_court_keeps ox code hint st st' :
  Etap2.miejsc_from_court ox code hint st = Ok st' ->
  keeps_columns (Etap2.df st) (Etap2.df st').
Proof.
  unfold Etap2.miejsc_from_court. destruct (negb _); [|intros [= <-]; apply keeps_refl].
  destruct (Etap2.court_entry _ _) as [m_map|]; [|intros [= <-]; apply keeps_refl].
  destruct (Etap2.guess_miejscowosc_from_hint _ _ _) as [g|]; [|intros H; discriminate H].
  cbn [mbind exc_bind]. destruct (truthy g); [|intros [= <-]; apply keeps_refl].
  cbv zeta. destruct (default _ _) as [[[wo po] go] mo]. intros [= <-].
  eapply keeps_trans; [apply (set_miejsc_keeps g)|apply fill_admin_keeps].
Qed.

Lemma fill_row_keeps tx ox row row' :
  Etap2.fill_row tx ox row = Ok row' -> keeps_columns row row'.
Proof.
  rewrite fill_row_eq.
  destruct (Etap2.miejsc_from_teryt _ _ _) as [st2|] eqn:E2; [|intros H; discriminate H].
  cbn [mbind exc_bind].
  destruct (Etap2.miejsc_from_court _ _ _ _) as [st3|] eqn:E3; [|intros H; discriminate H].
  cbn [mbind exc_bind]. intros [= <-].
  apply miejsc_from_teryt_keeps in E2. apply miejsc_from_court_keeps in E3.
  eapply keeps_trans; [apply (woj_from_court_keeps ox (court_code_of row) (start row))|].
  eapply keeps_trans; [exact E2|].
  eapply keeps_trans; [exact E3|apply admin_from_teryt_keeps].
Qed.

(** X15: the work of [main] on one row of the report (the passes over the
    columns, then the loop body) never raises [KeyError]; it leaves every
    column other than the four target columns and ["Nr KW"] as it was; the
    four target columns exist afterwards; a target cell that held a value
    holds that value, stripped; and ["Nr KW"] holds its stripped text. *)
Theorem main_row_completes teryt obs row :
  exists row',
    Etap2.main_row teryt obs row = Ok row'
    /\ (forall c, ~ In c target_cols -> c <> Etap2.COL_KW -> row' !! c = row !! c)
    /\ (forall c, In c target_cols -> is_Some (row' !! c))
    /\ (forall c v, In c target_cols ->
          Etap2.norm_missing (Etap2.row_get row c) = Some v -> row' !! c = Some (Some v))
    /\ row' !! Etap2.COL_KW = kw_text <$> (row !! Etap2.COL_KW).
Proof.
  unfold Etap2.main_row.
  destruct (fill_row_present (Etap2.build_teryt_index teryt) (Etap2.build_obszar_index obs)
              (Etap2.prepare_row row) (build_teryt_index_wf teryt)) as (row' & E & Hp & Hf).
  exists row'. split; [done|]. split; [|split; [|split]].
  - intros c Hc Hkw. rewrite Hf by done. by apply prepare_row_other.
  - intros c Hc. apply (fill_row_keeps _ _ _ _ E).
    rewrite prepare_row_target by done. by eexists.
  - intros c v Hc Hv.
    assert (Etap2.row_get (Etap2.prepare_row row) c = Some v) as Hget.
    { unfold Etap2.row_get at 1. by rewrite prepare_row_target, Hv. }
    rewrite Hp; [by rewrite prepare_row_target, Hv|done|].
    unfold present. rewrite Hget, (norm_missing_fixed _ _ Hv). done.
  - rewrite Hf; [apply prepare_row_kw|].
    unfold target_cols. cbn [In]. pose proof kw_is_no_target as (? & ? & ? & ?).
    intros [?|[?|[?|[?|[]]]]]; congruence.
Qed.

(** X16: the passes over the columns are idempotent: a row that went
    through them comes out of them unchanged. *)
Theorem prepare_row_idempotent row :
  Etap2.prepare_row (Etap2.prepare_row row) = Etap2.prepare_row row.
Proof.
  apply map_eq. intros c.
  destruct (decide (In c target_cols)) as [Hc|Hc].
  - rewrite !prepare_row_target by done. f_equal.
    unfold Etap2.row_get at 1. rewrite prepare_row_target by done. cbn [default].
    apply norm_missing_twice.
  - destruct (decide (c = Etap2.COL_KW)) as [->|Hkw].
    + rewrite !prepare_row_kw. destruct (row !! Etap2.COL_KW) as [[x|]|]; cbn; [|done..].
      unfold kw_text. by rewrite strip_idem.
    + by rewrite !prepare_row_other.
Qed.
End MainRow.

(** ** The hint of a row *)

Section Hint.
Context {U : UnicodeData}.

Lemma build_hint_text_eq row :
  Etap2.build_hint_text row = join (u8 " | ") (hint_parts row).
Proof. reflexivity. Qed.

Lemma flat_map_nil {A B} (f : A -> list B) (l : list A) :
  (forall x, In x l -> f x = []) -> flat_map f l = [].
Proof.
  induction l as [|x l IH]; intros H; [done|]. cbn [flat_map].
  rewrite (H x) by (by left). apply IH. intros y Hy. apply H. by right.
Qed.

Lemma hint_parts_nil row :
  (forall c, In c Etap2.HINT_COLS -> Etap2.norm_missing (Etap2.row_get row c) = None) ->
  hint_parts row = [].
Proof.
  intros H. unfold hint_parts. apply flat_map_nil. intros c Hc. specialize (H c Hc).
  unfold Etap2.row_get in H. destruct (row !! c) as [x|]; [|done].
  change (Etap2.norm_missing x = None) in H. by rewrite H.
Qed.

Lemma guess_blank keys canon : Etap2.guess_miejscowosc_from_hint [] keys canon = Ok None.
Proof. reflexivity. Qed.

Lemma locality_is_a_hint_column : In Etap2.COL_MIA Etap2.HINT_COLS.
Proof. unfold Etap2.HINT_COLS. cbn [In]. do 7 right. left. reflexivity. Qed.

(** X17: a row whose hint columns hold nothing has an empty hint, and
    nothing is guessed for it: the loop body can only fill its region, from
    the court of its land-register number, and that only when the row has no
    region; every other cell stays as it was, whatever the indexes hold. *)
Theorem no_hint_only_region tx ox row :
  (forall c, In c Etap2.HINT_COLS -> Etap2.norm_missing (Etap2.row_get row c) = None) ->
  Etap2.build_hint_text row = []
  /\ Etap2.fill_row tx ox row
     = Ok (if truthy (Etap2.norm_missing (Etap2.row_get row Etap2.COL_WOJ)) then row
           else match Etap2.court_entry (court_code_of row) (Etap2.court_to_woj ox) with
                | Some w => <[Etap2.COL_WOJ := Some (Etap2.title_pl (Some w))]> row
                | None => row
                end).
Proof.
  intros H.
  assert (Etap2.build_hint_text row = []) as Hhint.
  { rewrite build_hint_text_eq, hint_parts_nil by done. reflexivity. }
  split; [done|]. rewrite fill_row_eq, Hhint.
  destruct (woj_from_court_miejsc ox (court_code_of row) (start row)) as [Hm1 _].
  cbn [start Etap2.miejsc] in Hm1. rewrite (H _ locality_is_a_hint_column) in Hm1.
  unfold Etap2.miejsc_from_teryt. rewrite Hm1. cbn [truthy negb].
  rewrite guess_blank. cbn [mbind exc_bind truthy].
  unfold Etap2.miejsc_from_court. rewrite Hm1. cbn [truthy negb].
  assert (forall st, Etap2.miejsc st = None ->
            Ok (Etap2.df (Etap2.admin_from_teryt tx st)) = Ok (Etap2.df st)) as Hadm.
  { intros st Hst. rewrite admin_from_teryt_missing; [done|]. by rewrite Hst. }
  assert (Ok (Etap2.df (Etap2.woj_from_court ox (court_code_of row) (start row)))
          = Ok (if truthy (Etap2.norm_missing (Etap2.row_get row Etap2.COL_WOJ)) then row
                else match Etap2.court_entry (court_code_of row) (Etap2.court_to_woj ox) with
                     | Some w => <[Etap2.COL_WOJ := Some (Etap2.title_pl (Some w))]> row
                     | None => row
                     end)) as <-.
  { unfold Etap2.woj_from_court, start. cbn [Etap2.woj Etap2.df].
    destruct (truthy _); cbn [negb]; [done|]. by destruct (Etap2.court_entry _ _). }
  destruct (Etap2.court_entry (court_code_of row) (Etap2.court_to_miejsc ox)) as [m_map|].
  - rewrite guess_blank. cbn [mbind exc_bind truthy]. by apply Hadm.
  - cbn [mbind exc_bind]. by apply Hadm.
Qed.
End Hint.

Lemma no_hint_only_region_witness :
  Etap2.build_hint_text
    ({[ Etap2.COL_KW := Some (u8 "WR1K/00012345/6"); Etap2.COL_WOJ := Some (u8 "---") ]}
       : Etap2.raport_row) = [].
Proof.
  apply (no_hint_only_region (U := latin_ucd) (Etap2.build_teryt_index sample_teryt)
           (Etap2.build_obszar_index sample_obszar)).
  intros c Hc. unfold Etap2.HINT_COLS in Hc. cbn [In] in Hc.
  repeat (destruct Hc as [<-|Hc]; [vm_compute; reflexivity|]). destruct Hc.
Defined.

(** ** The segments of a hint *)

Section HintSegments.
Context {U : UnicodeData} {L : UnicodeLaws U}.

Lemma lstrip_snoc_ws s c :
  isspace c = true ->
  lstrip (s ++ [c]) = match lstrip s with [] => [] | _ => lstrip s ++ [c] end.
Proof.
  intros Hc. induction s as [|x r IH]; cbn [app lstrip]; [by rewrite Hc|].
  destruct (isspace x); [done|]. reflexivity.
Qed.

Lemma rstrip_snoc_ws z c : isspace c = true -> rstrip (z ++ [c]) = rstrip z.
Proof.
  intros Hc. induction z as [|x r IH]; cbn [app rstrip]; [by rewrite Hc|]. by rewrite IH.
Qed.

Lemma strip_snoc_ws s c : isspace c = true -> strip (s ++ [c]) = strip s.
Proof.
  intros Hc. unfold strip. rewrite lstrip_snoc_ws by done.
  destruct (lstrip s) as [|x r] eqn:E; [done|]. by rewrite rstrip_snoc_ws.
Qed.

Lemma strip_cons_ws s c : isspace c = true -> strip (c :: s) = strip s.
Proof. intros Hc. unfold strip. cbn [lstrip]. by rewrite Hc. Qed.

Lemma norm_key_snoc_ws s c :
  isspace c = true -> Etap2.norm_key (Some (s ++ [c])) = Etap2.norm_key (Some s).
Proof.
  intros Hc. unfold Etap2.norm_key.
  change (or_empty (Some (s ++ [c]))) with (s ++ [c]). change (or_empty (Some s)) with s.
  cbv zeta. by rewrite strip_snoc_ws.
Qed.

Lemma norm_key_cons_ws s c :
  isspace c = true -> Etap2.norm_key (Some (c :: s)) = Etap2.norm_key (Some s).
Proof.
  intros Hc. unfold Etap2.norm_key.
  change (or_empty (Some (c :: s))) with (c :: s). change (or_empty (Some s)) with s.
  cbv zeta. by rewrite strip_cons_ws.
Qed.

Lemma norm_key_nil : Etap2.norm_key (Some []) = [].
Proof. reflexivity. Qed.

(** The keys of the pieces that have one. *)
Lemma hint_segs_eq hint :
  Etap2.hint_segs hint
  = List.filter nonempty (List.map (fun s => Etap2.norm_key (Some s))
                            (re_split Etap2.SPLIT_RE hint)).
Proof.
  unfold Etap2.hint_segs. induction (re_split Etap2.SPLIT_RE hint) as [|x l IH]; [done|].
  cbn [List.filter List.map]. destruct (nonempty (Etap2.norm_key (Some x))); cbn [List.map];
    by rewrite IH.
Qed.

Local Abbreviation keys_of l :=
  (List.filter nonempty (List.map (fun s => Etap2.norm_key (Some s)) l)).

Lemma split_after_sep (sep : N -> bool) (b : pystr) :
  keys_of (re_split_go sep [] true b) = keys_of (re_split_go sep [] false b).
Proof.
  destruct b as [|x r]; [done|]. cbn [re_split_go]. destruct (sep x); [|done].
  cbn [rev List.map List.filter]. by rewrite norm_key_nil.
Qed.

Lemma split_at_sep (sep : N -> bool) cur in_sep a c b :
  sep c = true -> (in_sep = true -> cur = []) ->
  keys_of (re_split_go sep cur in_sep (a ++ c :: b))
  = keys_of (re_split_go sep cur in_sep a) ++ keys_of (re_split sep b).
Proof.
  intros Hc. revert cur in_sep. induction a as [|x a IH]; intros cur in_sep Hcur.
  - cbn [app re_split_go]. rewrite Hc. unfold re_split. destruct in_sep.
    + rewrite (Hcur eq_refl). cbn [rev List.map List.filter]. rewrite norm_key_nil.
      cbn [nonempty app]. apply split_after_sep.
    + cbn [List.map List.filter]. rewrite split_after_sep.
      by destruct (nonempty (Etap2.norm_key (Some (rev cur)))).
  - cbn [app re_split_go]. destruct (sep x).
    + destruct in_sep; [by apply IH|].
      cbn [List.map List.filter]. rewrite IH by done.
      by destruct (nonempty (Etap2.norm_key (Some (rev cur)))).
    + by apply IH.
Qed.

Lemma split_snoc_ws (sep : N -> bool) cur in_sep a c :
  sep c = false -> isspace c = true ->
  List.map (fun s => Etap2.norm_key (Some s)) (re_split_go sep cur in_sep (a ++ [c]))
  = List.map (fun s => Etap2.norm_key (Some s)) (re_split_go sep cur in_sep a).
Proof.
  intros Hsep Hc. revert cur in_sep. induction a as [|x a IH]; intros cur in_sep.
  - cbn [app re_split_go]. rewrite Hsep. cbn [re_split_go rev List.map].
    by rewrite norm_key_snoc_ws.
  - cbn [app re_split_go]. destruct (sep x); [|apply IH].
    destruct in_sep; [apply IH|]. cbn [List.map]. by rewrite IH.
Qed.

Lemma split_cons_ws (sep : N -> bool) cur b c :
  isspace c = true ->
  List.map (fun s => Etap2.norm_key (Some s)) (re_split_go sep (cur ++ [c]) false b)
  = List.map (fun s => Etap2.norm_key (Some s)) (re_split_go sep cur false b).
Proof.
  intros Hc. revert cur. induction b as [|x b IH]; intros cur.
  - cbn [re_split_go List.map]. rewrite rev_app_distr. cbn [rev app].
    by rewrite norm_key_cons_ws.
  - cbn [re_split_go]. destruct (sep x).
    + cbn [List.map]. rewrite rev_app_distr. cbn [rev app]. by rewrite norm_key_cons_ws.
    + apply (IH (x :: cur)).
Qed.

Lemma hint_segs_sep a c b :
  Etap2.SPLIT_RE c = true ->
  Etap2.hint_segs (a ++ c :: b) = Etap2.hint_segs a ++ Etap2.hint_segs b.
Proof.
  intros Hc. rewrite !hint_segs_eq. unfold re_split. by apply split_at_sep.
Qed.

Lemma hint_segs_snoc_space a : Etap2.hint_segs (a ++ [0x20%N]) = Etap2.hint_segs a.
Proof.
  rewrite !hint_segs_eq. unfold re_split.
  rewrite split_snoc_ws; [done|reflexivity|apply space_isspace].
Qed.

Lemma hint_segs_cons_space b : Etap2.hint_segs (0x20%N :: b) = Etap2.hint_segs b.
Proof.
  rewrite !hint_segs_eq. unfold re_split. cbn [re_split_go].
  change (Etap2.SPLIT_RE 0x20%N) with false. cbv iota.
  pose proof (split_cons_ws Etap2.SPLIT_RE [] b 0x20%N space_isspace) as H.
  cbn [app] in H. by rewrite H.
Qed.

Lemma hint_segs_join (parts : list pystr) :
  Etap2.hint_segs (join (u8 " | ") parts) = flat_map Etap2.hint_segs parts.
Proof.
  induction parts as [|p ps IH]; [done|].
  destruct ps as [|q ps].
  - cbn [join flat_map]. by rewrite app_nil_r.
  - change (join (u8 " | ") (p :: q :: ps))
      with (p ++ [0x20%N; 0x7C%N; 0x20%N] ++ join (u8 " | ") (q :: ps)).
    replace (p ++ [0x20%N; 0x7C%N; 0x20%N] ++ join (u8 " | ") (q :: ps))
      with ((p ++ [0x20%N]) ++ 0x7C%N :: (0x20%N :: join (u8 " | ") (q :: ps)))
      by (by rewrite <- app_assoc).
    rewrite hint_segs_sep by reflexivity.
    rewrite hint_segs_snoc_space, hint_segs_cons_space, IH. reflexivity.
Qed.

(** X18: the hint is the values of the hint columns joined with [" | "],
    and its segments are the segments of each value, in the order of the
    columns: joining never merges the text of two columns into one segment,
    and adds no segment. *)
Theorem hint_segments_are_per_column row :
  Etap2.hint_segs (Etap2.build_hint_text row) = flat_map Etap2.hint_segs (hint_parts row).
Proof. rewrite build_hint_text_eq. apply hint_segs_join. Qed.
End HintSegments.

Lemma hint_segments_are_per_column_witness :
  Etap2.hint_segs (Etap2.build_hint_text sample_row) = flat_map Etap2.hint_segs (hint_parts sample_row).
Proof. exact (hint_segments_are_per_column (U := latin_ucd) sample_row). Defined.

(** ** Stage 1 on a row *)

Lemma latin_upper_settled :
  forallb (fun c => forallb (fun d => bool_decide (upper_char d = [d])) (upper_char c))
    (N.of_nat <$> seq 0 384) = true.
Proof. vm_compute. reflexivity. Qed.

Lemma latin_upper_fixed (v s : pystr) :
  latin_text v -> (forall d, In d s -> In d (py_upper v)) -> py_upper s = s.
Proof.
  intros Hv Hs. apply flat_map_fixed. intros d Hd. apply Hs in Hd.
  apply in_flat_map in Hd as (c & Hc & Hd).
  unfold latin_text in Hv. rewrite List.Forall_forall in Hv. specialize (Hv c Hc).
  pose proof latin_upper_settled as Hall. rewrite forallb_forall in Hall.
  assert (In c (N.of_nat <$> seq 0 384)) as Hin.
  { apply in_map_iff. exists (N.to_nat c). split; [lia|]. apply in_seq. lia. }
  specialize (Hall c Hin). rewrite forallb_forall in Hall. specialize (Hall d Hd).
  by apply bool_decide_eq_true in Hall.
Qed.

Lemma historical_values_are_upper :
  map_Forall (fun _ modern => py_upper modern = modern) Etap1.HISTORICAL_VOIVODESHIP_MAP.
Proof. by_compute. Qed.

Lemma historical_value_is_upper (key modern : pystr) :
  Etap1.HISTORICAL_VOIVODESHIP_MAP !! key = Some modern -> py_upper modern = modern.
Proof. exact (historical_values_are_upper key modern). Qed.

(** X19: after stage 1 a cell of Województwo is empty or in upper case, for
    every text of the Latin blocks (so for every Polish text): the value has
    gone through [upper()] in the pass over the administrative columns and is
    then a value of the map or [upper()] of itself. *)
Theorem stage1_region_is_upper_case (x r : pystr) :
  latin_text x -> Etap1.clean_wojewodztwo (Some x) = Some r -> py_upper r = r.
Proof.
  intros Hx.
  assert (latin_text (strip x)) as Hv.
  { unfold latin_text in *. rewrite List.Forall_forall in *.
    intros c Hc. by apply Hx, In_strip. }
  assert (py_upper (strip (py_upper (strip x))) = strip (py_upper (strip x))) as Hfix.
  { apply (latin_upper_fixed (strip x)); [done|]. intros d. apply In_strip. }
  unfold Etap1.clean_wojewodztwo, Etap1.clean_admin.
  assert (forall y v, Etap1.norm_missing (Some y) = Some v -> v = strip y) as Hnm.
  { intros y v. unfold Etap1.norm_missing. cbv zeta.
    destruct (in_set _ _); intros E; [discriminate E|]. by injection E as <-. }
  destruct (Etap1.norm_missing (Some x)) as [v|] eqn:Ev; [|intros H; discriminate H].
  apply Hnm in Ev as ->. cbv beta iota.
  destruct (nonempty (strip x)); [|intros H; discriminate H].
  unfold Etap1.replace_historical_voivodeship.
  destruct (Etap1.norm_missing (Some (py_upper (strip x)))) as [val|] eqn:Eval;
    [|intros H; discriminate H].
  apply Hnm in Eval as ->. cbv beta iota.
  destruct (Etap1.norm_key _) as [key|]; [|intros H; discriminate H].
  cbv beta iota zeta.
  destruct (Etap1.HISTORICAL_VOIVODESHIP_MAP !! key) as [modern|] eqn:E1.
  { intros H. assert (modern = r) as <- by congruence.
    exact (historical_value_is_upper _ _ E1). }
  destruct (Etap1.HISTORICAL_VOIVODESHIP_MAP !! strip _) as [modern|] eqn:E2.
  { intros H. assert (modern = r) as <- by congruence.
    exact (historical_value_is_upper _ _ E2). }
  intros H. assert (py_upper (strip (py_upper (strip x))) = r) as <- by congruence.
  by rewrite !Hfix.
Qed.

Lemma stage1_region_is_upper_case_witness :
  py_upper (u8 "ŚWIĘTOKRZYSKIE (DAWNE KIELECKIE)") = u8 "ŚWIĘTOKRZYSKIE (DAWNE KIELECKIE)".
Proof.
  apply (stage1_region_is_upper_case (u8 " Świętokrzyskie (dawne kieleckie) ")).
  - unfold latin_text. eval_u8. repeat (constructor; [reflexivity|]). constructor.
  - vm_compute. reflexivity.
Defined.

Section Stage1Row.
Context {U : UnicodeData}.

Lemma alter_step_lookup (g : option pystr -> option pystr)
    (r : gmap pystr (option pystr)) (col c : pystr) :
  match r !! col with Some x => <[col := g x]> r | None => r end !! c
  = if decide (c = col) then g <$> r !! c else r !! c.
Proof.
  destruct (decide (c = col)) as [->|Hne].
  - destruct (r !! col) as [x|] eqn:E; [by rewrite lookup_insert_eq|by rewrite E].
  - destruct (r !! col); [by rewrite lookup_insert_ne|done].
Qed.

Lemma alter_fold_lookup (g : option pystr -> option pystr) (cols : list pystr)
    (r : gmap pystr (option pystr)) (c : pystr) :
  NoDup cols ->
  foldl (fun r col => match r !! col with Some x => <[col := g x]> r | None => r end)
    r cols !! c
  = if decide (c ∈ cols) then g <$> r !! c else r !! c.
Proof.
  intros Hnd. revert r. induction Hnd as [|col cols Hcol Hnd IH]; intros r.
  - cbn [foldl]. by rewrite decide_False by apply not_elem_of_nil.
  - cbn [foldl]. rewrite IH, alter_step_lookup.
    destruct (decide (c = col)) as [->|Hne].
    + rewrite decide_False by done. by rewrite decide_True by left.
    + destruct (decide (c ∈ cols)) as [Hin|Hin].
      * by rewrite decide_True by (by right).
      * rewrite decide_False; [done|]. intros Hc. apply elem_of_cons in Hc as [?|?]; done.
Qed.

Lemma admin_cols_facts :
  NoDup Etap1.ADMIN_COLS /\ u8 "Województwo" ∈ Etap1.ADMIN_COLS
  /\ u8 "_addr_hint" ∉ Etap1.ADMIN_COLS.
Proof. by_compute. Qed.

(** X20: stage 1 on a row of the report changes the administrative columns
    that exist and nothing else, creates none of them, and always sets
    [_addr_hint]: a cell of Powiat, Gmina, Miejscowość becomes empty or the
    upper case of its stripped text, a cell of Województwo goes through
    [replace_historical_voivodeship] after that. *)
Theorem stage1_row_effect (row : gmap pystr (option pystr)) :
  let row' := Etap1.main_row row in
  (forall c, c ∉ Etap1.ADMIN_COLS -> c <> u8 "_addr_hint" -> row' !! c = row !! c)
  /\ (forall c, c ∈ Etap1.ADMIN_COLS -> c <> u8 "Województwo" ->
        row' !! c = Etap1.clean_admin <$> row !! c)
  /\ row' !! u8 "Województwo" = Etap1.clean_wojewodztwo <$> row !! u8 "Województwo"
  /\ is_Some (row' !! u8 "_addr_hint").
Proof.
  destruct admin_cols_facts as (Hnd & Hwoj & Hhint).
  assert (u8 "Województwo" <> u8 "_addr_hint") as Hne by (intros E; by rewrite <- E in Hhint).
  cbv zeta. unfold Etap1.main_row. cbv zeta.
  set (r1 := foldl _ row Etap1.ADMIN_COLS).
  assert (forall c, r1 !! c = if decide (c ∈ Etap1.ADMIN_COLS)
                              then Etap1.clean_admin <$> row !! c else row !! c) as Hr1.
  { intros c. subst r1. by apply alter_fold_lookup. }
  split; [|split; [|split]].
  - intros c Hc Hh. rewrite lookup_insert_ne by done.
    rewrite alter_step_lookup, Hr1.
    destruct (decide (c = u8 "Województwo")) as [->|_]; [done|].
    by rewrite decide_False.
  - intros c Hc Hw. rewrite lookup_insert_ne by (intros <-; done).
    rewrite alter_step_lookup, Hr1. rewrite decide_False by done.
    by rewrite decide_True.
  - rewrite lookup_insert_ne by done. rewrite alter_step_lookup, Hr1.
    rewrite !decide_True by done.
    destruct (row !! u8 "Województwo") as [x|]; reflexivity.
  - rewrite lookup_insert_eq. by eexists.
Qed.
End Stage1Row.

(** ** Land-register numbers and street prefixes on ASCII text *)

Lemma latin_ascii_facts :
  forallb (fun c =>
    implb (ascii_letter c)
      match upper_char c with
      | [u] => Etap2.AZ_ignorecase u && negb (isspace u) && negb (isspace c)
      | _ => false
      end
    && implb (ascii_digit c) (bool_decide (upper_char c = [c]) && isdecimal c))
    (N.of_nat <$> seq 0 128) = true.
Proof. vm_compute. reflexivity. Qed.

Lemma ascii_facts_at c :
  (c < 128)%N ->
  implb (ascii_letter c)
    match upper_char c with
    | [u] => Etap2.AZ_ignorecase u && negb (isspace u) && negb (isspace c)
    | _ => false
    end
  && implb (ascii_digit c) (bool_decide (upper_char c = [c]) && isdecimal c) = true.
Proof.
  intros Hc. pose proof latin_ascii_facts as Hall. rewrite forallb_forall in Hall.
  apply Hall. apply in_map_iff. exists (N.to_nat c). split; [lia|]. apply in_seq. lia.
Qed.

Lemma ascii_letter_upper c :
  ascii_letter c = true ->
  exists u, upper_char c = [u] /\ Etap2.AZ_ignorecase u = true
            /\ isspace u = false /\ isspace c = false.
Proof.
  intros H. assert (c < 128)%N as Hc.
  { unfold ascii_letter in H. apply orb_true_iff in H as [H|H];
      apply andb_true_iff in H as [_ H]; apply N.leb_le in H; lia. }
  pose proof (ascii_facts_at c Hc) as Hf. apply andb_true_iff in Hf as [Hf _].
  rewrite H in Hf. cbn [implb] in Hf.
  destruct (upper_char c) as [|u [|? ?]]; try discriminate Hf.
  apply andb_true_iff in Hf as [Hf H3]. apply andb_true_iff in Hf as [H1 H2].
  apply negb_true_iff in H2, H3. by exists u.
Qed.

Lemma ascii_digit_upper d :
  ascii_digit d = true -> upper_char d = [d] /\ isdecimal d = true.
Proof.
  intros H. assert (d < 128)%N as Hd.
  { unfold ascii_digit in H. apply andb_true_iff in H as [_ H]. apply N.leb_le in H. lia. }
  pose proof (ascii_facts_at d Hd) as Hf. apply andb_true_iff in Hf as [_ Hf].
  rewrite H in Hf. cbn [implb] in Hf. apply andb_true_iff in Hf as [H1 H2].
  by apply bool_decide_eq_true in H1.
Qed.

Lemma lstrip_ws_app {U : UnicodeData} (pre t : pystr) :
  Forall (fun c => isspace c = true) pre -> lstrip (pre ++ t) = lstrip t.
Proof. induction 1 as [|c pre Hc _ IH]; [done|]. cbn [app lstrip]. by rewrite Hc. Qed.

(** X21: a land-register number that starts, after any white space, with
    two ASCII letters, a digit, a letter and a slash has a court code: those
    four characters in upper case, whatever follows the slash. *)
Theorem well_formed_number_has_its_code (pre rest : pystr) (a b d e : N) :
  Forall (fun c => isspace c = true) pre ->
  ascii_letter a = true -> ascii_letter b = true -> ascii_digit d = true ->
  ascii_letter e = true ->
  Etap2.extract_court_code (Some (pre ++ a :: b :: d :: e :: 0x2F%N :: rest))
  = Some (py_upper [a; b; d; e]).
Proof.
  intros Hpre Ha Hb Hd He.
  apply ascii_letter_upper in Ha as (A & HA & HA1 & HA2 & Ha).
  apply ascii_letter_upper in Hb as (B & HB & HB1 & _ & _).
  apply ascii_letter_upper in He as (E & HE & HE1 & _ & _).
  apply ascii_digit_upper in Hd as (HD & HD1).
  unfold Etap2.extract_court_code.
  assert (truthy (Some (pre ++ a :: b :: d :: e :: 0x2F%N :: rest)) = true) as ->
    by (by destruct pre).
  change (or_empty (Some ?x)) with x.
  assert (strip (pre ++ a :: b :: d :: e :: 0x2F%N :: rest)
          = a :: b :: d :: e :: 0x2F%N :: rstrip rest) as ->.
  { unfold strip. rewrite lstrip_ws_app by done. cbn [lstrip]. rewrite Ha.
    change (a :: b :: d :: e :: 0x2F%N :: rest) with ([a; b; d; e] ++ 0x2F%N :: rest).
    rewrite rstrip_app_visible by (apply Exists_cons_hd; reflexivity).
    by rewrite rstrip_cons_visible by reflexivity. }
  unfold py_upper. cbn [flat_map]. rewrite HA, HB, HD, HE.
  change (upper_char 0x2F%N) with [0x2F%N]. cbn [app].
  unfold Etap2.KW_COURT_RE. cbn [Etap2.ws_star]. rewrite HA2, HA1, HB1, HD1, HE1.
  cbn [andb Etap2.ws_star]. change (isspace 0x2F%N) with false. cbv iota.
  reflexivity.
Qed.

Lemma well_formed_number_has_its_code_witness :
  Etap2.extract_court_code (Some (u8 "  kr1p/00012345/6")) = Some (py_upper (u8 "kr1p")).
Proof.
  apply (well_formed_number_has_its_code (u8 "  ") (u8 "00012345/6")
           0x6B%N 0x72%N 0x31%N 0x70%N); try reflexivity.
  eval_u8. repeat (constructor; [reflexivity|]). constructor.
Defined.

(** X22: each of the eight street prefixes (ul, ulica, al, aleja, os,
    osiedle, pl, plac) at the start of a segment, followed by white space or
    by a dot and white space, is cut off with that white space. *)
Theorem street_prefix_is_cut (p rest : pystr) :
  In p Etap2.PREFIXES ->
  Etap2.cut_prefix (p ++ 0x20%N :: rest) = lstrip rest
  /\ Etap2.cut_prefix (p ++ 0x2E%N :: 0x20%N :: rest) = lstrip rest.
Proof.
  intros Hp. unfold Etap2.PREFIXES in Hp. cbn [In] in Hp.
  repeat (destruct Hp as [<-|Hp]; [split; vm_compute; reflexivity|]). destruct Hp.
Qed.

Lemma street_prefix_is_cut_witness :
  Etap2.cut_prefix (u8 "ulica" ++ 0x20%N :: u8 " kwiatowa 5") = lstrip (u8 " kwiatowa 5")
  /\ Etap2.cut_prefix (u8 "ulica" ++ 0x2E%N :: 0x20%N :: u8 " kwiatowa 5")
     = lstrip (u8 " kwiatowa 5").
Proof.
  apply (street_prefix_is_cut (u8 "ulica") (u8 " kwiatowa 5")).
  unfold Etap2.PREFIXES. cbn [In]. right. left. reflexivity.
Defined.

(** ** The key of a value written to the report *)

Section TitleKey.
Context {U : UnicodeData}.


End TitleKey.


(** ** County and municipality of a row with a locality and a region *)

Section RegionSelects.
Context {U : UnicodeData}.

Lemma truthy_or_none s : truthy (or_none s) = nonempty s.
Proof. by destruct s. Qed.

Lemma fill_from_teryt_at (k : pystr) (wanted : option pystr)
    (m : gmap pystr (list (pystr * pystr * pystr))) rows woj0 pow0 gmi0 :
  m !! k = Some rows -> chosen_row wanted rows = Some (woj0, pow0, gmi0) ->
  Etap2.fill_from_teryt k wanted m = (or_none woj0, or_none pow0, or_none gmi0).
Proof.
  intros Hk Hc. unfold Etap2.fill_from_teryt. rewrite Hk.
  change (default [] (Some rows)) with rows. cbv zeta. unfold chosen_row in Hc.
  destruct rows as [|r0 rs].
  { destruct (truthy wanted); discriminate Hc. }
  destruct (truthy wanted).
  - rewrite <- head_filter_find in Hc.
    destruct (List.filter _ (r0 :: rs)) as [|r1 rs1].
    + cbn [head] in Hc. by injection Hc as ->.
    + cbn [head] in Hc. by injection Hc as ->.
  - cbn [head] in Hc. by injection Hc as ->.
Qed.

Lemma kw_and_targets_differ :
  Etap2.COL_POW <> Etap2.COL_GMI /\ Etap2.COL_GMI <> Etap2.COL_POW.
Proof. pose proof target_cols_distinct as (_ & _ & _ & H & _). split; congruence. Qed.

(** X24: for a row that has a locality and a region, the loop body guesses
    nothing and asks no court; it reads the TERYT records of the key of the
    locality, takes the first one of the row's region (the first one at all
    when no record has that region), and fills county and municipality from
    it, each only when the row has none and the record has one; no other cell
    changes. *)
Theorem region_selects_the_teryt_record tx ox row w m rows woj0 pow0 gmi0 :
  Etap2.norm_missing (Etap2.row_get row Etap2.COL_WOJ) = Some w ->
  Etap2.norm_missing (Etap2.row_get row Etap2.COL_MIA) = Some m ->
  Etap2.miejsc_to_rows tx !! Etap2.norm_key (Some m) = Some rows ->
  chosen_row (Some w) rows = Some (woj0, pow0, gmi0) ->
  exists row',
    Etap2.fill_row tx ox row = Ok row'
    /\ row' !! Etap2.COL_POW
       = (if negb (truthy (Etap2.norm_missing (Etap2.row_get row Etap2.COL_POW)))
             && nonempty pow0
          then Some (Some (Etap2.title_pl (Some pow0))) else row !! Etap2.COL_POW)
    /\ row' !! Etap2.COL_GMI
       = (if negb (truthy (Etap2.norm_missing (Etap2.row_get row Etap2.COL_GMI)))
             && nonempty gmi0
          then Some (Some (Etap2.title_pl (Some gmi0))) else row !! Etap2.COL_GMI)
    /\ forall c, c <> Etap2.COL_POW -> c <> Etap2.COL_GMI -> row' !! c = row !! c.
Proof.
  intros Hw Hm Hrows Hrec.
  assert (truthy (Some w) = true) as Tw.
  { rewrite <- Hw. apply norm_missing_truthy. by rewrite Hw. }
  assert (truthy (Some m) = true) as Tm.
  { rewrite <- Hm. apply norm_missing_truthy. by rewrite Hm. }
  rewrite fill_row_eq.
  assert (Etap2.woj_from_court ox (court_code_of row) (start row) = start row) as ->.
  { unfold Etap2.woj_from_court. cbn [start Etap2.woj]. by rewrite Hw, Tw. }
  assert (Etap2.miejsc_from_teryt tx (Etap2.build_hint_text row) (start row)
          = Ok (start row)) as ->.
  { unfold Etap2.miejsc_from_teryt. cbn [start Etap2.miejsc]. by rewrite Hm, Tm. }
  cbn [mbind exc_bind].
  assert (Etap2.miejsc_from_court ox (court_code_of row) (Etap2.build_hint_text row)
            (start row) = Ok (start row)) as ->.
  { unfold Etap2.miejsc_from_court. cbn [start Etap2.miejsc]. by rewrite Hm, Tm. }
  cbn [mbind exc_bind]. eexists. split; [reflexivity|].
  unfold Etap2.admin_from_teryt. cbn [start Etap2.miejsc Etap2.woj].
  rewrite Hm, Tm, Hw, (fill_from_teryt_at _ _ _ _ _ _ _ Hrows Hrec).
  unfold Etap2.fill_gmi, Etap2.fill_pow, Etap2.fill_woj, Etap2.fill_cell.
  cbn [start Etap2.woj Etap2.powiat Etap2.gmina Etap2.miejsc Etap2.df fst snd].
  rewrite Hw, Tw. cbn [negb andb fst snd]. rewrite !truthy_or_none.
  destruct kw_and_targets_differ as [Hpg Hgp].
  destruct (negb (truthy (Etap2.norm_missing (Etap2.row_get row Etap2.COL_POW)))
            && nonempty pow0) eqn:Ep;
    destruct (negb (truthy (Etap2.norm_missing (Etap2.row_get row Etap2.COL_GMI)))
              && nonempty gmi0) eqn:Eg;
    cbn [fst snd]; rewrite ?Eg; cbn [fst snd].
  - split; [|split].
    + rewrite lookup_insert_ne by done. rewrite lookup_insert_eq.
      by destruct pow0.
    + rewrite lookup_insert_eq. by destruct gmi0.
    + intros c Hc1 Hc2. by rewrite !lookup_insert_ne.
  - split; [|split].
    + rewrite lookup_insert_eq. by destruct pow0.
    + by rewrite lookup_insert_ne.
    + intros c Hc1 Hc2. by rewrite lookup_insert_ne.
  - split; [|split].
    + by rewrite lookup_insert_ne.
    + rewrite lookup_insert_eq. by destruct gmi0.
    + intros c Hc1 Hc2. by rewrite lookup_insert_ne.
  - done.
Qed.
End RegionSelects.

Lemma region_selects_the_teryt_record_witness :
  exists row',
    Etap2.fill_row
      (Etap2.build_teryt_index
         [ teryt_row_of "LUBELSKIE" "lubelski" "Lipa" "Lipa";
           teryt_row_of "MAZOWIECKIE" "radomski" "Jedlnia-Letnisko" "LIPA" ])
      (Etap2.build_obszar_index sample_obszar)
      {[ Etap2.COL_WOJ := Some (u8 "mazowieckie"); Etap2.COL_MIA := Some (u8 "Lipa") ]}
    = Ok row'
    /\ row' !! Etap2.COL_POW = Some (Some (u8 "Radomski"))
    /\ row' !! Etap2.COL_GMI = Some (Some (u8 "Jedlnia-Letnisko")).
Proof.
  destruct (region_selects_the_teryt_record (U := latin_ucd)
              (Etap2.build_teryt_index
                 [ teryt_row_of "LUBELSKIE" "lubelski" "Lipa" "Lipa";
                   teryt_row_of "MAZOWIECKIE" "radomski" "Jedlnia-Letnisko" "LIPA" ])
              (Etap2.build_obszar_index sample_obszar)
              {[ Etap2.COL_WOJ := Some (u8 "mazowieckie"); Etap2.COL_MIA := Some (u8 "Lipa") ]}
              (u8 "mazowieckie") (u8 "Lipa")
              [ (u8 "LUBELSKIE", u8 "lubelski", u8 "Lipa");
                (u8 "MAZOWIECKIE", u8 "radomski", u8 "Jedlnia-Letnisko") ]
              (u8 "MAZOWIECKIE") (u8 "radomski") (u8 "Jedlnia-Letnisko"))
    as (row' & E & Hp & Hg & _); try (vm_compute; reflexivity).
  exists row'. split; [exact E|]. rewrite Hp, Hg. vm_compute. split; reflexivity.
Defined.

(** ** County and municipality from the record of the court *)

Section CourtRecord.
Context {U : UnicodeData}.

Lemma fill_pow_cell po st :
  truthy (Etap2.powiat st) = false -> nonempty po = true ->
  Etap2.powiat (Etap2.fill_pow (Some po) st) = Some po
  /\ Etap2.df (Etap2.fill_pow (Some po) st) !! Etap2.COL_POW
     = Some (Some (Etap2.title_pl (Some po))).
Proof.
  intros Hp Hpo. unfold Etap2.fill_pow, Etap2.fill_cell.
  cbn [Etap2.powiat Etap2.df truthy]. rewrite Hp, Hpo. cbn [negb andb fst snd].
  by rewrite lookup_insert_eq.
Qed.

(** X25: when the hint gives no locality with TERYT and gives one with the
    localities of the court of the row, the row gets that locality, and a row
    without a county gets the county of the court's record of that locality:
    the record of the court is used before the records of TERYT. *)
Theorem court_record_fills_county tx ox row m_map name woj_o pow_o gmi_o name_o :
  Etap2.norm_missing (Etap2.row_get row Etap2.COL_MIA) = None ->
  Etap2.norm_missing (Etap2.row_get row Etap2.COL_POW) = None ->
  Etap2.guess_miejscowosc_from_hint (Etap2.build_hint_text row)
    (Etap2.miejsc_keys_set tx) (Etap2.miejsc_key_to_canon tx) = Ok None ->
  Etap2.court_entry (court_code_of row) (Etap2.court_to_miejsc ox) = Some m_map ->
  Etap2.guess_miejscowosc_from_hint (Etap2.build_hint_text row)
    (dom m_map) ((fun v => v.2) <$> m_map) = Ok (Some name) ->
  nonempty name = true ->
  m_map !! Etap2.norm_key (Some name) = Some (woj_o, pow_o, gmi_o, name_o) ->
  nonempty pow_o = true ->
  exists row',
    Etap2.fill_row tx ox row = Ok row'
    /\ row' !! Etap2.COL_MIA = Some (Some (Etap2.title_pl (Some name)))
    /\ row' !! Etap2.COL_POW = Some (Some (Etap2.title_pl (Some pow_o))).
Proof.
  intros Hmia Hpow Hg Hce Hgl Hne Hrec Hpo. rewrite fill_row_eq.
  set (st1 := Etap2.woj_from_court ox (court_code_of row) (start row)).
  assert (Etap2.miejsc st1 = None /\ Etap2.powiat st1 = None) as [Hm1 Hp1].
  { subst st1. unfold Etap2.woj_from_court.
    destruct (negb _); [destruct (Etap2.court_entry _ (Etap2.court_to_woj ox))|];
      cbn [start Etap2.miejsc Etap2.powiat]; by rewrite Hmia, Hpow. }
  assert (Etap2.miejsc_from_teryt tx (Etap2.build_hint_text row) st1 = Ok st1) as ->.
  { unfold Etap2.miejsc_from_teryt. rewrite Hm1. cbn [truthy negb]. by rewrite Hg. }
  cbn [mbind exc_bind].
  assert (Etap2.miejsc_from_court ox (court_code_of row) (Etap2.build_hint_text row) st1
          = Ok (court_fill m_map (Some name) st1)) as ->.
  { pose proof (miejsc_from_court_spec ox (court_code_of row)
                  (Etap2.build_hint_text row) st1) as H.
    rewrite Hce in H. destruct H as (g & Hg' & ->). rewrite Hgl in Hg'.
    injection Hg' as <-. rewrite Hm1. cbn [truthy negb andb]. by rewrite Hne. }
  cbn [mbind exc_bind]. eexists. split; [reflexivity|].
  unfold court_fill. cbv zeta.
  destruct (set_miejsc_cell (Some name) st1) as [Hm2 Hc2]. rewrite Hm2, Hrec.
  cbn [default fst snd].
  set (st2 := Etap2.set_miejsc (Some name) st1) in *.
  set (st3 := Etap2.fill_pow (Some pow_o) (Etap2.fill_woj (Some woj_o) st2)).
  destruct (fill_pow_cell pow_o (Etap2.fill_woj (Some woj_o) st2)) as [Hp3 Hc3].
  { cbn [Etap2.fill_woj Etap2.powiat]. subst st2. cbn [Etap2.set_miejsc Etap2.powiat].
    by rewrite Hp1. }
  { done. }
  fold st3 in Hp3, Hc3.
  assert (extends st3 (Etap2.admin_from_teryt tx (Etap2.fill_gmi (Some gmi_o) st3))) as X3.
  { eapply extends_trans; [apply fill_gmi_extends|apply admin_from_teryt_extends]. }
  assert (extends st2 (Etap2.admin_from_teryt tx (Etap2.fill_gmi (Some gmi_o) st3))) as X2.
  { eapply extends_trans; [apply fill_admin_extends|apply admin_from_teryt_extends]. }
  split.
  - rewrite <- Hc2. apply extends_mia; [|done]. rewrite Hm2. exact Hne.
  - rewrite <- Hc3. destruct X3 as (_ & _ & X & _). apply X. rewrite Hp3. exact Hpo.
Qed.
End CourtRecord.

Lemma court_record_fills_county_witness :
  exists row',
    Etap2.fill_row (Etap2.build_teryt_index sample_teryt)
      (Etap2.build_obszar_index sample_obszar)
      {[ Etap2.COL_KW := Some (u8 "WR1K/00012345/6");
         u8 "Położenie" := Some (u8 "działka, Lipa") ]}
    = Ok row'
    /\ row' !! Etap2.COL_MIA = Some (Some (Etap2.title_pl (Some (u8 "Lipa"))))
    /\ row' !! Etap2.COL_POW = Some (Some (Etap2.title_pl (Some (u8 "wrocławski")))).
Proof.
  apply (court_record_fills_county (U := latin_ucd)
           (Etap2.build_teryt_index sample_teryt) (Etap2.build_obszar_index sample_obszar)
           {[ Etap2.COL_KW := Some (u8 "WR1K/00012345/6");
              u8 "Położenie" := Some (u8 "działka, Lipa") ]}
           (foldl Etap2.court_map_step ∅ sample_obszar) (u8 "Lipa")
           (u8 "DOLNOŚLĄSKIE") (u8 "wrocławski") (u8 "Kobierzyce") (u8 "Lipa"));
    vm_compute; reflexivity.
Defined.

(** ** The hint of stage 1 and the hint of stage 2 *)

Section TwoHints.
Context {U : UnicodeData}.

Lemma norm_missing_same x : Etap1.norm_missing x = Etap2.norm_missing x.
Proof. reflexivity. Qed.

Lemma hint_cols_of_stage2 : Etap2.HINT_COLS = u8 "_addr_hint" :: Etap1.HINT_COLS.
Proof. reflexivity. Qed.

Lemma hint_parts_nonempty row p : In p (hint_parts row) -> nonempty p = true.
Proof.
  unfold hint_parts. intros H. apply in_flat_map in H as (c & _ & H).
  destruct (row !! c) as [x|]; [|destruct H].
  destruct (Etap2.norm_missing x) as [v|]; [|destruct H].
  destruct (nonempty v) eqn:E; [|destruct H]. by destruct H as [<-|[]].
Qed.

Lemma join_nonempty sep p ps : nonempty p = true -> nonempty (join sep (p :: ps)) = true.
Proof. destruct p; [done|]. intros _. by destruct ps. Qed.

(** X26: on a row that has no column [_addr_hint] yet, the hint that stage
    1 computes is the hint that stage 2 would build from the same row, in
    upper case, and [None] when that hint is empty: both read the same
    columns in the same order and skip the same missing values. *)
Theorem stage1_hint_is_upper_stage2_hint (row : gmap pystr (option pystr)) :
  row !! u8 "_addr_hint" = None ->
  Etap1.build_addr_hint row
  = if nonempty (Etap2.build_hint_text row)
    then Some (py_upper (Etap2.build_hint_text row)) else None.
Proof.
  intros Hno. rewrite build_hint_text_eq.
  assert (forall p, In p (hint_parts row) -> nonempty p = true) as Hne
    by apply hint_parts_nonempty.
  unfold Etap1.build_addr_hint. cbv zeta. unfold hint_parts in *.
  rewrite hint_cols_of_stage2 in *. cbn [flat_map] in *. rewrite Hno in *.
  cbn [app] in *.
  destruct (flat_map _ Etap1.HINT_COLS) as [|p ps]; [reflexivity|].
  rewrite join_nonempty; [reflexivity|]. apply Hne. by left.
Qed.
End TwoHints.

Lemma stage1_hint_is_upper_stage2_hint_witness :
  Etap1.build_addr_hint
    ({[ u8 "Położenie" := Some (u8 "Lipa, Warszawa"); u8 "Ulica" := Some (u8 " --- ");
        u8 "Dzielnica" := Some (u8 "Śródmieście") ]} : gmap pystr (option pystr))
  = Some (u8 "LIPA, WARSZAWA | ŚRÓDMIEŚCIE").
Proof.
  rewrite (stage1_hint_is_upper_stage2_hint (U := latin_ucd)).
  - vm_compute. reflexivity.
  - vm_compute. reflexivity.
Defined.
